(** * Skills-MCP-WHM-Pro: the in-process coordination layer

    A shallow embedding of the four support libraries of the WHM/cPanel MCP
    server and the properties their specification states about them:

    - [LockManager]     (lib/lock-manager.js)       exclusive timed locks;
    - [TransactionLog]  (lib/transaction-log.js)    backup / commit / rollback;
    - [Nsec3]           (lib/nsec3-async-handler.js) long-running operations;
    - [ErrorMapper]     (lib/error-mapper.js)       error kinds and retry policy.

    and of the three validators that guard their callers:

    - [Validators]      (lib/validators.js)         domain and subdomain names;
    - [PathValidator]   (lib/path-validator.js)     document roots;
    - [AclValidator]    (lib/acl-validator.js)      access by token.

    Conventions of the embedding.
    - A JavaScript [Map] keyed by strings is a [gmap string _].
    - Every entry point takes the table it works on and returns the new table
      next to its result object.
    - [Date.now()] and [crypto.randomBytes(..).toString('hex')] are inputs of
      the call that reads them: a function that reads the clock twice takes
      two readings.
    - Calls to [logger] have no effect on the tables and are left out.
    - Finite JavaScript numbers are integers ([Z]); [NaN] and the two
      infinities are kept because [typeof] calls them numbers and every
      comparison against [NaN] is false. *)

From Stdlib Require Import ZArith String Ascii List Bool Lia.
From stdpp Require Import gmap strings list fin_maps pretty relations.

Set Warnings "-register-all".

Open Scope string_scope.
Open Scope Z_scope.

(* ===================================================================== *)
(** * Part I: the programs                                                *)
(* ===================================================================== *)

(** ** JavaScript values as the libraries use them *)

Module JS.

(** The [number] type: integers, [NaN], [Infinity], [-Infinity]. *)
Inductive number : Type :=
| Num (z : Z)
| NaN
| PosInf
| NegInf.

(** [a < b] *)
Definition num_ltb (a b : number) : bool :=
  match a, b with
  | NaN, _ | _, NaN => false
  | Num x, Num y => x <? y
  | NegInf, NegInf => false
  | NegInf, _ => true
  | _, NegInf => false
  | PosInf, _ => false
  | Num _, PosInf => true
  end.

(** [a <= b] *)
Definition num_leb (a b : number) : bool :=
  match a, b with
  | NaN, _ | _, NaN => false
  | Num x, Num y => x <=? y
  | NegInf, _ => true
  | _, NegInf => false
  | _, PosInf => true
  | PosInf, Num _ => false
  end.

(** [a > b] and [a >= b] *)
Definition num_gtb (a b : number) : bool := num_ltb b a.
Definition num_geb (a b : number) : bool := num_leb b a.

(** [a === b] on numbers *)
Definition num_eqb (a b : number) : bool :=
  match a, b with
  | Num x, Num y => x =? y
  | PosInf, PosInf | NegInf, NegInf => true
  | _, _ => false
  end.

(** [Math.min(a, b)] *)
Definition Math_min (a b : number) : number :=
  match a, b with
  | NaN, _ | _, NaN => NaN
  | _, _ => if num_leb a b then a else b
  end.

(** [Math.max(a, b)] *)
Definition Math_max (a b : number) : number :=
  match a, b with
  | NaN, _ | _, NaN => NaN
  | _, _ => if num_leb a b then b else a
  end.

(** [a + b] *)
Definition num_add (a b : number) : number :=
  match a, b with
  | NaN, _ | _, NaN => NaN
  | Num x, Num y => Num (x + y)
  | PosInf, NegInf | NegInf, PosInf => NaN
  | PosInf, _ | _, PosInf => PosInf
  | NegInf, _ | _, NegInf => NegInf
  end.

(** [-a] and [a - b] *)
Definition num_neg (a : number) : number :=
  match a with
  | Num x => Num (- x)
  | NaN => NaN
  | PosInf => NegInf
  | NegInf => PosInf
  end.

Definition num_sub (a b : number) : number := num_add a (num_neg b).

(** [Math.ceil(a / d)] for a positive integer constant [d]: the quotient
    itself need not be an integer, its ceiling is. *)
Definition ceil_div (a : number) (d : Z) : number :=
  match a with
  | Num x => Num (- ((- x) / d))
  | other => other
  end.

(** [String(a)], as a template literal prints a number. *)
Definition num_to_string (a : number) : string :=
  match a with
  | Num x => pretty x
  | NaN => "NaN"
  | PosInf => "Infinity"
  | NegInf => "-Infinity"
  end.

(** Argument values. Objects and arrays are immutable trees here; the
    transaction log, whose claims depend on sharing, has its own heap. *)
Inductive JsValue : Type :=
| JUndefined
| JNull
| JBool (b : bool)
| JNumber (n : number)
| JString (s : string)
| JArray (items : list JsValue)
| JObject (fields : list (string * JsValue))
| JFunction (name : string).

(** [typeof v] *)
Definition typeof (v : JsValue) : string :=
  match v with
  | JUndefined => "undefined"
  | JNull => "object"
  | JBool _ => "boolean"
  | JNumber _ => "number"
  | JString _ => "string"
  | JArray _ => "object"
  | JObject _ => "object"
  | JFunction _ => "function"
  end.

(** [ToBoolean]: what [!v], [v || w] and [if (v)] look at. *)
Definition num_truthy (n : number) : bool :=
  match n with
  | Num z => negb (z =? 0)
  | NaN => false
  | PosInf | NegInf => true
  end.

Definition truthy (v : JsValue) : bool :=
  match v with
  | JUndefined | JNull => false
  | JBool b => b
  | JNumber n => num_truthy n
  | JString s => negb (String.eqb s "")
  | JArray _ | JObject _ | JFunction _ => true
  end.

(** [Array.isArray(v)] *)
Definition isArray (v : JsValue) : bool :=
  match v with JArray _ => true | _ => false end.

(** The string behind a value already known to be one. *)
Definition as_string (v : JsValue) : string :=
  match v with JString s => s | _ => "" end.

(** The number behind a value already known to be one. *)
Definition as_number (v : JsValue) : number :=
  match v with JNumber n => n | _ => NaN end.

(** [obj.key]: own property of an object, [undefined] when absent or when
    [obj] is a primitive. Reading a property of [null] or [undefined]
    raises a TypeError, which callers model where it can happen. *)
Fixpoint assoc (key : string) (fields : list (string * JsValue)) : JsValue :=
  match fields with
  | [] => JUndefined
  | (k, v) :: rest => if String.eqb k key then v else assoc key rest
  end.

Definition get (obj : JsValue) (key : string) : JsValue :=
  match obj with
  | JObject fields => assoc key fields
  | _ => JUndefined
  end.

(** [String.prototype.trim] on the ASCII white space and line terminators
    (TAB, LF, VT, FF, CR, SPACE). *)
Definition is_space (c : ascii) : bool :=
  let n := nat_of_ascii c in
  ((9 <=? n) && (n <=? 13))%nat || (n =? 32)%nat.

Fixpoint trim_left (s : string) : string :=
  match s with
  | String c rest => if is_space c then trim_left rest else s
  | EmptyString => EmptyString
  end.

Fixpoint trim_right (s : string) : string :=
  match s with
  | String c rest =>
      match trim_right rest with
      | EmptyString => if is_space c then EmptyString else String c EmptyString
      | rest' => String c rest'
      end
  | EmptyString => EmptyString
  end.

Definition trim (s : string) : string := trim_right (trim_left s).

(** [String.prototype.toLowerCase] on ASCII letters. *)
Definition lower_ascii (c : ascii) : ascii :=
  let n := nat_of_ascii c in
  if ((65 <=? n) && (n <=? 90))%nat then ascii_of_nat (n + 32) else c.

Fixpoint toLowerCase (s : string) : string :=
  match s with
  | String c rest => String (lower_ascii c) (toLowerCase rest)
  | EmptyString => EmptyString
  end.

(** How a call ends: it returns its result object, or it raises. *)
Inductive Outcome (A : Type) : Type :=
| Returned (result : A)
| Thrown (message : string).

Arguments Returned {A} result.
Arguments Thrown {A} message.

End JS.

(** ** lib/lock-manager.js *)

Module LockManager.
Import JS.

(** The entry stored per resource: [{ lockId, timestamp, timeout }]. *)
Module LockData.
Record t : Type := mk { lockId : string; timestamp : Z; timeout : number }.
End LockData.

(** [const locks = new Map()] *)
Abbreviation Locks := (gmap string LockData.t).

Definition DEFAULT_LOCK_TIMEOUT : Z := 30000.
Definition STALE_CHECK_INTERVAL : Z := 5000.

(** What one call of [acquireLock] reads from outside: the two
    [Date.now()] readings (at the expiry check, and when stamping the new
    entry) and the 16 random bytes of [generateLockId()], in hex. *)
Record Sys : Type := {
  now_check : Z;
  now_grant : Z;
  random_hex : string
}.

(** [{ acquired, lockId, error }] *)
Record AcquireResult : Type := {
  acquired : bool;
  lockId : option string;
  error : option string
}.

Definition busy_message (remaining : number) : string :=
  "Recurso já está em uso. Tente novamente em "
    +:+ num_to_string (ceil_div remaining 1000) +:+ "s".

Definition acquireLock (sys : Sys) (resource timeout_arg : JsValue)
    (locks : Locks) : AcquireResult * Locks :=
  (* timeout = DEFAULT_LOCK_TIMEOUT when the argument is undefined *)
  let timeout :=
    match timeout_arg with
    | JUndefined => JNumber (Num DEFAULT_LOCK_TIMEOUT)
    | given => given
    end in
  if negb (truthy resource) || negb (String.eqb (typeof resource) "string") then
    ({| acquired := false; lockId := None;
        error := Some "Identificador de recurso inválido" |}, locks)
  else if negb (String.eqb (typeof timeout) "number")
          || num_leb (as_number timeout) (Num 0) then
    ({| acquired := false; lockId := None;
        error := Some "Timeout deve ser um número positivo em milissegundos" |},
     locks)
  else
    let safeTimeout := Math_min (as_number timeout) (Num 600000) in
    let resourceId := trim (as_string resource) in
    let grant (locks : Locks) :=
      ({| acquired := true; lockId := Some (random_hex sys); error := None |},
       <[resourceId := LockData.mk (random_hex sys) (now_grant sys) safeTimeout]>
         locks) in
    match locks !! resourceId with
    | Some existingLock =>
        let elapsedTime := now_check sys - LockData.timestamp existingLock in
        if num_geb (Num elapsedTime) (LockData.timeout existingLock) then
          grant (delete resourceId locks)
        else
          ({| acquired := false; lockId := None;
              error := Some (busy_message
                (num_sub (LockData.timeout existingLock) (Num elapsedTime))) |},
           locks)
    | None => grant locks
    end.

(** [{ released, error }] *)
Record ReleaseResult : Type := {
  released : bool;
  release_error : option string
}.

Definition releaseLock (resource : JsValue) (locks : Locks)
    : ReleaseResult * Locks :=
  if negb (truthy resource) || negb (String.eqb (typeof resource) "string") then
    ({| released := false;
        release_error := Some "Identificador de recurso inválido" |}, locks)
  else
    let resourceId := trim (as_string resource) in
    match locks !! resourceId with
    | None =>
        ({| released := false;
            release_error := Some "Lock não existe para este recurso" |}, locks)
    | Some _ =>
        ({| released := true; release_error := None |}, delete resourceId locks)
    end.

(** [lockInfo] of [isLocked] *)
Record LockInfo : Type := {
  info_lockId : string;
  elapsedTime : Z;
  remainingTime : number;
  totalTimeout : number
}.

(** [{ locked, lockInfo }] is [Some info] when locked, [None] when not. *)
Definition isLocked (now : Z) (resource : JsValue) (locks : Locks)
    : option LockInfo * Locks :=
  if negb (truthy resource) || negb (String.eqb (typeof resource) "string") then
    (None, locks)
  else
    let resourceId := trim (as_string resource) in
    match locks !! resourceId with
    | None => (None, locks)
    | Some lockData =>
        let elapsed := now - LockData.timestamp lockData in
        let remaining := num_sub (LockData.timeout lockData) (Num elapsed) in
        if num_leb remaining (Num 0) then (None, delete resourceId locks)
        else (Some {| info_lockId := LockData.lockId lockData;
                      elapsedTime := elapsed;
                      remainingTime := remaining;
                      totalTimeout := LockData.timeout lockData |}, locks)
    end.

(** One firing of the [setInterval] callback of [startStaleCheckInterval]. *)
Definition is_stale (now : Z) (lockData : LockData.t) : bool :=
  num_ltb (num_add (Num (LockData.timestamp lockData)) (LockData.timeout lockData))
          (Num now).

Definition staleCheck (now : Z) (locks : Locks) : Locks :=
  filter (fun entry => is_stale now (snd entry) = false) locks.

(** Vocabulary for the statements: the arguments the two validation guards
    of [acquireLock] let through, and the timeout a call asks for. *)
Definition resource_accepted (resource : JsValue) : Prop :=
  exists s, resource = JString s /\ s <> "".

Definition timeout_accepted (timeout_arg : JsValue) : Prop :=
  timeout_arg = JUndefined \/
  exists n, timeout_arg = JNumber n /\ num_leb n (Num 0) = false.

Definition requested_timeout (timeout_arg : JsValue) : number :=
  match timeout_arg with
  | JUndefined => Num DEFAULT_LOCK_TIMEOUT
  | given => as_number given
  end.

Definition timeout_message : string :=
  "Timeout deve ser um número positivo em milissegundos".


(** The entry a granted call stores. *)
Definition granted_entry (sys : Sys) (timeout_arg : JsValue) : LockData.t :=
  LockData.mk (random_hex sys) (now_grant sys)
              (Math_min (requested_timeout timeout_arg) (Num 600000)).


Definition granted_after_expiry_as_stated : Prop :=
  forall (sys1 sys2 : Sys) (R : JsValue) (T : number) (T' : JsValue)
         (locks locks1 locks2 : Locks) (r1 r2 : AcquireResult),
    num_ltb (Num 0) T = true ->
    acquireLock sys1 R (JNumber T) locks = (r1, locks1) ->
    acquired r1 = true ->
    num_leb T (Num (now_check sys2 - now_grant sys1)) = true ->
    acquireLock sys2 R T' locks1 = (r2, locks2) ->
    acquired r2 = true /\ lockId r2 = Some (random_hex sys2) /\ error r2 = None.

(** An entry of [resources] of [getLockStats] *)
Record ResourceStat : Type := {
  stat_resource : string;
  stat_elapsedTime : Z;
  stat_remainingTime : number;
  stat_timeout : number
}.

(** [{ totalLocks, resources }] *)
Record LockStats : Type := {
  totalLocks : nat;
  resources : list ResourceStat
}.

(** [getLockStats()]. The [Map] is walked in insertion order; the listing
    here follows the order of the keys. *)
Definition getLockStats (now : Z) (locks : Locks) : LockStats :=
  {| totalLocks := size locks;
     resources :=
       map (fun entry : string * LockData.t =>
              let '(resourceId, lockData) := entry in
              let elapsedTime := now - LockData.timestamp lockData in
              {| stat_resource := resourceId;
                 stat_elapsedTime := elapsedTime;
                 stat_remainingTime :=
                   Math_max (Num 0)
                            (num_sub (LockData.timeout lockData) (Num elapsedTime));
                 stat_timeout := LockData.timeout lockData |})
           (map_to_list locks) |}.

(** [clearAllLocks()] returns how many entries there were. *)
Definition clearAllLocks (locks : Locks) : nat * Locks := (size locks, ∅).

(** The calls that act on the lock table, the firing of the stale check
    among them. *)
Inductive Call : Type :=
| CallAcquire (sys : Sys) (resource timeout_arg : JsValue)
| CallRelease (resource : JsValue)
| CallIsLocked (now : Z) (resource : JsValue)
| CallStaleCheck (now : Z)
| CallClearAll.

Definition run_call (c : Call) (locks : Locks) : Locks :=
  match c with
  | CallAcquire sys resource timeout_arg =>
      snd (acquireLock sys resource timeout_arg locks)
  | CallRelease resource => snd (releaseLock resource locks)
  | CallIsLocked now resource => snd (isLocked now resource locks)
  | CallStaleCheck now => staleCheck now locks
  | CallClearAll => snd (clearAllLocks locks)
  end.

Definition run_calls (calls : list Call) (locks : Locks) : Locks :=
  fold_left (fun locks c => run_call c locks) calls locks.

(** The resource argument addresses the entry stored under [key]. *)
Definition addresses (key : string) (resource : JsValue) : bool :=
  match resource with
  | JString s => negb (String.eqb s "") && String.eqb (trim s) key
  | _ => false
  end.

(** A call that cannot end the lock held under [key] before [deadline]: it
    is not a release of that resource nor [clearAllLocks], and if it reads
    the clock for that resource it reads a time before the deadline. *)
Definition within_window (key : string) (deadline : Z) (c : Call) : Prop :=
  match c with
  | CallAcquire sys resource _ =>
      addresses key resource = true -> now_check sys < deadline
  | CallRelease resource => addresses key resource = false
  | CallIsLocked now resource => addresses key resource = true -> now < deadline
  | CallStaleCheck now => now <= deadline
  | CallClearAll => False
  end.

(** A stored timeout is [NaN] or a positive number of at most ten
    minutes. *)
Definition timeout_capped (timeout : number) : Prop :=
  timeout = NaN \/ exists ms, timeout = Num ms /\ 0 < ms <= 600000.

End LockManager.

(** ** lib/transaction-log.js *)

(** *** Objects on a heap, and JSON

    [beginTransaction] is handed a reference to an object the caller keeps
    and may change later, and it hands back a reference to the backup it
    stores. The payloads of the transaction log therefore live on a heap:
    a value is a primitive or a reference to a cell, and a cell is an
    object, an array or a function. *)

Module Heap.
Import JS.

Definition loc : Type := nat.

Inductive Value : Type :=
| VUndefined
| VNull
| VBool (b : bool)
| VNumber (n : number)
| VString (s : string)
| VRef (l : loc).

(** An object lists its own enumerable string-keyed properties in property
    order. *)
Inductive Cell : Type :=
| CObject (fields : list (string * Value))
| CArray (items : list Value)
| CFunction (name : string).

Abbreviation Store := (gmap loc Cell).

(** [typeof v] *)
Definition typeof (h : Store) (v : Value) : string :=
  match v with
  | VUndefined => "undefined"
  | VNull => "object"
  | VBool _ => "boolean"
  | VNumber _ => "number"
  | VString _ => "string"
  | VRef l =>
      match h !! l with
      | Some (CFunction _) => "function"
      | _ => "object"
      end
  end.

(** [ToBoolean] *)
Definition truthy (v : Value) : bool :=
  match v with
  | VUndefined | VNull => false
  | VBool b => b
  | VNumber n => num_truthy n
  | VString s => negb (String.eqb s "")
  | VRef _ => true
  end.

(** [v.key] for a value that is not [null] or [undefined]. *)
Fixpoint assoc (key : string) (fields : list (string * Value)) : Value :=
  match fields with
  | [] => VUndefined
  | (k, v) :: rest => if String.eqb k key then v else assoc key rest
  end.

Definition get (h : Store) (v : Value) (key : string) : Value :=
  match v with
  | VRef l =>
      match h !! l with
      | Some (CObject fields) => assoc key fields
      | _ => VUndefined
      end
  | _ => VUndefined
  end.

(** The syntax tree of a JSON text. [JSON.stringify] is modelled as building
    the tree and [JSON.parse] as reading it: printing a tree and parsing the
    print gives the tree back. *)
Inductive Json : Type :=
| JsonNull
| JsonBool (b : bool)
| JsonNumber (z : Z)
| JsonString (s : string)
| JsonArray (items : list Json)
| JsonObject (members : list (string * Json)).

(** Why [JSON.stringify] does not return. [Circular] is the TypeError
    "Converting circular structure to JSON". [Dangling] is a reference to no
    cell, which no program can hold, and [Exhausted] is the traversal
    running out of its budget, which never happens: see
    [JSON_stringify_within_budget]. *)
Inductive Failure : Type :=
| Circular
| Dangling
| Exhausted.

Inductive Result (A : Type) : Type :=
| Ok (a : A)
| Err (e : Failure).

Arguments Ok {A} a.
Arguments Err {A} e.

(** The members of an object: a property whose value serializes to
    [undefined] is left out. *)
Fixpoint serialize_members (ser : Value -> Result (option Json))
    (fields : list (string * Value)) : Result (list (string * Json)) :=
  match fields with
  | [] => Ok []
  | (k, v) :: rest =>
      match ser v with
      | Err e => Err e
      | Ok element =>
          match serialize_members ser rest with
          | Err e => Err e
          | Ok members =>
              Ok match element with
                 | Some j => (k, j) :: members
                 | None => members
                 end
          end
      end
  end.

(** The elements of an array: an element that serializes to [undefined] is
    written as [null]. *)
Fixpoint serialize_elements (ser : Value -> Result (option Json))
    (items : list Value) : Result (list Json) :=
  match items with
  | [] => Ok []
  | v :: rest =>
      match ser v with
      | Err e => Err e
      | Ok element =>
          match serialize_elements ser rest with
          | Err e => Err e
          | Ok elements => Ok (default JsonNull element :: elements)
          end
      end
  end.

(** SerializeJSONProperty: [None] is the result [undefined]. [stack] holds
    the objects and arrays being serialized around the value; meeting one of
    them again is the circular structure error. Each level of nesting takes
    one unit of [fuel]. *)
Fixpoint serialize (fuel : nat) (h : Store) (stack : list loc) (v : Value)
    : Result (option Json) :=
  match v with
  | VUndefined => Ok None
  | VNull => Ok (Some JsonNull)
  | VBool b => Ok (Some (JsonBool b))
  | VNumber (Num z) => Ok (Some (JsonNumber z))
  | VNumber _ => Ok (Some JsonNull)
  | VString s => Ok (Some (JsonString s))
  | VRef l =>
      match h !! l with
      | None => Err Dangling
      | Some (CFunction _) => Ok None
      | Some cell =>
          if bool_decide (l ∈ stack) then Err Circular
          else
            match fuel with
            | O => Err Exhausted
            | S fuel' =>
                let ser := serialize fuel' h (l :: stack) in
                match cell with
                | CObject fields =>
                    match serialize_members ser fields with
                    | Ok members => Ok (Some (JsonObject members))
                    | Err e => Err e
                    end
                | CArray items =>
                    match serialize_elements ser items with
                    | Ok elements => Ok (Some (JsonArray elements))
                    | Err e => Err e
                    end
                | CFunction _ => Ok None
                end
            end
      end
  end.

(** [JSON.stringify(v)]. The objects being serialized around a value are
    distinct cells of the store, so one unit of fuel per cell, and one more,
    is a budget the traversal never uses up. *)
Definition JSON_stringify (h : Store) (v : Value) : Result (option Json) :=
  serialize (S (size h)) h [] v.

(** [JSON.parse(text)]: every array and object of the text becomes a new
    cell. *)
Fixpoint JSON_parse (j : Json) (h : Store) : Value * Store :=
  match j with
  | JsonNull => (VNull, h)
  | JsonBool b => (VBool b, h)
  | JsonNumber z => (VNumber (Num z), h)
  | JsonString s => (VString s, h)
  | JsonArray items =>
      let '(values, h1) :=
        (fix elements (js : list Json) (h : Store) : list Value * Store :=
           match js with
           | [] => ([], h)
           | j :: rest =>
               let '(v, h1) := JSON_parse j h in
               let '(vs, h2) := elements rest h1 in
               (v :: vs, h2)
           end) items h in
      let l := fresh (dom h1) in
      (VRef l, <[l := CArray values]> h1)
  | JsonObject members =>
      let '(fields, h1) :=
        (fix properties (ms : list (string * Json)) (h : Store)
           : list (string * Value) * Store :=
           match ms with
           | [] => ([], h)
           | (k, j) :: rest =>
               let '(v, h1) := JSON_parse j h in
               let '(fs, h2) := properties rest h1 in
               ((k, v) :: fs, h2)
           end) members h in
      let l := fresh (dom h1) in
      (VRef l, <[l := CObject fields]> h1)
  end.

(** Vocabulary for the statements.

    [denotes L h t v]: in store [h] the value [v] unfolds to the finite tree
    [t], and every cell met on the way lies in [L]. A value has such a tree
    exactly when no reference cycle is reachable from it, and two values are
    deep-equal when they unfold to the same tree. *)
Fixpoint denotes (L : gset loc) (h : Store) (t : JsValue) (v : Value) {struct t}
    : Prop :=
  match t with
  | JUndefined => v = VUndefined
  | JNull => v = VNull
  | JBool b => v = VBool b
  | JNumber n => v = VNumber n
  | JString s => v = VString s
  | JFunction name =>
      exists l, v = VRef l /\ l ∈ L /\ h !! l = Some (CFunction name)
  | JArray items =>
      exists l vs, v = VRef l /\ l ∈ L /\ h !! l = Some (CArray vs) /\
        (fix all2 (ts : list JsValue) (vs : list Value) : Prop :=
           match ts, vs with
           | [], [] => True
           | t :: ts, v :: vs => denotes L h t v /\ all2 ts vs
           | _, _ => False
           end) items vs
  | JObject fields =>
      exists l fs, v = VRef l /\ l ∈ L /\ h !! l = Some (CObject fs) /\
        (fix all2 (ts : list (string * JsValue)) (fs : list (string * Value)) : Prop :=
           match ts, fs with
           | [], [] => True
           | (k, t) :: ts, (k', v) :: fs => k = k' /\ denotes L h t v /\ all2 ts fs
           | _, _ => False
           end) fields fs
  end.

(** What [JSON.stringify] makes of a tree: [undefined] and functions vanish
    from objects and become [null] in arrays, [NaN] and the infinities
    become [null]. *)
Fixpoint stringify_tree (t : JsValue) : option Json :=
  match t with
  | JUndefined | JFunction _ => None
  | JNull => Some JsonNull
  | JBool b => Some (JsonBool b)
  | JNumber (Num z) => Some (JsonNumber z)
  | JNumber _ => Some JsonNull
  | JString s => Some (JsonString s)
  | JArray items =>
      Some (JsonArray
        ((fix elements (ts : list JsValue) : list Json :=
            match ts with
            | [] => []
            | t :: ts => default JsonNull (stringify_tree t) :: elements ts
            end) items))
  | JObject fields =>
      Some (JsonObject
        ((fix members (ts : list (string * JsValue)) : list (string * Json) :=
            match ts with
            | [] => []
            | (k, t) :: ts =>
                match stringify_tree t with
                | Some j => (k, j) :: members ts
                | None => members ts
                end
            end) fields))
  end.

(** The tree a JSON text stands for. *)
Fixpoint tree_of_json (j : Json) : JsValue :=
  match j with
  | JsonNull => JNull
  | JsonBool b => JBool b
  | JsonNumber z => JNumber (Num z)
  | JsonString s => JString s
  | JsonArray items => JArray (map tree_of_json items)
  | JsonObject members =>
      JObject (map (fun m : string * Json => (fst m, tree_of_json (snd m))) members)
  end.

(** The trees JSON can express: [null], booleans, finite numbers, strings,
    and arrays and objects of such. *)
Fixpoint json_plain (t : JsValue) : bool :=
  match t with
  | JNull | JBool _ | JString _ => true
  | JNumber (Num _) => true
  | JNumber _ => false
  | JUndefined | JFunction _ => false
  | JArray items => forallb json_plain items
  | JObject fields =>
      forallb (fun f : string * JsValue => json_plain (snd f)) fields
  end.

(** Reference cycles: [refers h l l'] when the cell at [l] holds a reference
    to [l'] as a property value or an element; a value has a cycle when it
    reaches a cell that reaches itself. *)
Definition cell_values (c : Cell) : list Value :=
  match c with
  | CObject fields => map snd fields
  | CArray items => items
  | CFunction _ => []
  end.

Definition refers (h : Store) (l l' : loc) : Prop :=
  exists c, h !! l = Some c /\ VRef l' ∈ cell_values c.

Definition has_cycle (h : Store) (v : Value) : Prop :=
  exists l0 l, v = VRef l0 /\ rtc (refers h) l0 l /\ tc (refers h) l l.

(** The number of nodes of a tree. *)
Fixpoint tree_size (t : JsValue) : nat :=
  match t with
  | JArray items =>
      S ((fix total (ts : list JsValue) : nat :=
            match ts with
            | [] => O
            | t :: ts => (tree_size t + total ts)%nat
            end) items)
  | JObject fields =>
      S ((fix total (ts : list (string * JsValue)) : nat :=
            match ts with
            | [] => O
            | (_, t) :: ts => (tree_size t + total ts)%nat
            end) fields)
  | _ => 1%nat
  end.

(** Objects and arrays: what [typeof] calls an object and is not [null]. *)
Definition is_structure (t : JsValue) : bool :=
  match t with
  | JArray _ | JObject _ => true
  | _ => false
  end.

(** The two list clauses of [denotes], as [Forall2]. *)
Definition property_denotes (L : gset loc) (h : Store)
    (f : string * JsValue) (g : string * Value) : Prop :=
  fst f = fst g /\ denotes L h (snd f) (snd g).

(** The objects around the value being serialized: distinct cells, each
    with a tree strictly larger than the one at hand. *)
Definition enclosing (L : gset loc) (h : Store) (stack : list loc) (t : JsValue)
    : Prop :=
  NoDup stack /\
  forall l, l ∈ stack ->
    l ∈ dom h /\ exists t', denotes L h t' (VRef l) /\ (tree_size t < tree_size t')%nat.

(** [stringify_tree] on arrays and objects, with the list functions. *)
Definition stringify_element (t : JsValue) : Json :=
  default JsonNull (stringify_tree t).

Definition stringify_member (f : string * JsValue) : option (string * Json) :=
  match stringify_tree (snd f) with
  | Some j => Some (fst f, j)
  | None => None
  end.

(** The two list traversals of [JSON_parse]. *)
Fixpoint parse_elements (js : list Json) (h : Store) : list Value * Store :=
  match js with
  | [] => ([], h)
  | j :: rest =>
      let '(v, h1) := JSON_parse j h in
      let '(vs, h2) := parse_elements rest h1 in
      (v :: vs, h2)
  end.

Fixpoint parse_members (ms : list (string * Json)) (h : Store)
    : list (string * Value) * Store :=
  match ms with
  | [] => ([], h)
  | (k, j) :: rest =>
      let '(v, h1) := JSON_parse j h in
      let '(fs, h2) := parse_members rest h1 in
      ((k, v) :: fs, h2)
  end.

(** [built h h' t v]: going from [h] to [h'] only added cells, and [v] unfolds
    to [t] inside the added cells. *)
Definition built (h h' : Store) (t : JsValue) (v : Value) : Prop :=
  h ⊆ h' /\ denotes (dom h' ∖ dom h) h' t v.

End Heap.

Module TransactionLog.
Import JS Heap.

(** [TRANSACTION_STATES] *)
Inductive TransactionState : Type :=
| PENDING
| COMMITTED
| ROLLED_BACK.

Definition state_name (st : TransactionState) : string :=
  match st with
  | PENDING => "pending"
  | COMMITTED => "committed"
  | ROLLED_BACK => "rolled_back"
  end.

Definition is_pending (st : TransactionState) : bool :=
  match st with PENDING => true | _ => false end.

Definition state_eqb (a b : TransactionState) : bool :=
  match a, b with
  | PENDING, PENDING | COMMITTED, COMMITTED | ROLLED_BACK, ROLLED_BACK => true
  | _, _ => false
  end.

(** The record kept per transaction:
    [{ operationData, backup, status, timestamp, completedAt }]. *)
Record Transaction : Type := {
  operationData : Value;
  backup : Value;
  status : TransactionState;
  timestamp : Z;
  completedAt : option Z
}.

(** The store of objects, shared with the callers, and
    [const transactions = new Map()]. *)
Record World : Type := {
  heap : Store;
  transactions : gmap string Transaction
}.

(** [{ transactionId, status, backup }] of [beginTransaction] *)
Record BeginResult : Type := {
  begin_transactionId : string;
  begin_status : TransactionState;
  begin_backup : Value
}.

Definition invalid_data_message : string := "Dados da operação inválidos".
Definition backup_failed_message : string :=
  "Não foi possível fazer backup dos dados".
Definition circular_message : string :=
  "TypeError: Converting circular structure to JSON".

(** [beginTransaction(operationData)]; [generated] is the value of
    [generateTransactionId()]. The first [JSON.parse(JSON.stringify(..))]
    sits in a [try] whose handler raises the backup error; the second one,
    inside the record literal, does not. *)
Definition beginTransaction (now : Z) (generated : string) (operationData : Value)
    (w : World) : Outcome BeginResult * World :=
  if negb (truthy operationData)
     || negb (String.eqb (typeof (heap w) operationData) "object") then
    (Thrown invalid_data_message, w)
  else
    match JSON_stringify (heap w) operationData with
    | Ok (Some text) =>
        let '(backup, h1) := JSON_parse text (heap w) in
        match JSON_stringify h1 operationData with
        | Ok (Some text') =>
            let '(copy, h2) := JSON_parse text' h1 in
            (Returned {| begin_transactionId := generated;
                         begin_status := PENDING;
                         begin_backup := backup |},
             {| heap := h2;
                transactions :=
                  <[generated := {| operationData := copy;
                                    backup := backup;
                                    status := PENDING;
                                    timestamp := now;
                                    completedAt := None |}]> (transactions w) |})
        | _ =>
            (Thrown circular_message, {| heap := h1; transactions := transactions w |})
        end
    | _ => (Thrown backup_failed_message, w)
    end.

(** [{ status, error }] of [commitTransaction] *)
Record CommitResult : Type := {
  commit_status : option TransactionState;
  commit_error : option string
}.

Definition invalid_id_message : string := "ID de transação inválido".
Definition not_found_message : string := "Transação não encontrada".

Definition commit_conflict_message (st : TransactionState) : string :=
  "Transação não está em estado pendente (status: " +:+ state_name st +:+ ")".

Definition rollback_conflict_message (st : TransactionState) : string :=
  "Rollback não é possível para transação em estado: " +:+ state_name st.

Definition finish (st : TransactionState) (now : Z) (txn : Transaction) : Transaction :=
  {| operationData := operationData txn;
     backup := backup txn;
     status := st;
     timestamp := timestamp txn;
     completedAt := Some now |}.

Definition commitTransaction (now : Z) (transactionId : JsValue) (w : World)
    : CommitResult * World :=
  if negb (JS.truthy transactionId)
     || negb (String.eqb (JS.typeof transactionId) "string") then
    ({| commit_status := None; commit_error := Some invalid_id_message |}, w)
  else
    let txnId := trim (as_string transactionId) in
    match transactions w !! txnId with
    | None =>
        ({| commit_status := None; commit_error := Some not_found_message |}, w)
    | Some txn =>
        if negb (is_pending (status txn)) then
          ({| commit_status := None;
              commit_error := Some (commit_conflict_message (status txn)) |}, w)
        else
          ({| commit_status := Some COMMITTED; commit_error := None |},
           {| heap := heap w;
              transactions := <[txnId := finish COMMITTED now txn]> (transactions w) |})
    end.

(** [{ status, backup, error }] of [rollbackTransaction] *)
Record RollbackResult : Type := {
  rollback_status : option TransactionState;
  rollback_backup : option Value;
  rollback_error : option string
}.

Definition rollback_failure (message : string) : RollbackResult :=
  {| rollback_status := None; rollback_backup := None;
     rollback_error := Some message |}.

(** [rollbackTransaction(transactionId)]. The copy of the stored backup is
    taken outside any [try], before the state is changed. *)
Definition rollbackTransaction (now : Z) (transactionId : JsValue) (w : World)
    : Outcome RollbackResult * World :=
  if negb (JS.truthy transactionId)
     || negb (String.eqb (JS.typeof transactionId) "string") then
    (Returned (rollback_failure invalid_id_message), w)
  else
    let txnId := trim (as_string transactionId) in
    match transactions w !! txnId with
    | None => (Returned (rollback_failure not_found_message), w)
    | Some txn =>
        if negb (is_pending (status txn)) then
          (Returned (rollback_failure (rollback_conflict_message (status txn))), w)
        else
          match JSON_stringify (heap w) (backup txn) with
          | Ok (Some text) =>
              let '(copy, h1) := JSON_parse text (heap w) in
              (Returned {| rollback_status := Some ROLLED_BACK;
                           rollback_backup := Some copy;
                           rollback_error := None |},
               {| heap := h1;
                  transactions :=
                    <[txnId := finish ROLLED_BACK now txn]> (transactions w) |})
          | Ok None => (Thrown "SyntaxError: undefined is not valid JSON", w)
          | Err _ => (Thrown circular_message, w)
          end
    end.

(** [txn.operationData.type || 'unknown'] *)
Definition operationType (h : Store) (txn : Transaction) : Value :=
  let t := get h (operationData txn) "type" in
  if truthy t then t else VString "unknown".

(** [data] of [getTransactionStatus] *)
Record StatusData : Type := {
  data_transactionId : string;
  data_status : TransactionState;
  data_operationType : Value;
  data_startedAt : Z;
  data_completedAt : option Z;
  data_duration : option Z;
  data_hasBackup : bool
}.

(** [{ status, data, error }]: the data when found, the error when not. *)
Definition getTransactionStatus (transactionId : JsValue) (w : World)
    : StatusData + string :=
  if negb (JS.truthy transactionId)
     || negb (String.eqb (JS.typeof transactionId) "string") then
    inr invalid_id_message
  else
    let txnId := trim (as_string transactionId) in
    match transactions w !! txnId with
    | None => inr not_found_message
    | Some txn =>
        inl {| data_transactionId := txnId;
               data_status := status txn;
               data_operationType := operationType (heap w) txn;
               data_startedAt := timestamp txn;
               data_completedAt := completedAt txn;
               (* txn.completedAt ? txn.completedAt - txn.timestamp : null *)
               data_duration :=
                 match completedAt txn with
                 | Some done => if done =? 0 then None else Some (done - timestamp txn)
                 | None => None
                 end;
               data_hasBackup := truthy (backup txn) |}
    end.

(** An entry of [getActiveTransactions()] *)
Record ActiveTransaction : Type := {
  active_transactionId : string;
  active_operationType : Value;
  active_startedAt : Z;
  active_duration : Z
}.

(** [getActiveTransactions()]: the pending entries. The [Map] is walked in
    insertion order; the listing here follows the order of the keys. *)
Definition getActiveTransactions (now : Z) (w : World) : list ActiveTransaction :=
  omap (fun entry : string * Transaction =>
          let '(txnId, txn) := entry in
          if is_pending (status txn) then
            Some {| active_transactionId := txnId;
                    active_operationType := operationType (heap w) txn;
                    active_startedAt := timestamp txn;
                    active_duration := now - timestamp txn |}
          else None)
       (map_to_list (transactions w)).

(** [{ total, pending, committed, rolledBack }] *)
Record Stats : Type := {
  total : nat;
  pending : nat;
  committed : nat;
  rolledBack : nat
}.

Definition count_state (st : TransactionState) (w : World) : nat :=
  size (filter (fun entry : string * Transaction =>
                  state_eqb (status (snd entry)) st = true)
               (transactions w)).

Definition getTransactionStats (w : World) : Stats :=
  {| total := size (transactions w);
     pending := count_state PENDING w;
     committed := count_state COMMITTED w;
     rolledBack := count_state ROLLED_BACK w |}.

(** [cleanupOldTransactions(maxAgeHours = 24)]: the finished entries older
    than the threshold go; returns how many went. *)
Definition expired (now maxAgeHours : Z) (txn : Transaction) : bool :=
  negb (is_pending (status txn))
  && (maxAgeHours * 60 * 60 * 1000 <? now - default 0 (completedAt txn)).

Definition cleanupOldTransactions (now maxAgeHours : Z) (w : World) : nat * World :=
  let kept :=
    filter (fun entry : string * Transaction => expired now maxAgeHours (snd entry) = false)
           (transactions w) in
  ((size (transactions w) - size kept)%nat,
   {| heap := heap w; transactions := kept |}).

(** Vocabulary for the statements: the calls that act on the records. *)
Inductive Call : Type :=
| CallBegin (now : Z) (generated : string) (operationData : Value)
| CallCommit (now : Z) (transactionId : JsValue)
| CallRollback (now : Z) (transactionId : JsValue).

Definition run_call (c : Call) (w : World) : World :=
  match c with
  | CallBegin now generated operationData =>
      snd (beginTransaction now generated operationData w)
  | CallCommit now transactionId => snd (commitTransaction now transactionId w)
  | CallRollback now transactionId => snd (rollbackTransaction now transactionId w)
  end.

Definition run_calls (calls : list Call) (w : World) : World :=
  fold_left (fun w c => run_call c w) calls w.

(** The identifier argument addresses the record stored under [id]. *)
Definition addresses (id : string) (transactionId : JsValue) : bool :=
  match transactionId with
  | JString s => negb (String.eqb s "") && String.eqb (trim s) id
  | _ => false
  end.




(** The payload of the repository's own deep-copy test,
    [{ type: 'update', value: 100, nested: { prop: 'test' } }]. *)
Definition sample_world : World :=
  {| heap := {[ 0%nat := CObject [("type", VString "update");
                                  ("value", VNumber (Num 100));
                                  ("nested", VRef 1%nat)];
                1%nat := CObject [("prop", VString "test")] ]};
     transactions := ∅ |}.

Definition sample_tree : JsValue :=
  JObject [("type", JString "update"); ("value", JNumber (Num 100));
           ("nested", JObject [("prop", JString "test")])].

(** A payload that refers to itself, [data.self = data]. *)
Definition circular_world : World :=
  {| heap := {[ 0%nat := CObject [("type", VString "test"); ("self", VRef 0%nat)] ]};
     transactions := ∅ |}.

(** The rollback property as the specification words it: every payload
    without reference cycles, that is, every object or array that has a
    tree. *)
Definition rollback_deep_equal_as_stated : Prop :=
  forall (now now' : Z) (id : string) (P : Value) (t : JsValue) (w : World),
    denotes (dom (heap w)) (heap w) t P ->
    is_structure t = true ->
    id <> "" -> trim id = id ->
    exists (r : BeginResult) (w1 : World) (b : Value) (w2 : World),
      beginTransaction now id P w = (Returned r, w1) /\
      rollbackTransaction now' (JString (begin_transactionId r)) w1 =
        (Returned {| rollback_status := Some ROLLED_BACK;
                     rollback_backup := Some b;
                     rollback_error := None |}, w2) /\
      denotes (dom (heap w2)) (heap w2) t b.

(** [clearAllTransactions()] returns how many records there were. *)
Definition clearAllTransactions (w : World) : nat * World :=
  (size (transactions w), {| heap := heap w; transactions := ∅ |}).

End TransactionLog.

(** ** lib/nsec3-async-handler.js *)

Module Nsec3.
Import JS.

Definition BASE_TIMEOUT_MS : Z := 60000.
Definition DOMAIN_TIMEOUT_MS : Z := 30000.
Definition MAX_TIMEOUT_MS : Z := 600000.

(** [OPERATION_STATES] *)
Inductive OperationState : Type :=
| QUEUED
| IN_PROGRESS
| COMPLETED
| FAILED
| CANCELLED.

Definition state_eqb (a b : OperationState) : bool :=
  match a, b with
  | QUEUED, QUEUED | IN_PROGRESS, IN_PROGRESS | COMPLETED, COMPLETED
  | FAILED, FAILED | CANCELLED, CANCELLED => true
  | _, _ => false
  end.

(** The record kept per operation. *)
Record Operation : Type := {
  operationId : string;
  type : string;
  domains : list JsValue;
  status : OperationState;
  progress : number;
  result : JsValue;
  error : JsValue;
  timeout : Z;
  startedAt : Z;
  completedAt : option Z;
  totalSteps : Z;
  completedSteps : number
}.

(** What an observer is called with: [{ operationId, progress, status }]. *)
Record ProgressEvent : Type := {
  event_operationId : string;
  event_progress : number;
  event_status : OperationState
}.

(** The module state: [operations], [progressCallbacks], and the calls made
    to observers so far, oldest first. An observer is called inside
    [try]/[catch], so what it raises never reaches the caller; observers are
    taken not to call back into this module. *)
Record Tracker : Type := {
  operations : gmap string Operation;
  progressCallbacks : gmap string (list JsValue);
  delivered : list (JsValue * ProgressEvent)
}.

(** [d && typeof d === 'string' && d.length > 0] *)
Definition valid_domain (d : JsValue) : bool :=
  truthy d && String.eqb (typeof d) "string"
    && (0 <? Z.of_nat (String.length (as_string d))).

Definition calculateNsec3Timeout (domains : JsValue) : Z :=
  match domains with
  | JArray items =>
      let validDomains := List.filter valid_domain items in
      let domainCount := Z.of_nat (List.length validDomains) in
      let calculatedTimeout := BASE_TIMEOUT_MS + DOMAIN_TIMEOUT_MS * domainCount in
      Z.min calculatedTimeout MAX_TIMEOUT_MS
  | _ => BASE_TIMEOUT_MS
  end.

(** [{ operationId, status, timeout, error }] of [startAsyncOperation] *)
Record StartResult : Type := {
  start_operationId : option string;
  start_status : option OperationState;
  start_timeout : option Z;
  start_error : option string
}.

(** [startAsyncOperation(operationId = null, type, domains)]. The identifier
    is a string or absent, as documented; [generated] is the value of
    [generateOperationId()] when it is needed. *)
Definition startAsyncOperation (now : Z) (generated : string)
    (operationId : option string) (type_arg domains_arg : JsValue)
    (t : Tracker) : StartResult * Tracker :=
  if negb (truthy type_arg) || negb (String.eqb (typeof type_arg) "string") then
    ({| start_operationId := None; start_status := None; start_timeout := None;
        start_error := Some "Tipo de operação inválido" |}, t)
  else
    match domains_arg with
    | JArray (first :: others) =>
        let items := first :: others in
        let finalOperationId :=
          match operationId with
          | Some given => if String.eqb given "" then generated else given
          | None => generated
          end in
        match operations t !! finalOperationId with
        | Some _ =>
            ({| start_operationId := Some finalOperationId; start_status := None;
                start_timeout := None;
                start_error := Some "Operação com esse ID já existe" |}, t)
        | None =>
            let timeout := calculateNsec3Timeout domains_arg in
            let operation :=
              {| operationId := finalOperationId;
                 type := toLowerCase (as_string type_arg);
                 domains := items;
                 status := QUEUED;
                 progress := Num 0;
                 result := JNull;
                 error := JNull;
                 timeout := timeout;
                 startedAt := now;
                 completedAt := None;
                 totalSteps := Z.of_nat (List.length items);
                 completedSteps := Num 0 |} in
            ({| start_operationId := Some finalOperationId;
                start_status := Some QUEUED;
                start_timeout := Some timeout;
                start_error := None |},
             {| operations := <[finalOperationId := operation]> (operations t);
                progressCallbacks := progressCallbacks t;
                delivered := delivered t |})
        end
    | _ =>
        ({| start_operationId := None; start_status := None; start_timeout := None;
            start_error := Some "Lista de domínios inválida ou vazia" |}, t)
    end.

(** Field updates of an operation record. *)
Definition set_progress (p : number) (op : Operation) : Operation :=
  {| operationId := operationId op; type := type op; domains := domains op;
     status := status op; progress := p; result := result op;
     error := error op; timeout := timeout op; startedAt := startedAt op;
     completedAt := completedAt op; totalSteps := totalSteps op;
     completedSteps := completedSteps op |}.

Definition set_completedSteps (n : number) (op : Operation) : Operation :=
  {| operationId := operationId op; type := type op; domains := domains op;
     status := status op; progress := progress op; result := result op;
     error := error op; timeout := timeout op; startedAt := startedAt op;
     completedAt := completedAt op; totalSteps := totalSteps op;
     completedSteps := n |}.

Definition set_status (st : OperationState) (op : Operation) : Operation :=
  {| operationId := operationId op; type := type op; domains := domains op;
     status := st; progress := progress op; result := result op;
     error := error op; timeout := timeout op; startedAt := startedAt op;
     completedAt := completedAt op; totalSteps := totalSteps op;
     completedSteps := completedSteps op |}.

Definition set_completed (now : Z) (res : JsValue) (op : Operation) : Operation :=
  {| operationId := operationId op; type := type op; domains := domains op;
     status := COMPLETED; progress := progress op; result := res;
     error := error op; timeout := timeout op; startedAt := startedAt op;
     completedAt := Some now; totalSteps := totalSteps op;
     completedSteps := completedSteps op |}.

Definition set_failed (now : Z) (message : JsValue) (op : Operation) : Operation :=
  {| operationId := operationId op; type := type op; domains := domains op;
     status := FAILED; progress := progress op; result := result op;
     error := message; timeout := timeout op; startedAt := startedAt op;
     completedAt := Some now; totalSteps := totalSteps op;
     completedSteps := completedSteps op |}.

Definition with_operation (opId : string) (op : Operation) (t : Tracker) : Tracker :=
  {| operations := <[opId := op]> (operations t);
     progressCallbacks := progressCallbacks t;
     delivered := delivered t |}.

(** [{ status, progress, completedSteps, totalSteps, elapsed, timeout,
      result, error }] of [getOperationStatus]; the two early returns carry
    only [status], [progress], [result] and [error]. *)
Record StatusResult : Type := {
  st_status : option OperationState;
  st_progress : number;
  st_completedSteps : option number;
  st_totalSteps : option Z;
  st_elapsed : option Z;
  st_timeout : option Z;
  st_result : JsValue;
  st_error : JsValue
}.

Definition status_failure (message : string) : StatusResult :=
  {| st_status := None; st_progress := Num 0; st_completedSteps := None;
     st_totalSteps := None; st_elapsed := None; st_timeout := None;
     st_result := JNull; st_error := JString message |}.

(** [getOperationStatus] reads the clock for the timeout test, for the
    completion stamp of a timed-out operation, and for the reported
    elapsed time. *)
Record StatusClock : Type := {
  now_test : Z;
  now_stamp : Z;
  now_report : Z
}.

Definition getOperationStatus (clock : StatusClock) (operationId_arg : JsValue)
    (t : Tracker) : StatusResult * Tracker :=
  if negb (truthy operationId_arg)
     || negb (String.eqb (typeof operationId_arg) "string") then
    (status_failure "ID de operação inválido", t)
  else
    let opId := trim (as_string operationId_arg) in
    match operations t !! opId with
    | None => (status_failure "Operação não encontrada", t)
    | Some operation =>
        let elapsed := now_test clock - startedAt operation in
        let timedOut :=
          state_eqb (status operation) IN_PROGRESS && (timeout operation <? elapsed) in
        let operation' :=
          if timedOut
          then set_failed (now_stamp clock)
                          (JString "Operação expirou (timeout)") operation
          else operation in
        ({| st_status := Some (status operation');
            st_progress := progress operation';
            st_completedSteps := Some (completedSteps operation');
            st_totalSteps := Some (totalSteps operation');
            st_elapsed := Some (now_report clock - startedAt operation');
            st_timeout := Some (timeout operation');
            st_result := result operation';
            st_error := error operation' |},
         if timedOut then with_operation opId operation' t else t)
    end.

(** [{ updated, error }] of [updateOperationProgress] and [failOperation] *)
Record UpdateResult : Type := {
  updated : bool;
  update_error : option string
}.

Definition progress_message : string :=
  "Progresso deve ser um número entre 0 e 100".

(** The observers registered for [opId], each called with the event;
    [delivered] lists the calls. An observer is taken to return, or to
    throw a value whose [message] the handler can read and log; one that
    throws [null] or [undefined] makes the handler raise, and is not
    modelled. *)
Definition notify (opId : string) (event : ProgressEvent) (t : Tracker) : Tracker :=
  match progressCallbacks t !! opId with
  | Some callbacks =>
      {| operations := operations t;
         progressCallbacks := progressCallbacks t;
         delivered :=
           (delivered t ++ map (fun callback => (callback, event)) callbacks)%list |}
  | None => t
  end.

(** The body of [updateOperationProgress] between fetching the record and
    calling the observers: the record after [operation.progress] is set,
    [completedSteps] is taken over when it is a number, a queued operation
    with positive progress is moved to [in_progress], and an operation in
    progress that reached 100 is completed. *)
Definition progressed (now : Z) (progress : number) (statusData : JsValue)
    (operation : Operation) : Operation :=
  let op1 := set_progress progress operation in
  let op2 :=
    if String.eqb (typeof (get statusData "completedSteps")) "number"
    then set_completedSteps (as_number (get statusData "completedSteps")) op1
    else op1 in
  let op3 :=
    if state_eqb (status op2) QUEUED && num_gtb progress (Num 0)
    then set_status IN_PROGRESS op2
    else op2 in
  if num_eqb progress (Num 100) && state_eqb (status op3) IN_PROGRESS
  then set_completed now
         (if truthy (get statusData "result")
          then get statusData "result" else JObject [])
         op3
  else op3.

(** [updateOperationProgress(operationId, progress, statusData = {})].
    Reading [statusData.completedSteps] raises a TypeError when
    [statusData] is [null]; by then [operation.progress] is already set. *)
Definition updateOperationProgress (now : Z)
    (operationId_arg progress_arg statusData_arg : JsValue) (t : Tracker)
    : Outcome UpdateResult * Tracker :=
  let statusData :=
    match statusData_arg with
    | JUndefined => JObject []
    | given => given
    end in
  if negb (truthy operationId_arg)
     || negb (String.eqb (typeof operationId_arg) "string") then
    (Returned {| updated := false; update_error := Some "ID de operação inválido" |}, t)
  else if negb (String.eqb (typeof progress_arg) "number")
          || num_ltb (as_number progress_arg) (Num 0)
          || num_gtb (as_number progress_arg) (Num 100) then
    (Returned {| updated := false; update_error := Some progress_message |}, t)
  else
    let progress := as_number progress_arg in
    let opId := trim (as_string operationId_arg) in
    match operations t !! opId with
    | None =>
        (Returned {| updated := false; update_error := Some "Operação não encontrada" |}, t)
    | Some operation =>
        match statusData with
        | JNull =>
            (Thrown "TypeError: Cannot read properties of null (reading 'completedSteps')",
             with_operation opId (set_progress progress operation) t)
        | _ =>
            let operation' := progressed now progress statusData operation in
            (Returned {| updated := true; update_error := None |},
             notify opId
               {| event_operationId := opId; event_progress := progress;
                  event_status := status operation' |}
               (with_operation opId operation' t))
        end
    end.

Definition failOperation (now : Z) (operationId_arg errorMessage : JsValue)
    (t : Tracker) : UpdateResult * Tracker :=
  if negb (truthy operationId_arg)
     || negb (String.eqb (typeof operationId_arg) "string") then
    ({| updated := false; update_error := Some "ID de operação inválido" |}, t)
  else
    let opId := trim (as_string operationId_arg) in
    match operations t !! opId with
    | None =>
        ({| updated := false; update_error := Some "Operação não encontrada" |}, t)
    | Some operation =>
        let message :=
          if truthy errorMessage then errorMessage
          else JString "Operação falhou sem detalhes de erro" in
        ({| updated := true; update_error := None |},
         with_operation opId (set_failed now message operation) t)
    end.

(** [onOperationProgress(operationId, callback)] returns [registered]. *)
Definition onOperationProgress (operationId_arg callback : JsValue) (t : Tracker)
    : bool * Tracker :=
  if negb (truthy operationId_arg)
     || negb (String.eqb (typeof operationId_arg) "string") then (false, t)
  else if negb (String.eqb (typeof callback) "function") then (false, t)
  else
    let opId := trim (as_string operationId_arg) in
    let registered := default [] (progressCallbacks t !! opId) in
    (true,
     {| operations := operations t;
        progressCallbacks :=
          <[opId := (registered ++ [callback])%list]> (progressCallbacks t);
        delivered := delivered t |}).

(** Vocabulary for the statements. *)
Definition nonempty_string (d : JsValue) : bool :=
  match d with
  | JString s => negb (String.eqb s "")
  | _ => false
  end.

Definition count_nonempty_strings (items : list JsValue) : Z :=
  Z.of_nat (List.length (List.filter nonempty_string items)).

Definition terminal (st : OperationState) : bool :=
  match st with
  | COMPLETED | FAILED | CANCELLED => true
  | QUEUED | IN_PROGRESS => false
  end.

(** [0 <= p <= 100] as JavaScript compares; false for [NaN]. *)
Definition in_range (p : number) : bool :=
  num_leb (Num 0) p && num_leb p (Num 100).

(** [statusData.result || {}] *)
Definition result_or_empty (statusData : JsValue) : JsValue :=
  if truthy (get statusData "result") then get statusData "result" else JObject [].

(** The calls that act on operation records. *)
Inductive Call : Type :=
| CallStart (now : Z) (generated : string) (operationId : option string)
            (type_arg domains_arg : JsValue)
| CallStatus (clock : StatusClock) (operationId_arg : JsValue)
| CallUpdate (now : Z) (operationId_arg progress_arg statusData_arg : JsValue)
| CallFail (now : Z) (operationId_arg errorMessage : JsValue)
| CallOnProgress (operationId_arg callback : JsValue).

Definition run_call (c : Call) (t : Tracker) : Tracker :=
  match c with
  | CallStart now generated operationId type_arg domains_arg =>
      snd (startAsyncOperation now generated operationId type_arg domains_arg t)
  | CallStatus clock operationId_arg =>
      snd (getOperationStatus clock operationId_arg t)
  | CallUpdate now operationId_arg progress_arg statusData_arg =>
      snd (updateOperationProgress now operationId_arg progress_arg statusData_arg t)
  | CallFail now operationId_arg errorMessage =>
      snd (failOperation now operationId_arg errorMessage t)
  | CallOnProgress operationId_arg callback =>
      snd (onOperationProgress operationId_arg callback t)
  end.

Definition run_calls (calls : list Call) (t : Tracker) : Tracker :=
  fold_left (fun t c => run_call c t) calls t.

(** [failOperation] addressed to the record stored under [opId]. *)
Definition fails_record (opId : string) (c : Call) : bool :=
  match c with
  | CallFail _ (JString s) _ => negb (String.eqb s "") && String.eqb (trim s) opId
  | _ => false
  end.

(** Sample states: a tracker holding one operation, as
    [startAsyncOperation] leaves it, after an update to 50, and after an
    update to 100. *)
Definition empty_tracker : Tracker :=
  {| operations := ∅; progressCallbacks := ∅; delivered := [] |}.

Definition one_queued : Tracker :=
  snd (startAsyncOperation 1000 "nsec3_0a1b" None (JString "recalc")
         (JArray [JString "x.com"; JString "y.com"]) empty_tracker).

Definition one_in_progress : Tracker :=
  snd (updateOperationProgress 2000 (JString "nsec3_0a1b") (JNumber (Num 50))
         (JObject [("completedSteps", JNumber (Num 1))]) one_queued).

Definition one_completed : Tracker :=
  snd (updateOperationProgress 3000 (JString "nsec3_0a1b") (JNumber (Num 100))
         (JObject [("completedSteps", JNumber (Num 2));
                   ("result", JObject [("ok", JBool true)])]) one_in_progress).

(** The progress rules as the specification words them. *)
Definition progress_rules_as_stated : Prop :=
  forall (now : Z) (s : string) (progress_arg statusData : JsValue)
         (t t' : Tracker) (op : Operation) (out : Outcome UpdateResult),
    s <> "" ->
    operations t !! trim s = Some op ->
    updateOperationProgress now (JString s) progress_arg statusData t = (out, t') ->
    (forall p, progress_arg = JNumber p ->
       status op = QUEUED -> num_gtb p (Num 0) = true -> in_range p = true ->
       exists op', operations t' !! trim s = Some op' /\ status op' = IN_PROGRESS) /\
    (progress_arg = JNumber (Num 100) -> status op = IN_PROGRESS ->
       exists op', operations t' !! trim s = Some op' /\ status op' = COMPLETED /\
                   result op' = result_or_empty statusData /\
                   completedAt op' = Some now) /\
    (typeof progress_arg <> "number" \/ in_range (as_number progress_arg) = false ->
       out = Returned {| updated := false; update_error := Some progress_message |} /\
       t' = t).

(** Terminal states as the specification words them. *)
Definition terminal_states_final_as_stated : Prop :=
  forall (calls : list Call) (t : Tracker) (opId : string) (op op' : Operation),
    operations t !! opId = Some op ->
    terminal (status op) = true ->
    operations (run_calls calls t) !! opId = Some op' ->
    status op' = status op.

(** [{ total, queued, inProgress, completed, failed, cancelled }] *)
Record OperationStats : Type := {
  total : nat;
  queued : nat;
  inProgress : nat;
  completed : nat;
  failed : nat;
  cancelled : nat
}.

Definition count_state (st : OperationState) (t : Tracker) : nat :=
  size (filter (fun entry : string * Operation =>
                  state_eqb (status (snd entry)) st = true)
               (operations t)).

Definition getOperationStats (t : Tracker) : OperationStats :=
  {| total := size (operations t);
     queued := count_state QUEUED t;
     inProgress := count_state IN_PROGRESS t;
     completed := count_state COMPLETED t;
     failed := count_state FAILED t;
     cancelled := count_state CANCELLED t |}.

(** [cleanupOldOperations(maxAgeMinutes = 60)]: the operations that are
    neither queued nor in progress, carry a completion time, and completed
    more than [maxAgeMinutes] minutes ago go, with their observers; returns
    how many went. *)
Definition outdated (now maxAgeMinutes : Z) (op : Operation) : bool :=
  negb (state_eqb (status op) IN_PROGRESS || state_eqb (status op) QUEUED)
  && match completedAt op with
     | Some done => negb (done =? 0) && (maxAgeMinutes * 60 * 1000 <? now - done)
     | None => false
     end.

Definition cleanupOldOperations (now maxAgeMinutes : Z) (t : Tracker)
    : nat * Tracker :=
  let toRemove :=
    filter (fun entry : string * Operation =>
              outdated now maxAgeMinutes (snd entry) = true) (operations t) in
  (size toRemove,
   {| operations :=
        filter (fun entry : string * Operation => toRemove !! fst entry = None)
               (operations t);
      progressCallbacks :=
        filter (fun entry : string * list JsValue => toRemove !! fst entry = None)
               (progressCallbacks t);
      delivered := delivered t |}).

(** [clearAllOperations()] returns how many operations there were. *)
Definition clearAllOperations (t : Tracker) : nat * Tracker :=
  (size (operations t),
   {| operations := ∅; progressCallbacks := ∅; delivered := delivered t |}).

(** The calls of the module, the two clean-up functions among them. *)
Inductive Step : Type :=
| StepCall (c : Call)
| StepCleanup (now maxAgeMinutes : Z)
| StepClear.

Definition run_step (s : Step) (t : Tracker) : Tracker :=
  match s with
  | StepCall c => run_call c t
  | StepCleanup now maxAgeMinutes => snd (cleanupOldOperations now maxAgeMinutes t)
  | StepClear => snd (clearAllOperations t)
  end.

Definition run_steps (steps : list Step) (t : Tracker) : Tracker :=
  fold_left (fun t s => run_step s t) steps t.

(** What the records of a tracker that was built by calls look like. *)
Definition well_formed (opId : string) (op : Operation) : Prop :=
  operationId op = opId /\
  status op <> CANCELLED /\
  domains op <> [] /\
  totalSteps op = Z.of_nat (List.length (domains op)) /\
  timeout op = calculateNsec3Timeout (JArray (domains op)) /\
  (terminal (status op) = false ->
     completedAt op = None /\ result op = JNull /\ error op = JNull) /\
  (status op = COMPLETED ->
     completedAt op <> None /\ truthy (result op) = true /\ error op = JNull) /\
  (status op = FAILED -> completedAt op <> None /\ truthy (error op) = true).

(** The observer that a call registers under [key]: [onOperationProgress]
    with an identifier that is a non-empty string whose trim is [key], and
    a function. *)
Definition registers (key : string) (c : Call) : option JsValue :=
  match c with
  | CallOnProgress (JString s) callback =>
      if negb (String.eqb s "") && String.eqb (trim s) key
         && String.eqb (typeof callback) "function"
      then Some callback else None
  | _ => None
  end.

(** The observers that the calls of a sequence register under [key], in
    the order of the calls. *)
Definition registrations (key : string) (calls : list Call) : list JsValue :=
  omap (registers key) calls.

End Nsec3.

(** ** lib/error-mapper.js *)

Module ErrorMapper.
Import JS.

(** [ERROR_TYPES] *)
Inductive ErrorType : Type :=
| EEXIST | ENOENT | EPERM | EBUSY
| ETIMEDOUT | ECONNREFUSED
| RATE_LIMITED | QUOTA_EXCEEDED
| INVALID_INPUT | VALIDATION_ERROR
| UNAUTHORIZED | FORBIDDEN
| INTERNAL_ERROR | SERVICE_UNAVAILABLE
| UNKNOWN.

Definition all_error_types : list ErrorType :=
  [EEXIST; ENOENT; EPERM; EBUSY; ETIMEDOUT; ECONNREFUSED; RATE_LIMITED;
   QUOTA_EXCEEDED; INVALID_INPUT; VALIDATION_ERROR; UNAUTHORIZED; FORBIDDEN;
   INTERNAL_ERROR; SERVICE_UNAVAILABLE; UNKNOWN].

Definition error_type_name (e : ErrorType) : string :=
  match e with
  | EEXIST => "EEXIST" | ENOENT => "ENOENT" | EPERM => "EPERM" | EBUSY => "EBUSY"
  | ETIMEDOUT => "ETIMEDOUT" | ECONNREFUSED => "ECONNREFUSED"
  | RATE_LIMITED => "RATE_LIMITED" | QUOTA_EXCEEDED => "QUOTA_EXCEEDED"
  | INVALID_INPUT => "INVALID_INPUT" | VALIDATION_ERROR => "VALIDATION_ERROR"
  | UNAUTHORIZED => "UNAUTHORIZED" | FORBIDDEN => "FORBIDDEN"
  | INTERNAL_ERROR => "INTERNAL_ERROR"
  | SERVICE_UNAVAILABLE => "SERVICE_UNAVAILABLE"
  | UNKNOWN => "UNKNOWN"
  end.

(** [ERROR_TYPES[key]]: the own properties of the table. The table is an
    object literal, so a key that names a member of [Object.prototype] finds
    that member instead; [inherited] sets those keys apart. *)
Definition ERROR_TYPES (key : string) : option ErrorType :=
  List.find (fun e => String.eqb (error_type_name e) key) all_error_types.



(** An entry of [RETRY_CONFIG]; [backoffMs] is absent for the kinds that are
    not retried. *)
Record RetryConfig : Type := {
  cfg_shouldRetry : bool;
  cfg_maxRetries : Z;
  cfg_backoffMs : option Z;
  cfg_description : string
}.

Definition RETRY_CONFIG (e : ErrorType) : RetryConfig :=
  match e with
  | EEXIST => {| cfg_shouldRetry := false; cfg_maxRetries := 0; cfg_backoffMs := None;
                 cfg_description := "Arquivo ou recurso já existe" |}
  | ENOENT => {| cfg_shouldRetry := false; cfg_maxRetries := 0; cfg_backoffMs := None;
                 cfg_description := "Arquivo ou recurso não encontrado" |}
  | EPERM => {| cfg_shouldRetry := false; cfg_maxRetries := 0; cfg_backoffMs := None;
                cfg_description := "Operação não permitida (permissão negada)" |}
  | EBUSY => {| cfg_shouldRetry := true; cfg_maxRetries := 3; cfg_backoffMs := Some 1000;
                cfg_description := "Recurso ocupado, tente novamente" |}
  | ETIMEDOUT => {| cfg_shouldRetry := true; cfg_maxRetries := 2;
                    cfg_backoffMs := Some 2000;
                    cfg_description := "Operação expirou, tente novamente" |}
  | ECONNREFUSED => {| cfg_shouldRetry := true; cfg_maxRetries := 3;
                       cfg_backoffMs := Some 1000;
                       cfg_description :=
                         "Conexão recusada, serviço pode estar indisponível" |}
  | RATE_LIMITED => {| cfg_shouldRetry := true; cfg_maxRetries := 5;
                       cfg_backoffMs := Some 5000;
                       cfg_description :=
                         "Limite de taxa excedido, aguarde antes de tentar novamente" |}
  | QUOTA_EXCEEDED => {| cfg_shouldRetry := false; cfg_maxRetries := 0;
                         cfg_backoffMs := None;
                         cfg_description := "Cota de recursos excedida" |}
  | INVALID_INPUT => {| cfg_shouldRetry := false; cfg_maxRetries := 0;
                        cfg_backoffMs := None;
                        cfg_description := "Entrada inválida, verifique parâmetros" |}
  | VALIDATION_ERROR => {| cfg_shouldRetry := false; cfg_maxRetries := 0;
                           cfg_backoffMs := None;
                           cfg_description := "Erro de validação" |}
  | UNAUTHORIZED => {| cfg_shouldRetry := false; cfg_maxRetries := 0;
                       cfg_backoffMs := None;
                       cfg_description := "Autenticação falhou" |}
  | FORBIDDEN => {| cfg_shouldRetry := false; cfg_maxRetries := 0;
                    cfg_backoffMs := None;
                    cfg_description := "Acesso proibido" |}
  | INTERNAL_ERROR => {| cfg_shouldRetry := true; cfg_maxRetries := 2;
                         cfg_backoffMs := Some 2000;
                         cfg_description := "Erro interno do servidor, tente novamente" |}
  | SERVICE_UNAVAILABLE => {| cfg_shouldRetry := true; cfg_maxRetries := 3;
                              cfg_backoffMs := Some 3000;
                              cfg_description := "Serviço temporariamente indisponível" |}
  | UNKNOWN => {| cfg_shouldRetry := true; cfg_maxRetries := 1;
                  cfg_backoffMs := Some 1000;
                  cfg_description := "Erro desconhecido" |}
  end.

Inductive Severity : Type := low | medium | high.

Definition calculateSeverity (errorType : ErrorType) : Severity :=
  match errorType with
  | EEXIST | QUOTA_EXCEEDED => medium
  | EPERM | FORBIDDEN | UNAUTHORIZED => high
  | INTERNAL_ERROR | SERVICE_UNAVAILABLE => high
  | ENOENT | INVALID_INPUT | VALIDATION_ERROR => low
  | EBUSY | ETIMEDOUT | ECONNREFUSED | RATE_LIMITED => medium
  | UNKNOWN => medium
  end.

(** The [retry] part of a mapped error. *)
Record Retry : Type := {
  shouldRetry : bool;
  maxRetries : Z;
  backoffMs : Z
}.

(** [{ type, message, originalMessage, retry, severity, timestamp }] *)
Record MappedError : Type := {
  type : ErrorType;
  message : string;
  originalMessage : JsValue;
  retry : Retry;
  severity : Severity;
  timestamp : Z
}.

(** [createMappedError(errorType, originalMessage)]: a key that is not in
    [ERROR_TYPES] is replaced by [UNKNOWN]. For an [inherited] key the code
    finds a member of [Object.prototype] and keeps the key as the type; the
    statements leave those keys out. *)
Definition createMappedError (now : Z) (errorType : string)
    (originalMessage : JsValue) : MappedError :=
  let errorType :=
    match ERROR_TYPES errorType with
    | Some known => known
    | None => UNKNOWN
    end in
  let retryConfig := RETRY_CONFIG errorType in
  {| type := errorType;
     message := cfg_description retryConfig;
     (* originalMessage || '' *)
     originalMessage := if truthy originalMessage then originalMessage
                        else JString "";
     retry := {| shouldRetry := cfg_shouldRetry retryConfig;
                 maxRetries := cfg_maxRetries retryConfig;
                 (* retryConfig.backoffMs || 0 *)
                 backoffMs := match cfg_backoffMs retryConfig with
                              | Some ms => if ms =? 0 then 0 else ms
                              | None => 0
                              end |};
     severity := calculateSeverity errorType;
     timestamp := now |}.

(** [ERROR_PATTERN_MAP], in the order of its keys. *)
Definition ERROR_PATTERN_MAP : list (string * ErrorType) :=
  [("file exists", EEXIST);
   ("no such file", ENOENT);
   ("not found", ENOENT);
   ("permission denied", EPERM);
   ("resource busy", EBUSY);
   ("timeout", ETIMEDOUT);
   ("timed out", ETIMEDOUT);
   ("connection refused", ECONNREFUSED);
   ("rate limit", RATE_LIMITED);
   ("too many requests", RATE_LIMITED);
   ("quota", QUOTA_EXCEEDED);
   ("invalid", INVALID_INPUT);
   ("unauthorized", UNAUTHORIZED);
   ("forbidden", FORBIDDEN);
   ("internal server error", INTERNAL_ERROR);
   ("service unavailable", SERVICE_UNAVAILABLE);
   ("bad request", INVALID_INPUT)].

(** [text.includes(pattern)] *)
Fixpoint includes (text pattern : string) : bool :=
  String.prefix pattern text
  || match text with
     | EmptyString => false
     | String _ rest => includes rest pattern
     end.

(** The first pattern, in table order, that the text includes. *)
Definition first_pattern (normalizedMessage : string) : option ErrorType :=
  snd <$> List.find (fun entry => includes normalizedMessage (fst entry))
                    ERROR_PATTERN_MAP.

(** [errorCode && ERROR_TYPES[errorCode]]. A code that is a string is looked
    up; a number or boolean prints as no kind; a code that is an object is
    taken to print as no kind either. *)
Definition known_code (errorCode : JsValue) : option ErrorType :=
  match errorCode with
  | JString s => if String.eqb s "" then None else ERROR_TYPES s
  | _ => None
  end.

Section Classifier.

(** The text [JSON.stringify] prints for an object, used as the message of
    an error object that carries none. *)
Variable JSON_text : JsValue -> string.

(** [a || b] on values *)
Definition or_else (a b : JsValue) : JsValue := if truthy a then a else b.

(** [mapWhmError(whmError)] for a string, a plain object or array, or any
    other primitive. An error object is read like a plain object. When the
    message found is not a string, [errorMessage.toLowerCase] is not a
    function and the call raises. *)
Definition mapWhmError (now : Z) (whmError : JsValue) : Outcome MappedError :=
  if negb (truthy whmError) then
    Returned (createMappedError now "UNKNOWN" (JString "Erro vazio ou nulo"))
  else
    let extracted : JsValue * JsValue :=
      match whmError with
      | JString s => (JNull, JString s)
      | JObject _ | JArray _ =>
          (or_else (get whmError "code") (get whmError "errno"),
           or_else (get whmError "message")
             (or_else (get whmError "msg") (JString (JSON_text whmError))))
      | _ => (JNull, JString "")
      end in
    let errorCode := fst extracted in
    let errorMessage := snd extracted in
    match known_code errorCode with
    | Some kind =>
        Returned (createMappedError now (error_type_name kind) errorMessage)
    | None =>
        match errorMessage with
        | JString text =>
            match first_pattern (toLowerCase text) with
            | Some errorType =>
                Returned (createMappedError now (error_type_name errorType)
                                            errorMessage)
            | None => Returned (createMappedError now "UNKNOWN" errorMessage)
            end
        | _ => Thrown "TypeError: errorMessage.toLowerCase is not a function"
        end
    end.

End Classifier.

(** [isRecoverable(mappedError)]; [None] stands for [null] or [undefined]. *)
Definition isRecoverable (mappedError : option MappedError) : bool :=
  match mappedError with
  | None => false
  | Some m => shouldRetry (retry m) && (0 <? maxRetries (retry m))
  end.

(** [getRetryBackoff(mappedError, attemptNumber = 0)]; [None] stands for
    [null] or [undefined], and every mapped error carries a [retry] object.
    The attempt number is a count. *)
Definition getRetryBackoff (mappedError : option MappedError) (attemptNumber : nat)
    : Z :=
  match mappedError with
  | None => 0
  | Some m =>
      (* mappedError.retry.backoffMs || 1000 *)
      let baseBackoff :=
        if backoffMs (retry m) =? 0 then 1000 else backoffMs (retry m) in
      baseBackoff * 2 ^ Z.of_nat (Nat.min attemptNumber 3)
  end.

(** Vocabulary for the statements: the base that [getRetryBackoff] uses. *)
Definition effective_base (m : MappedError) : Z :=
  if backoffMs (retry m) =? 0 then 1000 else backoffMs (retry m).

(** The backoff rule as the specification words it. *)
Definition backoff_as_stated : Prop :=
  forall (m : MappedError) (n : nat),
    getRetryBackoff (Some m) n = backoffMs (retry m) * 2 ^ Z.of_nat (Nat.min n 3).

(** [getErrorTypes()]: the keys of [ERROR_TYPES], in their order. *)
Definition getErrorTypes : list string := map error_type_name all_error_types.

(** The kinds whose [RETRY_CONFIG] entry asks for a retry. *)
Definition retried_kinds : list ErrorType :=
  [EBUSY; ETIMEDOUT; ECONNREFUSED; RATE_LIMITED; INTERNAL_ERROR;
   SERVICE_UNAVAILABLE; UNKNOWN].

End ErrorMapper.

(** ** The four components together *)

Module Layer.
Import JS.

(** The identifier and resource guard, [!x || typeof x !== 'string']. *)
Definition not_a_key (x : JsValue) : bool :=
  negb (truthy x) || negb (String.eqb (typeof x) "string").








End Layer.

(** ** Strings as the validators use them

    Host names, user names, tokens and paths are ASCII strings, on which
    [trim] removes the ASCII white space and [toLowerCase] maps the ASCII
    letters, as for the other modules. *)

Module Text.
Import JS.

(** [s.startsWith(p)] *)
Definition startsWith (s p : string) : bool := String.prefix p s.

(** [s.endsWith(p)]: some suffix of [s] is [p]. *)
Fixpoint endsWith (s p : string) : bool :=
  String.eqb s p
  || match s with
     | String _ rest => endsWith rest p
     | EmptyString => false
     end.

(** [text.includes(pattern)] *)
Definition includes (text pattern : string) : bool :=
  ErrorMapper.includes text pattern.

(** [s.split(sep)] for a separator of one character: the piece before the
    first separator, and the pieces after it. *)
Fixpoint pieces (sep : ascii) (s : string) : string * list string :=
  match s with
  | EmptyString => (EmptyString, [])
  | String c rest =>
      let '(first, others) := pieces sep rest in
      if Ascii.eqb c sep then (EmptyString, first :: others)
      else (String c first, others)
  end.

Definition split (sep : ascii) (s : string) : list string :=
  let '(first, others) := pieces sep s in first :: others.

(** [/^[class]*$/.test(s)]: every character of [s] is in the class. *)
Fixpoint all_chars (ok : ascii -> bool) (s : string) : bool :=
  match s with
  | EmptyString => true
  | String c rest => ok c && all_chars ok rest
  end.

(** [s.substring(n)] *)
Fixpoint substring_from (n : nat) (s : string) : string :=
  match n, s with
  | O, _ => s
  | S n', String _ rest => substring_from n' rest
  | S _, EmptyString => EmptyString
  end.

(** The character classes of the regular expressions. *)
Definition is_lower (c : ascii) : bool :=
  let n := nat_of_ascii c in ((97 <=? n) && (n <=? 122))%nat.

Definition is_digit (c : ascii) : bool :=
  let n := nat_of_ascii c in ((48 <=? n) && (n <=? 57))%nat.

(** What [trim_left] leaves: a string that starts with no white space. *)
Definition starts_clean (s : string) : Prop :=
  match s with
  | String c _ => is_space c = false
  | EmptyString => True
  end.

End Text.

(** ** lib/validators.js *)

Module Validators.
Import JS Text.

(** [{ isValid, sanitized, error }] *)
Record Validation : Type := {
  isValid : bool;
  sanitized : string;
  error : option string
}.

Definition rejected (message : string) : Validation :=
  {| isValid := false; sanitized := ""; error := Some message |}.

Definition shellMetacharacters : list string :=
  [";"; "|"; "`"; "$"; "("; ")"; "{"; "}"; "["; "]"; "<"; ">"; "!"; "&"].

(** [/^[a-z0-9\.\-]*$/] *)
Definition domain_char (c : ascii) : bool :=
  is_lower c || is_digit c || Ascii.eqb c "." || Ascii.eqb c "-".

(** [/^[a-z0-9\-]*$/] *)
Definition label_char (c : ascii) : bool :=
  is_lower c || is_digit c || Ascii.eqb c "-".

(** The loop over the labels of [validateDomain]: the error of the first
    label that fails a check. *)
Fixpoint labels_error (labels : list string) : option string :=
  match labels with
  | [] => None
  | label :: rest =>
      if (String.length label =? 0)%nat || (63 <? String.length label)%nat then
        Some "Cada label do domínio deve ter 1-63 caracteres"
      else if startsWith label "-" || endsWith label "-" then
        Some "Labels do domínio não podem começar ou terminar com hífen"
      else labels_error rest
  end.

Definition validateDomain (domain : JsValue) : Validation :=
  match domain with
  | JNull | JUndefined => rejected "Domínio não pode ser nulo"
  | JString s =>
      let sanitized := toLowerCase (trim s) in
      if (String.length sanitized =? 0)%nat then
        rejected "Domínio não pode ser vazio"
      else if (255 <? String.length sanitized)%nat then
        rejected "Domínio não pode exceder 255 caracteres"
      else
        match List.find (fun char => includes sanitized char) shellMetacharacters with
        | Some char => rejected ("Domínio contém shell metacharacters: " +:+ char)
        | None =>
            if negb (all_chars domain_char sanitized) then
              rejected
                "Domínio contém caracteres inválidos (permitidos: a-z, 0-9, ponto, hífen)"
            else if includes sanitized ".." then
              rejected "Domínio contém pontos consecutivos"
            else if includes sanitized "\" then
              rejected "Domínio contém caracteres inválidos"
            else if startsWith sanitized "." || endsWith sanitized "." then
              rejected "Domínio não pode começar ou terminar com ponto"
            else if negb (includes sanitized ".") then
              rejected "Domínio deve ter extensão de domínio (ex: .com)"
            else
              match labels_error (split "." sanitized) with
              | Some message => rejected message
              | None => {| isValid := true; sanitized := sanitized; error := None |}
              end
        end
  | _ => rejected "Domínio deve ser uma string"
  end.

Definition validateSubdomain (subdomain parentDomain : JsValue) : Validation :=
  let parentValidation := validateDomain parentDomain in
  if negb (isValid parentValidation) then
    rejected ("Domínio pai inválido: " +:+ default "null" (error parentValidation))
  else
    match subdomain with
    | JNull | JUndefined => rejected "Subdomínio não pode ser nulo"
    | JString s =>
        let sanitized := toLowerCase (trim s) in
        if (String.length sanitized =? 0)%nat then
          rejected "Subdomínio não pode ser vazio"
        else
          match List.find (fun char => includes sanitized char) shellMetacharacters with
          | Some char => rejected ("Subdomínio contém shell metacharacters: " +:+ char)
          | None =>
              if negb (all_chars label_char sanitized) then
                rejected
                  "Subdomínio contém caracteres inválidos (permitidos: a-z, 0-9, hífen)"
              else if startsWith sanitized "-" || endsWith sanitized "-" then
                rejected "Subdomínio não pode começar ou terminar com hífen"
              else {| isValid := true; sanitized := sanitized; error := None |}
          end
    | _ => rejected "Subdomínio deve ser uma string"
    end.

(** [sanitizeDomain(domain)] for [null] or [undefined] ([None]) and for a
    string. *)
Definition sanitizeDomain (domain : option string) : string :=
  match domain with
  | None => ""
  | Some s => toLowerCase (trim s)
  end.

(** Vocabulary for the statements: a label of a host name, and a host name
    of at least two labels joined by dots. *)
Definition well_formed_label (label : string) : Prop :=
  (1 <= String.length label <= 63)%nat /\
  all_chars label_char label = true /\
  (forall rest, label <> "-" +:+ rest) /\
  (forall front, label <> front +:+ "-").

Definition host_name (d : string) : Prop :=
  (String.length d <= 255)%nat /\
  exists labels,
    (2 <= List.length labels)%nat /\ d = String.concat "." labels /\
    Forall well_formed_label labels.

End Validators.

(** ** lib/path-validator.js *)

Module PathValidator.
Import JS Text.

Definition RESTRICTED_DIRS : list string :=
  [".ssh"; ".cpanel"; ".gnupg"; "etc"; "mail"; "tmp"; ".bash_history"; ".cache";
   ".local"; ".config"].

(** [{ valid, sanitized, error }] *)
Record PathValidation : Type := {
  valid : bool;
  sanitized : string;
  error : option string
}.

Definition rejected (message : string) : PathValidation :=
  {| valid := false; sanitized := ""; error := Some message |}.

(** [/^[a-z0-9_\-\.]+$/] *)
Definition username_char (c : ascii) : bool :=
  is_lower c || is_digit c || Ascii.eqb c "_" || Ascii.eqb c "-" || Ascii.eqb c ".".

(** [s.replace(/\\/g, '/')] *)
Fixpoint replace_backslashes (s : string) : string :=
  match s with
  | EmptyString => EmptyString
  | String c rest =>
      String (if Ascii.eqb c "\" then "/"%char else c) (replace_backslashes rest)
  end.

(** [s.replace(/\/$/, '')]: a slash at the very end is removed. *)
Fixpoint drop_trailing_slash (s : string) : string :=
  match s with
  | EmptyString => EmptyString
  | String c EmptyString => if Ascii.eqb c "/" then EmptyString else s
  | String c rest => String c (drop_trailing_slash rest)
  end.

(** [s.replace(/\/+/g, '/')]: a slash followed by a slash is dropped. *)
Fixpoint collapse_slashes (s : string) : string :=
  match s with
  | EmptyString => EmptyString
  | String c rest =>
      if Ascii.eqb c "/" && startsWith rest "/" then collapse_slashes rest
      else String c (collapse_slashes rest)
  end.

(** The shell metacharacters of the component test. *)
Definition shellMetacharacters : list string :=
  [";"; "|"; "`"; "$"; "("; ")"; "{"; "}"; "["; "]"; "<"; ">"; "!"; "&"; "*"; "?"].

(** [RESTRICTED_DIRS.includes(name)] *)
Definition restricted (name : string) : bool :=
  existsb (String.eqb name) RESTRICTED_DIRS.

(** The double quote of the error message of a restricted directory. *)
Definition quote : string := String (ascii_of_nat 34) EmptyString.

(** The loop over the path components of [validateDocumentRoot]: the error
    of the first component that fails a check; empty components are
    skipped. *)
Fixpoint components_error (pathComponents : list string) : option string :=
  match pathComponents with
  | [] => None
  | component :: rest =>
      let componentLower := toLowerCase component in
      if String.eqb component "" then components_error rest
      else if restricted componentLower then
        Some ("Acesso ao diretório " +:+ quote +:+ componentLower +:+ quote
                +:+ " não permitido")
      else
        match List.find (fun char => includes componentLower char)
                        shellMetacharacters with
        | Some char =>
            Some ("Componente do caminho contém caracteres inválidos: " +:+ char)
        | None => components_error rest
        end
  end.

Section Normalize.

(** [path.normalize] of the platform. *)
Variable normalize : string -> string.

Definition validateDocumentRoot (documentRoot username : JsValue)
    : PathValidation :=
  if negb (truthy documentRoot)
     || negb (String.eqb (typeof documentRoot) "string") then
    rejected "Document root inválido ou ausente"
  else if negb (truthy username) || negb (String.eqb (typeof username) "string") then
    rejected "Username inválido ou ausente"
  else
    let usernameTrimmed := toLowerCase (trim (as_string username)) in
    if negb (negb (String.eqb usernameTrimmed "")
             && all_chars username_char usernameTrimmed) then
      rejected "Username contém caracteres inválidos"
    else
      let normalizedPath :=
        replace_backslashes (normalize (trim (as_string documentRoot))) in
      if includes normalizedPath ".." then
        rejected "Caminho contém traversal (..)"
      else if includes normalizedPath "\" then
        rejected "Caminho contém caracteres inválidos (backslash)"
      else
        let expectedBasePath := "/home/" +:+ usernameTrimmed in
        let expectedBasePathWithoutTrailingSlash :=
          drop_trailing_slash expectedBasePath in
        let isValidBase :=
          String.eqb normalizedPath expectedBasePathWithoutTrailingSlash
          || startsWith normalizedPath (expectedBasePath +:+ "/") in
        if negb isValidBase then
          rejected ("Caminho deve estar dentro de " +:+ expectedBasePath)
        else
          let relativePath :=
            substring_from (String.length expectedBasePath) normalizedPath in
          let relativePath :=
            if startsWith relativePath "/" then substring_from 1 relativePath
            else relativePath in
          match
            (if String.eqb relativePath "" then None
             else components_error (split "/" relativePath))
          with
          | Some message => rejected message
          | None =>
              {| valid := true; sanitized := normalizedPath; error := None |}
          end.

(** [sanitizePath(dirPath)] *)
Definition sanitizePath (dirPath : JsValue) : string :=
  if negb (truthy dirPath) || negb (String.eqb (typeof dirPath) "string") then ""
  else collapse_slashes (replace_backslashes (normalize (as_string dirPath))).

End Normalize.

(** [isRestrictedDir(dirname)] *)
Definition isRestrictedDir (dirname : JsValue) : bool :=
  if negb (truthy dirname) || negb (String.eqb (typeof dirname) "string") then false
  else restricted (toLowerCase (as_string dirname)).

(** [getRestrictedDirs()]: a copy of the list. *)
Definition getRestrictedDirs : list string := RESTRICTED_DIRS.

(** Vocabulary for the statements: a path component that passes the two
    tests of the loop. *)
Definition component_allowed (component : string) : Prop :=
  isRestrictedDir (JString component) = false /\
  Forall (fun char => includes (toLowerCase component) char = false)
         shellMetacharacters.

End PathValidator.

(** ** lib/acl-validator.js *)

Module AclValidator.
Import JS Text.

(** [{ allowed, reason }] *)
Record AccessResult : Type := {
  allowed : bool;
  reason : string
}.

Definition validateUserAccess (token username : JsValue) : AccessResult :=
  if negb (truthy token) || negb (String.eqb (typeof token) "string") then
    {| allowed := false; reason := "Token inválido ou ausente" |}
  else if negb (truthy username) || negb (String.eqb (typeof username) "string") then
    {| allowed := false; reason := "Username inválido ou ausente" |}
  else
    let tokenTrimmed := trim (as_string token) in
    let usernameTrimmed := toLowerCase (trim (as_string username)) in
    match split ":" tokenTrimmed with
    | userType :: userIdentifier :: _ =>
        let userTypeLower := toLowerCase userType in
        let userIdentifierLower := toLowerCase userIdentifier in
        if String.eqb userTypeLower "root" then
          {| allowed := true; reason := "Acesso root autorizado" |}
        else if String.eqb userTypeLower "reseller" then
          if String.eqb usernameTrimmed "" then
            {| allowed := false; reason := "Conta inválida para acesso reseller" |}
          else
            {| allowed := true;
               reason := "Reseller " +:+ userIdentifierLower
                           +:+ " autorizado para conta " +:+ usernameTrimmed |}
        else if String.eqb userTypeLower "user"
                || String.eqb userTypeLower "usuario" then
          if negb (String.eqb userIdentifierLower usernameTrimmed) then
            {| allowed := false;
               reason := "Usuário não autorizado para acessar a conta "
                           +:+ usernameTrimmed |}
          else
            {| allowed := true;
               reason := "Usuário " +:+ usernameTrimmed
                           +:+ " autorizado para sua própria conta" |}
        else
          {| allowed := false; reason := "Tipo de usuário não reconhecido" |}
    | _ => {| allowed := false; reason := "Formato de token inválido" |}
    end.

(** [extractUserType(token)]; [None] is [null]. *)
Definition extractUserType (token : JsValue) : option string :=
  if negb (truthy token) || negb (String.eqb (typeof token) "string") then None
  else
    match split ":" (trim (as_string token)) with
    | first :: _ => Some (toLowerCase first)
    | [] => None
    end.

(** [extractUserIdentifier(token)]; [None] is [null]. *)
Definition extractUserIdentifier (token : JsValue) : option string :=
  if negb (truthy token) || negb (String.eqb (typeof token) "string") then None
  else
    match split ":" (trim (as_string token)) with
    | _ :: second :: _ => Some (toLowerCase second)
    | _ => None
    end.

End AclValidator.

(* ===================================================================== *)
(** * Part II: the properties                                             *)
(* ===================================================================== *)

(** ** Lock manager *)

Section LockManagerFacts.
Import JS LockManager.

Lemma timeout_accepted_dec (timeout_arg : JsValue) :
  {timeout_accepted timeout_arg} + {~ timeout_accepted timeout_arg}.
Proof.
  destruct timeout_arg as [| | b | n | s | items | fields | name];
    try (right; intros [H | (n' & H & _)]; discriminate).
  - left; left; reflexivity.
  - destruct (num_leb n (Num 0)) eqn:E.
    + right. intros [H | (n' & H & Hn)]; [discriminate |].
      injection H as <-. congruence.
    + left; right; eauto.
Qed.

(** The second guard of [acquireLock] is exactly [timeout_accepted]. *)
Lemma timeout_guard_accepts (timeout_arg : JsValue) :
  timeout_accepted timeout_arg ->
  let timeout := match timeout_arg with
                 | JUndefined => JNumber (Num DEFAULT_LOCK_TIMEOUT)
                 | given => given
                 end in
  negb (String.eqb (typeof timeout) "number")
    || num_leb (as_number timeout) (Num 0) = false
  /\ as_number timeout = requested_timeout timeout_arg.
Proof.
  intros [-> | (n & -> & Hn)]; cbn; [split; reflexivity |].
  rewrite Hn. split; reflexivity.
Qed.

Lemma timeout_guard_rejects (timeout_arg : JsValue) :
  ~ timeout_accepted timeout_arg ->
  let timeout := match timeout_arg with
                 | JUndefined => JNumber (Num DEFAULT_LOCK_TIMEOUT)
                 | given => given
                 end in
  negb (String.eqb (typeof timeout) "number")
    || num_leb (as_number timeout) (Num 0) = true.
Proof.
  intros Hno.
  destruct timeout_arg as [| | b | n | s | items | fields | name]; cbn;
    try reflexivity.
  - exfalso; apply Hno; left; reflexivity.
  - destruct (num_leb n (Num 0)) eqn:E; [reflexivity |].
    exfalso; apply Hno; right; eauto.
Qed.

Lemma resource_accepted_or_not (resource : JsValue) :
  resource_accepted resource \/ ~ resource_accepted resource.
Proof.
  destruct resource as [| | b | n | s | items | fields | name];
    try (right; intros (s' & H & _); discriminate).
  destruct (string_dec s "") as [-> | Hs].
  - right; intros (s' & H & Hs'). injection H as <-. congruence.
  - left; exists s; auto.
Qed.

Lemma resource_guard (resource : JsValue) :
  negb (truthy resource) || negb (String.eqb (typeof resource) "string") = false
  <-> resource_accepted resource.
Proof.
  split.
  - destruct resource as [| | b | n | s | items | fields | name]; cbn;
      rewrite ?orb_true_r; try discriminate.
    rewrite orb_false_r, negb_involutive. intros H.
    exists s; split; [reflexivity |]. intros ->. discriminate.
  - intros (s & -> & Hs). cbn. rewrite orb_false_r, negb_involutive.
    apply String.eqb_neq in Hs. exact Hs.
Qed.

(** [acquireLock] once both guards are passed: a case analysis on the
    entry found for the trimmed key. *)
Lemma acquireLock_accepted (sys : Sys) (s : string) (timeout_arg : JsValue)
    (locks : Locks) :
  s <> "" -> timeout_accepted timeout_arg ->
  acquireLock sys (JString s) timeout_arg locks =
    match locks !! trim s with
    | Some existingLock =>
        let elapsed := now_check sys - LockData.timestamp existingLock in
        if num_geb (Num elapsed) (LockData.timeout existingLock) then
          ({| acquired := true; lockId := Some (random_hex sys); error := None |},
           <[trim s := granted_entry sys timeout_arg]> locks)
        else
          ({| acquired := false; lockId := None;
              error := Some (busy_message
                (num_sub (LockData.timeout existingLock) (Num elapsed))) |},
           locks)
    | None =>
        ({| acquired := true; lockId := Some (random_hex sys); error := None |},
         <[trim s := granted_entry sys timeout_arg]> locks)
    end.
Proof.
  intros Hs Ht. unfold acquireLock.
  assert (Hr : resource_accepted (JString s)) by (exists s; auto).
  apply resource_guard in Hr. rewrite Hr.
  destruct (timeout_guard_accepts _ Ht) as [Hg Hreq].
  cbv zeta in Hg, Hreq. rewrite Hg, Hreq. cbn [as_string].
  unfold granted_entry.
  destruct (locks !! trim s) as [existing |]; [| reflexivity].
  cbv zeta. destruct (num_geb _ _); [| reflexivity].
  rewrite insert_delete_eq. reflexivity.
Qed.

Lemma acquireLock_bad_timeout (sys : Sys) (s : string) (timeout_arg : JsValue)
    (locks : Locks) :
  s <> "" -> ~ timeout_accepted timeout_arg ->
  acquireLock sys (JString s) timeout_arg locks =
    ({| acquired := false; lockId := None; error := Some timeout_message |}, locks).
Proof.
  intros Hs Ht. unfold acquireLock.
  assert (Hr : resource_accepted (JString s)) by (exists s; auto).
  apply resource_guard in Hr. rewrite Hr.
  pose proof (timeout_guard_rejects _ Ht) as Hg. cbv zeta in Hg.
  rewrite Hg. reflexivity.
Qed.

Lemma acquireLock_bad_resource (sys : Sys) (resource timeout_arg : JsValue)
    (locks : Locks) :
  ~ resource_accepted resource ->
  acquireLock sys resource timeout_arg locks =
    ({| acquired := false; lockId := None;
        error := Some "Identificador de recurso inválido" |}, locks).
Proof.
  intros Hr. unfold acquireLock.
  destruct (negb (truthy resource) || negb (String.eqb (typeof resource) "string"))
    eqn:E; [reflexivity |].
  apply resource_guard in E. contradiction.
Qed.

(** A granted call was a well-formed one, and it stored its entry under the
    trimmed key. *)
Lemma acquireLock_granted (sys : Sys) (resource timeout_arg : JsValue)
    (locks locks' : Locks) (r : AcquireResult) :
  acquireLock sys resource timeout_arg locks = (r, locks') ->
  acquired r = true ->
  exists s, resource = JString s /\ s <> "" /\ timeout_accepted timeout_arg /\
            lockId r = Some (random_hex sys) /\ error r = None /\
            locks' = <[trim s := granted_entry sys timeout_arg]> locks.
Proof.
  intros Hcall Hacq.
  destruct (resource_accepted_or_not resource) as [(s & -> & Hs) | Hno].
  2: { rewrite acquireLock_bad_resource in Hcall by assumption.
       injection Hcall as <- <-. discriminate. }
  destruct (timeout_accepted_dec timeout_arg) as [Ht | Ht].
  2: { rewrite acquireLock_bad_timeout in Hcall by assumption.
       injection Hcall as <- <-. discriminate. }
  exists s. rewrite acquireLock_accepted in Hcall by assumption.
  destruct (locks !! trim s) as [existing |].
  - cbv zeta in Hcall. destruct (num_geb _ _).
    + injection Hcall as <- <-. auto 10.
    + injection Hcall as <- <-. discriminate.
  - injection Hcall as <- <-. auto 10.
Qed.

(** A positive timeout is stored as a positive integer, at most ten minutes. *)
Lemma stored_timeout_positive (T : number) :
  num_ltb (Num 0) T = true ->
  exists stored, Math_min T (Num 600000) = Num stored /\ 0 < stored <= 600000 /\
                 (forall e, num_leb T (Num e) = true -> stored <= e).
Proof.
  destruct T as [t | | |]; cbn; try discriminate; intros Hpos.
  - apply Z.ltb_lt in Hpos. destruct (t <=? 600000) eqn:E.
    + apply Z.leb_le in E. exists t.
      repeat split; try lia; intros e He; apply Z.leb_le in He; lia.
    + apply Z.leb_gt in E. exists 600000.
      repeat split; try lia; intros e He; apply Z.leb_le in He; lia.
  - exists 600000. repeat split; try lia; discriminate.
Qed.





(** C5, as amended. After a granted [acquireLock(R, T)] with a positive [T],
    once at least [T] has elapsed a further [acquireLock(R, T')] whose [T']
    passes the timeout validation is granted with no release in between:
    the stale entry is replaced, in that call, by one carrying the token
    generated for the call, the time of the grant and the new timeout. *)
Theorem acquire_after_expiry_granted
    (sys1 sys2 : Sys) (R : JsValue) (T : number) (T' : JsValue)
    (locks locks1 locks2 : Locks) (r1 r2 : AcquireResult) :
  num_ltb (Num 0) T = true ->
  acquireLock sys1 R (JNumber T) locks = (r1, locks1) ->
  acquired r1 = true ->
  num_leb T (Num (now_check sys2 - now_grant sys1)) = true ->
  timeout_accepted T' ->
  acquireLock sys2 R T' locks1 = (r2, locks2) ->
  acquired r2 = true /\ lockId r2 = Some (random_hex sys2) /\ error r2 = None /\
  locks2 = <[trim (as_string R) := granted_entry sys2 T']> locks1 /\
  locks2 !! trim (as_string R) = Some (granted_entry sys2 T').
Proof.
  intros Hpos Hfirst Hacq Hexp Ht Hsecond.
  destruct (acquireLock_granted _ _ _ _ _ _ Hfirst Hacq)
    as (s & -> & Hs & _ & _ & _ & Hl1).
  assert (Hheld : locks1 !! trim s = Some (granted_entry sys1 (JNumber T)))
    by (rewrite Hl1; apply lookup_insert_eq).
  clear Hfirst.
  destruct (stored_timeout_positive T Hpos) as (stored & Hst & Hrange & Hle).
  specialize (Hle _ Hexp).
  rewrite acquireLock_accepted in Hsecond by assumption.
  rewrite Hheld in Hsecond. cbv zeta in Hsecond.
  unfold granted_entry at 1 in Hsecond. cbn in Hsecond.
  rewrite Hst in Hsecond. cbn in Hsecond.
  replace (stored <=? now_check sys2 - now_grant sys1) with true in Hsecond
    by (symmetry; apply Z.leb_le; lia).
  injection Hsecond as <- <-. cbn.
  rewrite lookup_insert_eq. repeat split.
Qed.

Lemma acquire_after_expiry_granted_witness :
  let sys1 := {| now_check := 1000; now_grant := 1000; random_hex := "a1b2" |} in
  let sys2 := {| now_check := 31000; now_grant := 31001; random_hex := "c3d4" |} in
  let R := JString "domain:example.com" in
  let first := acquireLock sys1 R (JNumber (Num 30000)) ∅ in
  let second := acquireLock sys2 R (JNumber (Num 5000)) first.2 in
  acquired first.1 = true /\ acquired second.1 = true /\
  lockId second.1 = Some "c3d4" /\
  second.2 !! "domain:example.com" = Some (LockData.mk "c3d4" 31001 (Num 5000)).
Proof.
  intros sys1 sys2 R first second.
  destruct (acquire_after_expiry_granted sys1 sys2 R (Num 30000)
              (JNumber (Num 5000)) ∅ first.2 second.2 first.1 second.1)
    as (Hacq & Hid & _ & _ & Hentry).
  - reflexivity.
  - apply surjective_pairing.
  - reflexivity.
  - reflexivity.
  - right. exists (Num 5000). split; reflexivity.
  - apply surjective_pairing.
  - repeat split; try assumption; reflexivity.
Defined.

(** C5 as worded does not hold: after expiry a call whose timeout argument
    is rejected by the validation guard is still refused, and the stale
    entry stays in the table. *)
Lemma granted_after_expiry_refuted : ~ granted_after_expiry_as_stated.
Proof.
  intros H.
  pose (sys1 := {| now_check := 1000; now_grant := 1000; random_hex := "a1b2" |}).
  pose (sys2 := {| now_check := 31000; now_grant := 31001; random_hex := "c3d4" |}).
  pose (R := JString "domain:example.com").
  pose (first := acquireLock sys1 R (JNumber (Num 30000)) ∅).
  pose (second := acquireLock sys2 R (JNumber (Num 0)) first.2).
  destruct (H sys1 sys2 R (Num 30000) (JNumber (Num 0)) ∅ first.2 second.2
              first.1 second.1)
    as (Hacq & _);
    try reflexivity; try apply surjective_pairing.
  assert (Hno : acquired second.1 = false) by reflexivity.
  rewrite Hno in Hacq. discriminate Hacq.
Qed.

End LockManagerFacts.

(** ** NSEC3 asynchronous operations *)

Section Nsec3Facts.
Import JS Nsec3.

(** The filter of [calculateNsec3Timeout] keeps the non-empty strings. *)
Lemma valid_domain_nonempty_string (d : JsValue) :
  valid_domain d = nonempty_string d.
Proof.
  unfold valid_domain, nonempty_string.
  destruct d as [| | b | n | s | items | fields | name]; cbn;
    try reflexivity.
  - destruct b; reflexivity.
  - destruct (num_truthy n); reflexivity.
  - destruct s; reflexivity.
Qed.

Lemma filter_valid_domain (items : list JsValue) :
  List.filter valid_domain items = List.filter nonempty_string items.
Proof.
  induction items as [| d items IH]; cbn; [reflexivity |].
  rewrite valid_domain_nonempty_string, IH. reflexivity.
Qed.

(** C7. [calculateNsec3Timeout] counts the entries that are non-empty
    strings and returns [min(60000 + 30000 * count, 600000)]; an argument
    that is not an array yields 60000. An empty list yields 60000, one
    counted entry 90000, two 120000, nineteen 600000. *)
Theorem calculateNsec3Timeout_formula (domains : JsValue) :
  (isArray domains = false -> calculateNsec3Timeout domains = 60000) /\
  (forall items, domains = JArray items ->
     let count := count_nonempty_strings items in
     calculateNsec3Timeout domains = Z.min (60000 + 30000 * count) 600000 /\
     (items = [] -> calculateNsec3Timeout domains = 60000) /\
     (count = 1 -> calculateNsec3Timeout domains = 90000) /\
     (count = 2 -> calculateNsec3Timeout domains = 120000) /\
     (count = 19 -> calculateNsec3Timeout domains = 600000)).
Proof.
  split.
  - destruct domains; cbn; try reflexivity. discriminate.
  - intros items -> count.
    assert (Hf : calculateNsec3Timeout (JArray items)
                 = Z.min (60000 + 30000 * count) 600000).
    { unfold calculateNsec3Timeout, count, count_nonempty_strings.
      rewrite filter_valid_domain. reflexivity. }
    split; [exact Hf |]. rewrite Hf.
    repeat split.
    + intros ->. reflexivity.
    + intros ->. reflexivity.
    + intros ->. reflexivity.
    + intros ->. reflexivity.
Qed.

Lemma calculateNsec3Timeout_formula_witness :
  calculateNsec3Timeout (JString "a.com") = 60000 /\
  calculateNsec3Timeout (JArray []) = 60000 /\
  calculateNsec3Timeout (JArray [JString "a.com"]) = 90000 /\
  calculateNsec3Timeout (JArray [JString "a"; JNumber (Num 7); JString "b"; JString ""])
    = 120000 /\
  calculateNsec3Timeout (JArray (repeat (JString "domain.com") 19)) = 600000.
Proof.
  pose (one := [JString "a.com"]).
  pose (mixed := [JString "a"; JNumber (Num 7); JString "b"; JString ""]).
  pose (many := repeat (JString "domain.com") 19).
  destruct (calculateNsec3Timeout_formula (JString "a.com")) as [Hbase _].
  destruct (calculateNsec3Timeout_formula (JArray [])) as [_ Hnil].
  destruct (Hnil [] eq_refl) as (_ & Hempty & _).
  destruct (calculateNsec3Timeout_formula (JArray one)) as [_ Hone].
  destruct (Hone one eq_refl) as (_ & _ & H1 & _).
  destruct (calculateNsec3Timeout_formula (JArray mixed)) as [_ Hmixed].
  destruct (Hmixed mixed eq_refl) as (_ & _ & _ & H2 & _).
  destruct (calculateNsec3Timeout_formula (JArray many)) as [_ Hmany].
  destruct (Hmany many eq_refl) as (_ & _ & _ & _ & H19).
  exact (conj (Hbase eq_refl) (conj (Hempty eq_refl) (conj (H1 eq_refl)
           (conj (H2 eq_refl) (H19 eq_refl))))).
Defined.

Lemma operations_notify (opId : string) (event : ProgressEvent) (t : Tracker) :
  operations (notify opId event t) = operations t.
Proof. unfold notify. destruct (progressCallbacks t !! opId); reflexivity. Qed.

Lemma operations_with_operation (opId : string) (op : Operation) (t : Tracker) :
  operations (with_operation opId op t) = <[opId := op]> (operations t).
Proof. reflexivity. Qed.

(** The fields of the record [progressed] returns. *)
Lemma progressed_fields (now : Z) (p : number) (statusData : JsValue)
    (op : Operation) :
  let started := state_eqb (status op) QUEUED && num_gtb p (Num 0) in
  let st := if started then IN_PROGRESS else status op in
  let finished := num_eqb p (Num 100) && state_eqb st IN_PROGRESS in
  let op' := progressed now p statusData op in
  progress op' = p /\
  status op' = (if finished then COMPLETED else st) /\
  result op' = (if finished then result_or_empty statusData else result op) /\
  completedAt op' = (if finished then Some now else completedAt op).
Proof.
  unfold progressed, result_or_empty.
  destruct (String.eqb (typeof (get statusData "completedSteps")) "number");
    cbn [status set_progress set_completedSteps];
    destruct (state_eqb (status op) QUEUED && num_gtb p (Num 0));
    cbn [status set_progress set_completedSteps set_status];
    match goal with
    | |- context [num_eqb p (Num 100) && ?c] =>
        destruct (num_eqb p (Num 100) && c)
    end; repeat split.
Qed.

Lemma progressed_terminal (now : Z) (p : number) (statusData : JsValue)
    (op : Operation) :
  terminal (status op) = true ->
  status (progressed now p statusData op) = status op.
Proof.
  intros Hterm.
  destruct (progressed_fields now p statusData op) as (_ & -> & _).
  destruct (status op); try discriminate; simpl;
    rewrite ?andb_false_r; reflexivity.
Qed.

Lemma progressed_queued (now p : Z) (statusData : JsValue) (op : Operation) :
  status op = QUEUED ->
  let op' := progressed now (Num p) statusData op in
  (p <= 0 -> status op' = QUEUED) /\
  (0 < p -> p <> 100 ->
     status op' = IN_PROGRESS /\ result op' = result op /\
     completedAt op' = completedAt op) /\
  (p = 100 ->
     status op' = COMPLETED /\ result op' = result_or_empty statusData /\
     completedAt op' = Some now).
Proof.
  intros Hst. cbv zeta.
  destruct (progressed_fields now (Num p) statusData op) as (_ & -> & -> & ->).
  rewrite Hst. unfold num_gtb. simpl.
  destruct (0 <? p) eqn:Hpos; [apply Z.ltb_lt in Hpos | apply Z.ltb_ge in Hpos];
    destruct (p =? 100) eqn:H100;
    [apply Z.eqb_eq in H100 | apply Z.eqb_neq in H100
    | apply Z.eqb_eq in H100 | apply Z.eqb_neq in H100];
    simpl; repeat split; intros; try lia; try reflexivity.
Qed.

Lemma progressed_in_progress (now p : Z) (statusData : JsValue) (op : Operation) :
  status op = IN_PROGRESS ->
  let op' := progressed now (Num p) statusData op in
  (p <> 100 ->
     status op' = IN_PROGRESS /\ result op' = result op /\
     completedAt op' = completedAt op) /\
  (p = 100 ->
     status op' = COMPLETED /\ result op' = result_or_empty statusData /\
     completedAt op' = Some now).
Proof.
  intros Hst. cbv zeta.
  destruct (progressed_fields now (Num p) statusData op) as (_ & -> & -> & ->).
  rewrite Hst. simpl.
  destruct (p =? 100) eqn:H100;
    [apply Z.eqb_eq in H100 | apply Z.eqb_neq in H100];
    simpl; repeat split; intros; try lia; try reflexivity.
Qed.

Lemma progressed_default_statusData (now : Z) (p : number) (op : Operation) :
  progressed now p (JObject []) op = progressed now p JUndefined op.
Proof. reflexivity. Qed.

(** [updateOperationProgress] on a tracked operation, percent within range
    and [statusData] not [null]. *)
Lemma updateOperationProgress_accepted (now p : Z) (s : string)
    (statusData : JsValue) (t : Tracker) (op : Operation) :
  s <> "" -> 0 <= p <= 100 -> statusData <> JNull ->
  operations t !! trim s = Some op ->
  let op' := progressed now (Num p) statusData op in
  updateOperationProgress now (JString s) (JNumber (Num p)) statusData t =
    (Returned {| updated := true; update_error := None |},
     notify (trim s)
       {| event_operationId := trim s; event_progress := Num p;
          event_status := status op' |}
       (with_operation (trim s) op' t)).
Proof.
  intros Hs Hp Hsd Hop. unfold updateOperationProgress.
  apply String.eqb_neq in Hs. cbn [truthy typeof as_string as_number].
  rewrite Hs. cbn [negb orb String.eqb Ascii.eqb Bool.eqb num_ltb num_gtb].
  replace (p <? 0) with false by (symmetry; apply Z.ltb_ge; lia).
  replace (100 <? p) with false by (symmetry; apply Z.ltb_ge; lia).
  cbn [orb]. rewrite Hop.
  destruct statusData; try reflexivity. contradiction.
Qed.

Lemma updateOperationProgress_rejected (now : Z) (s : string)
    (progress_arg statusData : JsValue) (t : Tracker) :
  s <> "" ->
  typeof progress_arg <> "number"
    \/ num_ltb (as_number progress_arg) (Num 0) = true
    \/ num_gtb (as_number progress_arg) (Num 100) = true ->
  updateOperationProgress now (JString s) progress_arg statusData t =
    (Returned {| updated := false; update_error := Some progress_message |}, t).
Proof.
  intros Hs Hbad. unfold updateOperationProgress.
  apply String.eqb_neq in Hs. cbn [truthy typeof as_string].
  rewrite Hs. cbn [negb orb String.eqb Ascii.eqb Bool.eqb].
  destruct Hbad as [Hty | [Hlt | Hgt]].
  - apply String.eqb_neq in Hty. rewrite Hty. reflexivity.
  - rewrite Hlt, orb_true_r. reflexivity.
  - rewrite Hgt, orb_true_r. reflexivity.
Qed.

(** C6, as amended. For a tracked operation and a [statusData] that is not
    [null]: a percent strictly between 0 and 100 moves a queued operation
    to [in_progress]; percent 100 moves a queued or in-progress operation to
    [completed], with [result] set to [statusData.result] when that is
    truthy and to an empty object otherwise, and [completedAt] stamped.
    A percent that is not of type number, or is below 0 or above 100,
    is refused with the range message and nothing is changed. *)
Theorem progress_rules (now : Z) (s : string) (progress_arg statusData : JsValue)
    (t t' : Tracker) (op : Operation) (out : Outcome UpdateResult) :
  s <> "" ->
  operations t !! trim s = Some op ->
  updateOperationProgress now (JString s) progress_arg statusData t = (out, t') ->
  (forall p, progress_arg = JNumber (Num p) -> 0 <= p <= 100 ->
     statusData <> JNull ->
     out = Returned {| updated := true; update_error := None |} /\
     exists op', operations t' !! trim s = Some op' /\ progress op' = Num p /\
       (status op = QUEUED -> 0 < p < 100 -> status op' = IN_PROGRESS) /\
       (status op = QUEUED \/ status op = IN_PROGRESS -> p = 100 ->
          status op' = COMPLETED /\ result op' = result_or_empty statusData /\
          completedAt op' = Some now)) /\
  (typeof progress_arg <> "number"
     \/ num_ltb (as_number progress_arg) (Num 0) = true
     \/ num_gtb (as_number progress_arg) (Num 100) = true ->
     out = Returned {| updated := false; update_error := Some progress_message |} /\
     t' = t).
Proof.
  intros Hs Hop Hcall. split.
  - intros p -> Hp Hsd.
    rewrite (updateOperationProgress_accepted now p s statusData t op)
      in Hcall by assumption.
    injection Hcall as <- <-. split; [reflexivity |].
    exists (progressed now (Num p) statusData op).
    rewrite operations_notify, operations_with_operation, lookup_insert_eq.
    split; [reflexivity |].
    destruct (progressed_fields now (Num p) statusData op) as (Hprog & _).
    split; [exact Hprog |]. split.
    + intros Hq Hrange.
      destruct (progressed_queued now p statusData op Hq) as (_ & Hmid & _).
      apply Hmid; lia.
    + intros [Hq | Hip] ->.
      * destruct (progressed_queued now 100 statusData op Hq) as (_ & _ & Hfin).
        apply Hfin; reflexivity.
      * destruct (progressed_in_progress now 100 statusData op Hip) as (_ & Hfin).
        apply Hfin; reflexivity.
  - intros Hbad.
    rewrite updateOperationProgress_rejected in Hcall by assumption.
    injection Hcall as <- <-. split; reflexivity.
Qed.

(** The end-to-end scenario of the specification. *)
Example tracker_scenario :
  start_timeout (fst (startAsyncOperation 1000 "nsec3_0a1b" None (JString "recalc")
         (JArray [JString "x.com"; JString "y.com"]) empty_tracker)) = Some 120000 /\
  status <$> operations one_queued !! "nsec3_0a1b" = Some QUEUED /\
  status <$> operations one_in_progress !! "nsec3_0a1b" = Some IN_PROGRESS /\
  status <$> operations one_completed !! "nsec3_0a1b" = Some COMPLETED /\
  result <$> operations one_completed !! "nsec3_0a1b"
    = Some (JObject [("ok", JBool true)]).
Proof. repeat split; vm_compute; reflexivity. Qed.

Lemma progress_rules_witness :
  let call := updateOperationProgress 2000 (JString "nsec3_0a1b")
                (JNumber (Num 100)) JUndefined one_queued in
  fst call = Returned {| updated := true; update_error := None |} /\
  exists op', operations (snd call) !! "nsec3_0a1b" = Some op' /\
              status op' = COMPLETED /\ result op' = JObject [] /\
              completedAt op' = Some 2000.
Proof.
  intros call.
  assert (Hop : exists op, operations one_queued !! trim "nsec3_0a1b" = Some op
                           /\ status op = QUEUED).
  { eexists. split; vm_compute; reflexivity. }
  destruct Hop as (op & Hop & Hq).
  destruct (progress_rules 2000 "nsec3_0a1b" (JNumber (Num 100)) JUndefined
              one_queued (snd call) op (fst call)) as [Hok _].
  - discriminate.
  - exact Hop.
  - apply surjective_pairing.
  - destruct (Hok 100 eq_refl) as (Hout & op' & Hl & _ & _ & Hfin);
      [lia | discriminate |].
    split; [exact Hout |]. exists op'. split; [exact Hl |].
    apply Hfin; [left; exact Hq | reflexivity].
Defined.

(** C6 as worded does not hold: percent 100 on a queued operation is a
    percent greater than zero, and the call leaves the operation completed,
    not in progress. *)
Lemma progress_rules_refuted : ~ progress_rules_as_stated.
Proof.
  intros H.
  pose (call := updateOperationProgress 2000 (JString "nsec3_0a1b")
                  (JNumber (Num 100)) JUndefined one_queued).
  assert (Hop : exists op, operations one_queued !! trim "nsec3_0a1b" = Some op
                           /\ status op = QUEUED).
  { eexists. split; vm_compute; reflexivity. }
  destruct Hop as (op & Hop & Hq).
  destruct (H 2000 "nsec3_0a1b" (JNumber (Num 100)) JUndefined
              one_queued (snd call) op (fst call)) as (Ha & _).
  - discriminate.
  - exact Hop.
  - apply surjective_pairing.
  - destruct (Ha (Num 100) eq_refl Hq eq_refl eq_refl) as (op' & Hl & Hst).
    assert (Hreal : status <$> operations (snd call) !! trim "nsec3_0a1b"
                    = Some COMPLETED) by (vm_compute; reflexivity).
    rewrite Hl in Hreal. cbn in Hreal. congruence.
Qed.

(** Beside the range guard: [NaN] is of type number and neither below 0 nor
    above 100, so it is accepted and stored as the progress. *)
Example progress_NaN_accepted :
  let call := updateOperationProgress 2000 (JString "nsec3_0a1b")
                (JNumber NaN) JUndefined one_queued in
  fst call = Returned {| updated := true; update_error := None |} /\
  progress <$> operations (snd call) !! "nsec3_0a1b" = Some NaN.
Proof. split; vm_compute; reflexivity. Qed.

(** [statusData = null] raises after the progress has been stored. *)
Example progress_null_statusData_raises :
  let call := updateOperationProgress 2000 (JString "nsec3_0a1b")
                (JNumber (Num 50)) JNull one_queued in
  fst call = Thrown "TypeError: Cannot read properties of null (reading 'completedSteps')" /\
  progress <$> operations (snd call) !! "nsec3_0a1b" = Some (Num 50) /\
  status <$> operations (snd call) !! "nsec3_0a1b" = Some QUEUED.
Proof. repeat split; vm_compute; reflexivity. Qed.

(** The identifier guard shared by the entry points. *)
Lemma id_guard (v : JsValue) :
  negb (truthy v) || negb (String.eqb (typeof v) "string") = false ->
  exists s, v = JString s /\ s <> "".
Proof.
  destruct v as [| | b | n | s | items | fields | name]; cbn;
    rewrite ?orb_true_r; try discriminate.
  rewrite orb_false_r, negb_involutive. intros H.
  exists s; split; [reflexivity |]. intros ->. discriminate.
Qed.

(** What one call does to the record stored under [opId] when that record
    is in a terminal state. *)
Lemma run_call_terminal (c : Call) (t : Tracker) (opId : string) (op : Operation) :
  operations t !! opId = Some op ->
  terminal (status op) = true ->
  exists op', operations (run_call c t) !! opId = Some op' /\
    (fails_record opId c = false -> status op' = status op) /\
    (fails_record opId c = true -> status op' = FAILED).
Proof.
  intros Hop Hterm.
  destruct c as [now generated operationId type_arg domains_arg
                | clock operationId_arg
                | now operationId_arg progress_arg statusData_arg
                | now operationId_arg errorMessage
                | operationId_arg callback]; cbn [run_call fails_record].
  - (* startAsyncOperation never overwrites an existing record *)
    exists op. split; [| split; [reflexivity | discriminate]].
    unfold startAsyncOperation.
    destruct (negb (truthy type_arg) || _); [exact Hop |].
    destruct domains_arg as [| | | | | [| first others] | |]; try exact Hop.
    match goal with
    | |- context [operations t !! ?k] => destruct (operations t !! k) eqn:Hk
    end; [exact Hop |].
    cbn. rewrite lookup_insert_ne; [exact Hop |]. intros <-. congruence.
  - (* getOperationStatus fails only operations in progress *)
    exists op. split; [| split; [reflexivity | discriminate]].
    unfold getOperationStatus.
    destruct (negb (truthy operationId_arg) || _); [exact Hop |].
    destruct (operations t !! trim (as_string operationId_arg)) as [found |] eqn:Hk;
      [| exact Hop].
    cbv zeta. cbn [snd].
    destruct (state_eqb (status found) IN_PROGRESS
              && (timeout found <? now_test clock - startedAt found)) eqn:E;
      [| exact Hop].
    rewrite operations_with_operation.
    rewrite lookup_insert_ne; [exact Hop |]. intros Heq.
    rewrite Heq, Hop in Hk. injection Hk as <-.
    destruct (status op); discriminate.
  - (* updateOperationProgress keeps a terminal state *)
    unfold updateOperationProgress.
    destruct (negb (truthy operationId_arg) || _);
      [exists op; split; [exact Hop | split; [reflexivity | discriminate]] |].
    destruct (_ || _ || _);
      [exists op; split; [exact Hop | split; [reflexivity | discriminate]] |].
    destruct (operations t !! trim (as_string operationId_arg)) as [found |] eqn:Hk;
      [| exists op; split; [exact Hop | split; [reflexivity | discriminate]]].
    destruct (decide (trim (as_string operationId_arg) = opId)) as [Heq | Hne].
    + rewrite Heq, Hop in Hk. injection Hk as <-. rewrite Heq.
      destruct statusData_arg; cbn [snd];
        rewrite ?operations_notify, operations_with_operation, lookup_insert_eq;
        eexists; (split; [reflexivity |]); (split; [intros _ | discriminate]);
        try apply progressed_terminal; try assumption; reflexivity.
    + exists op. split; [| split; [reflexivity | discriminate]].
      destruct statusData_arg; cbn [snd];
        rewrite ?operations_notify, operations_with_operation,
          lookup_insert_ne by assumption; exact Hop.
  - (* failOperation forces the record it finds to failed *)
    unfold failOperation.
    destruct (negb (truthy operationId_arg) || _) eqn:Hguard.
    + exists op. split; [exact Hop |].
      assert (Hf : match operationId_arg with
                   | JString s => negb (String.eqb s "") && String.eqb (trim s) opId
                   | _ => false
                   end = false).
      { destruct operationId_arg as [| | b | n | s | items | fields | name];
          try reflexivity.
        cbn in Hguard. rewrite orb_false_r, negb_involutive in Hguard.
        rewrite Hguard. reflexivity. }
      rewrite Hf. split; [reflexivity | discriminate].
    + apply id_guard in Hguard. destruct Hguard as (s & -> & Hs).
      cbn [as_string]. apply String.eqb_neq in Hs. rewrite Hs. cbn [negb andb].
      destruct (String.eqb_spec (trim s) opId) as [Heq | Hne].
      * rewrite Heq, Hop. cbn [snd].
        rewrite operations_with_operation, lookup_insert_eq.
        eexists. split; [reflexivity |]. split; [discriminate | reflexivity].
      * exists op. split; [| split; [reflexivity | discriminate]].
        destruct (operations t !! trim s); [| exact Hop].
        cbn [snd]. rewrite operations_with_operation.
        rewrite lookup_insert_ne by assumption. exact Hop.
  - (* onOperationProgress leaves the operations alone *)
    exists op. split; [| split; [reflexivity | discriminate]].
    unfold onOperationProgress.
    destruct (negb (truthy operationId_arg) || _); [exact Hop |].
    destruct (negb _); exact Hop.
Qed.

(** C8, as amended. Once an operation is completed, failed or cancelled,
    no sequence of [startAsyncOperation], [getOperationStatus],
    [updateOperationProgress] and [onOperationProgress] calls changes its
    state. [failOperation] is not held back by a terminal state: addressed
    to the record it sets the state to failed, so a failed operation stays
    failed under every call, while a completed or cancelled one becomes
    failed. *)
Theorem terminal_states_under_calls (calls : list Call) (t : Tracker)
    (opId : string) (op : Operation) :
  operations t !! opId = Some op ->
  terminal (status op) = true ->
  exists op', operations (run_calls calls t) !! opId = Some op' /\
    terminal (status op') = true /\
    (existsb (fails_record opId) calls = false -> status op' = status op) /\
    (existsb (fails_record opId) calls = true -> status op' = FAILED) /\
    (status op = FAILED -> status op' = FAILED).
Proof.
  revert t op. induction calls as [| c calls IH]; intros t op Hop Hterm.
  - exists op. cbn. repeat split; auto; discriminate.
  - destruct (run_call_terminal c t opId op Hop Hterm) as (op1 & Hop1 & Hkeep & Hfail).
    assert (Hterm1 : terminal (status op1) = true).
    { destruct (fails_record opId c).
      - rewrite Hfail; reflexivity.
      - rewrite Hkeep; auto. }
    destruct (IH (run_call c t) op1 Hop1 Hterm1)
      as (op' & Hop' & Hterm' & Hkeep' & Hfail' & Hstay').
    exists op'. cbn [run_calls fold_left existsb].
    split; [exact Hop' |]. split; [exact Hterm' |].
    destruct (fails_record opId c) eqn:Hc; cbn [orb].
    + specialize (Hfail eq_refl).
      assert (Hfinal : status op' = FAILED) by (apply Hstay'; exact Hfail).
      repeat split; auto; discriminate.
    + specialize (Hkeep eq_refl). rewrite <- Hkeep.
      repeat split; auto; intros Hf; apply Hstay'; congruence.
Qed.

Lemma terminal_states_under_calls_witness :
  let calls := [CallUpdate 4000 (JString "nsec3_0a1b") (JNumber (Num 10)) JUndefined;
                CallStatus {| now_test := 900000; now_stamp := 900000;
                              now_report := 900000 |} (JString "nsec3_0a1b");
                CallStart 5000 "nsec3_ffff" (Some "nsec3_0a1b") (JString "recalc")
                          (JArray [JString "z.com"])] in
  exists op', operations (run_calls calls one_completed) !! "nsec3_0a1b" = Some op' /\
              status op' = COMPLETED.
Proof.
  intros calls.
  assert (Hop : exists op, operations one_completed !! "nsec3_0a1b" = Some op
                           /\ status op = COMPLETED).
  { eexists. split; vm_compute; reflexivity. }
  destruct Hop as (op & Hop & Hst).
  destruct (terminal_states_under_calls calls one_completed "nsec3_0a1b" op Hop)
    as (op' & Hop' & _ & Hkeep & _).
  - rewrite Hst. reflexivity.
  - exists op'. split; [exact Hop' |]. rewrite <- Hst. apply Hkeep. reflexivity.
Defined.

(** C8 as worded does not hold: [failOperation] on a completed operation
    sets its state to failed. *)
Lemma terminal_states_final_refuted : ~ terminal_states_final_as_stated.
Proof.
  intros H.
  pose (calls := [CallFail 4000 (JString "nsec3_0a1b") (JString "late failure")]).
  assert (Hop : exists op, operations one_completed !! "nsec3_0a1b" = Some op
                           /\ status op = COMPLETED).
  { eexists. split; vm_compute; reflexivity. }
  destruct Hop as (op & Hop & Hst).
  assert (Hop' : exists op', operations (run_calls calls one_completed) !! "nsec3_0a1b"
                             = Some op' /\ status op' = FAILED).
  { eexists. split; vm_compute; reflexivity. }
  destruct Hop' as (op' & Hop' & Hst').
  specialize (H calls one_completed "nsec3_0a1b" op op' Hop).
  rewrite Hst in H. specialize (H eq_refl Hop'). congruence.
Qed.

End Nsec3Facts.

(** ** Error mapper *)

Section ErrorMapperFacts.
Import JS ErrorMapper.

(** C10, as amended. For every mapped error with base backoff [b] and every
    attempt number [n], [getRetryBackoff] returns [b' * 2^min(n, 3)], where
    [b'] is [b] when [b] is not zero and 1000 when it is; for [n] = 0, 1, 2,
    3 the results are [b'], [2b'], [4b'], [8b'], strictly increasing when
    [b' > 0], and for every [n >= 3] the result stays at [8b']. *)
Theorem getRetryBackoff_formula (m : MappedError) (n : nat) :
  let b' := effective_base m in
  getRetryBackoff (Some m) n = b' * 2 ^ Z.of_nat (Nat.min n 3) /\
  getRetryBackoff (Some m) 0 = b' /\
  getRetryBackoff (Some m) 1 = 2 * b' /\
  getRetryBackoff (Some m) 2 = 4 * b' /\
  getRetryBackoff (Some m) 3 = 8 * b' /\
  (0 < b' ->
     getRetryBackoff (Some m) 0 < getRetryBackoff (Some m) 1 /\
     getRetryBackoff (Some m) 1 < getRetryBackoff (Some m) 2 /\
     getRetryBackoff (Some m) 2 < getRetryBackoff (Some m) 3) /\
  ((3 <= n)%nat -> getRetryBackoff (Some m) n = 8 * b') /\
  (backoffMs (retry m) <> 0 -> b' = backoffMs (retry m)) /\
  (backoffMs (retry m) = 0 -> b' = 1000).
Proof.
  unfold getRetryBackoff, effective_base. cbv zeta.
  set (b' := if backoffMs (retry m) =? 0 then 1000 else backoffMs (retry m)).
  repeat split; try (cbn; lia).
  - intros Hn. replace (Nat.min n 3) with 3%nat by lia. cbn. lia.
  - intros Hb. subst b'. destruct (Z.eqb_spec (backoffMs (retry m)) 0); congruence.
  - intros Hb. subst b'. destruct (Z.eqb_spec (backoffMs (retry m)) 0); congruence.
Qed.

Lemma getRetryBackoff_formula_witness :
  let m := createMappedError 0 "RATE_LIMITED" (JString "rate limit") in
  getRetryBackoff (Some m) 0 = 5000 /\ getRetryBackoff (Some m) 1 = 10000 /\
  getRetryBackoff (Some m) 2 = 20000 /\ getRetryBackoff (Some m) 3 = 40000 /\
  getRetryBackoff (Some m) 10 = 40000.
Proof.
  intros m.
  destruct (getRetryBackoff_formula m 10)
    as (_ & H0 & H1 & H2 & H3 & _ & Hcap & Hb & _).
  assert (Hbase : effective_base m = 5000) by (rewrite Hb; [reflexivity | discriminate]).
  rewrite Hbase in *.
  assert (H10 : getRetryBackoff (Some m) 10 = 8 * 5000) by (apply Hcap; lia).
  exact (conj H0 (conj H1 (conj H2 (conj H3 H10)))).
Defined.

(** Every mapped error the module builds has a positive effective base. *)
Lemma createMappedError_base_positive (now : Z) (errorType : string)
    (originalMessage : JsValue) :
  0 < effective_base (createMappedError now errorType originalMessage).
Proof.
  unfold createMappedError.
  destruct (ERROR_TYPES errorType) as [[] |]; vm_compute; reflexivity.
Qed.

(** C10 as worded does not hold: a kind that is not retried is mapped with
    base backoff 0, and [getRetryBackoff] then takes 1000 as the base. *)
Lemma backoff_refuted : ~ backoff_as_stated.
Proof.
  intros H.
  specialize (H (createMappedError 0 "ENOENT" (JString "not found")) 0%nat).
  vm_compute in H. discriminate H.
Qed.

Example backoff_of_not_found :
  let m := createMappedError 0 "ENOENT" (JString "not found") in
  backoffMs (retry m) = 0 /\ getRetryBackoff (Some m) 0 = 1000 /\
  getRetryBackoff (Some m) 3 = 8000.
Proof. repeat split. Qed.

(** The classification examples of the specification. *)
Example classify_connection_refused :
  exists m, mapWhmError (fun _ => "") 0 (JString "connection refused") = Returned m /\
            type m = ECONNREFUSED /\ isRecoverable (Some m) = true.
Proof. eexists. repeat split. Qed.

Example classify_permission_denied :
  exists m, mapWhmError (fun _ => "") 0 (JString "Permission denied") = Returned m /\
            type m = EPERM /\ isRecoverable (Some m) = false.
Proof. eexists. repeat split. Qed.

End ErrorMapperFacts.

(** ** Heap values and JSON *)

Section HeapFacts.
Import JS Heap.

(** Induction on trees, with the hypothesis for every element of an array and
    every property value of an object. *)
Lemma tree_ind (P : JsValue -> Prop) :
  P JUndefined -> P JNull -> (forall b, P (JBool b)) -> (forall n, P (JNumber n)) ->
  (forall s, P (JString s)) ->
  (forall items, Forall P items -> P (JArray items)) ->
  (forall fields, Forall (fun f => P (snd f)) fields -> P (JObject fields)) ->
  (forall name, P (JFunction name)) ->
  forall t, P t.
Proof.
  intros Hu Hnull Hb Hn Hs Harr Hobj Hf.
  fix IH 1. intros [| | b | n | s | items | fields | name].
  - exact Hu.
  - exact Hnull.
  - apply Hb.
  - apply Hn.
  - apply Hs.
  - apply Harr. induction items as [| x xs IHxs]; constructor;
      [apply IH | exact IHxs].
  - apply Hobj. induction fields as [| [k x] xs IHxs]; constructor;
      [apply IH | exact IHxs].
  - apply Hf.
Qed.

Lemma json_ind (P : Json -> Prop) :
  P JsonNull -> (forall b, P (JsonBool b)) -> (forall z, P (JsonNumber z)) ->
  (forall s, P (JsonString s)) ->
  (forall items, Forall P items -> P (JsonArray items)) ->
  (forall members, Forall (fun m => P (snd m)) members -> P (JsonObject members)) ->
  forall j, P j.
Proof.
  intros Hnull Hb Hn Hs Harr Hobj.
  fix IH 1. intros [| b | z | s | items | members].
  - exact Hnull.
  - apply Hb.
  - apply Hn.
  - apply Hs.
  - apply Harr. induction items as [| x xs IHxs]; constructor;
      [apply IH | exact IHxs].
  - apply Hobj. induction members as [| [k x] xs IHxs]; constructor;
      [apply IH | exact IHxs].
Qed.

Lemma denotes_array (L : gset loc) (h : Store) (items : list JsValue) (v : Value) :
  denotes L h (JArray items) v <->
  exists l vs, v = VRef l /\ l ∈ L /\ h !! l = Some (CArray vs) /\
               Forall2 (denotes L h) items vs.
Proof.
  cbn. split; intros (l & vs & Hv & Hl & Hc & Hall); exists l, vs;
    repeat split; try assumption; clear Hc.
  - revert vs Hall. induction items as [| t ts IH]; intros [| w ws] Hall;
      try contradiction; constructor; destruct Hall; auto.
  - induction Hall; [exact I | split; assumption].
Qed.

Lemma denotes_object (L : gset loc) (h : Store) (fields : list (string * JsValue))
    (v : Value) :
  denotes L h (JObject fields) v <->
  exists l fs, v = VRef l /\ l ∈ L /\ h !! l = Some (CObject fs) /\
               Forall2 (property_denotes L h) fields fs.
Proof.
  cbn. split; intros (l & fs & Hv & Hl & Hc & Hall); exists l, fs;
    repeat split; try assumption; clear Hc.
  - revert fs Hall. induction fields as [| [k t] ts IH]; intros [| [k' w] ws] Hall;
      try contradiction; constructor; destruct Hall as (Hk & Ht & Hrest);
      try split; auto.
  - induction Hall as [| [k t] [k' w] ts ws [Hk Ht] Hrest IH]; [exact I |].
    cbn in Hk, Ht. repeat split; assumption.
Qed.

(** A denotation survives any change of the store outside the cells it
    uses, and may be read against a larger set of cells. *)
Lemma denotes_mono (L L' : gset loc) (h h' : Store) (t : JsValue) :
  L ⊆ L' -> (forall l, l ∈ L -> h' !! l = h !! l) ->
  forall v, denotes L h t v -> denotes L' h' t v.
Proof.
  intros Hsub Hsame.
  induction t as [| | b | n | s | items IH | fields IH | name] using tree_ind;
    intros v Hd; try exact Hd.
  - apply denotes_array in Hd. destruct Hd as (l & vs & -> & Hl & Hc & Hall).
    apply denotes_array. exists l, vs. repeat split; auto.
    + rewrite Hsame by assumption. exact Hc.
    + clear Hc. induction Hall as [| t w ts ws Ht Hrest IHall]; constructor.
      * inversion IH; subst. auto.
      * apply IHall. inversion IH; subst. assumption.
  - apply denotes_object in Hd. destruct Hd as (l & fs & -> & Hl & Hc & Hall).
    apply denotes_object. exists l, fs. repeat split; auto.
    + rewrite Hsame by assumption. exact Hc.
    + clear Hc. induction Hall as [| f g ts ws [Hk Ht] Hrest IHall]; constructor.
      * inversion IH; subst. split; auto.
      * apply IHall. inversion IH; subst. assumption.
  - destruct Hd as (l & -> & Hl & Hc). exists l. repeat split; auto.
    rewrite Hsame by assumption. exact Hc.
Qed.

(** A value has at most one tree. *)
Lemma denotes_functional (L L' : gset loc) (h : Store) (t : JsValue) :
  forall t' v, denotes L h t v -> denotes L' h t' v -> t = t'.
Proof.
  induction t as [| | b | n | s | items IH | fields IH | name] using tree_ind;
    intros t' v Hd Hd'.
  1-5: cbn in Hd; subst v;
    destruct t' as [| | b' | n' | s' | items' | fields' | name'];
    cbn in Hd'; try congruence;
    try (destruct Hd' as (l & Hd' & _); discriminate);
    try (destruct Hd' as (l & vs & Hd' & _); discriminate).
  - apply denotes_array in Hd. destruct Hd as (l & vs & -> & _ & Hc & Hall).
    destruct t' as [| | b' | n' | s' | items' | fields' | name'];
      try (cbn in Hd'; discriminate).
    + apply denotes_array in Hd'.
      destruct Hd' as (l' & vs' & Heq & _ & Hc' & Hall').
      injection Heq as <-. rewrite Hc in Hc'. injection Hc' as <-.
      f_equal. clear Hc. revert items' Hall'.
      induction Hall as [| t w ts ws Ht Hrest IHall]; intros items' Hall';
        inversion Hall'; subst; [reflexivity |].
      inversion IH; subst. f_equal; eauto.
    + apply denotes_object in Hd'.
      destruct Hd' as (l' & fs' & Heq & _ & Hc' & _).
      injection Heq as <-. congruence.
    + destruct Hd' as (l' & Heq & _ & Hc'). injection Heq as <-. congruence.
  - apply denotes_object in Hd. destruct Hd as (l & fs & -> & _ & Hc & Hall).
    destruct t' as [| | b' | n' | s' | items' | fields' | name'];
      try (cbn in Hd'; discriminate).
    + apply denotes_array in Hd'.
      destruct Hd' as (l' & vs' & Heq & _ & Hc' & _).
      injection Heq as <-. congruence.
    + apply denotes_object in Hd'.
      destruct Hd' as (l' & fs' & Heq & _ & Hc' & Hall').
      injection Heq as <-. rewrite Hc in Hc'. injection Hc' as <-.
      f_equal. clear Hc. revert fields' Hall'.
      induction Hall as [| [k t] [k' w] ts ws [Hk Ht] Hrest IHall];
        intros fields' Hall'; inversion Hall' as [| [k2 t2] g ts2 ws2 [Hk2 Ht2] Hrest2];
        subst; [reflexivity |].
      cbn in *. subst. inversion IH; subst. cbn in *. f_equal; eauto.
      f_equal. eauto.
    + destruct Hd' as (l' & Heq & _ & Hc'). injection Heq as <-. congruence.
  - destruct Hd as (l & -> & _ & Hc).
    destruct t' as [| | b' | n' | s' | items' | fields' | name'];
      try (cbn in Hd'; discriminate).
    + apply denotes_array in Hd'.
      destruct Hd' as (l' & vs' & Heq & _ & Hc' & _).
      injection Heq as <-. congruence.
    + apply denotes_object in Hd'.
      destruct Hd' as (l' & fs' & Heq & _ & Hc' & _).
      injection Heq as <-. congruence.
    + destruct Hd' as (l' & Heq & _ & Hc'). injection Heq as <-. congruence.
Qed.

Lemma tree_size_element (items : list JsValue) (t : JsValue) :
  t ∈ items -> (tree_size t < tree_size (JArray items))%nat.
Proof.
  intros Hin. cbn. induction Hin as [t ts | t u ts Hin IH]; cbn in *; lia.
Qed.

Lemma tree_size_property (fields : list (string * JsValue)) (f : string * JsValue) :
  f ∈ fields -> (tree_size (snd f) < tree_size (JObject fields))%nat.
Proof.
  intros Hin. cbn. induction Hin as [[k t] ts | [k t] [k' u] ts Hin IH]; cbn in *; lia.
Qed.

(** Distinct cells of a store are no more than the store holds. *)
Lemma stack_bound (h : Store) (stack : list loc) :
  NoDup stack -> (forall l, l ∈ stack -> l ∈ dom h) ->
  (length stack <= size h)%nat.
Proof.
  intros Hnd Hin. rewrite <- size_dom. unfold size, set_size. cbn.
  apply submseteq_length, NoDup_submseteq; [exact Hnd |].
  intros l Hl. apply elem_of_elements. auto.
Qed.

Lemma enclosing_room (L : gset loc) (h : Store) (stack : list loc)
    (t : JsValue) (l : loc) (c : Cell) :
  enclosing L h stack t ->
  denotes L h t (VRef l) -> h !! l = Some c ->
  (l ∉ stack) /\ (S (length stack) <= size h)%nat.
Proof.
  intros [Hnd Hanc] Hd Hc.
  assert (Hfresh : l ∉ stack).
  { intros Hl. destruct (Hanc l Hl) as (_ & t' & Hd' & Hlt').
    rewrite (denotes_functional _ _ _ _ _ _ Hd Hd') in Hlt'. lia. }
  split; [exact Hfresh |].
  apply (stack_bound h (l :: stack)); [constructor; assumption |].
  intros l' Hl'. apply elem_of_cons in Hl'. destruct Hl' as [-> | Hl'].
  - apply elem_of_dom. eauto.
  - apply Hanc, Hl'.
Qed.

Lemma enclosing_push (L : gset loc) (h : Store) (stack : list loc)
    (t child : JsValue) (l : loc) (c : Cell) :
  enclosing L h stack t ->
  denotes L h t (VRef l) -> h !! l = Some c ->
  (tree_size child < tree_size t)%nat ->
  enclosing L h (l :: stack) child.
Proof.
  intros Henc Hd Hc Hlt.
  destruct (enclosing_room _ _ _ _ _ _ Henc Hd Hc) as [Hfresh _].
  destruct Henc as [Hnd Hanc].
  split; [constructor; assumption |].
  intros l' Hl'. apply elem_of_cons in Hl'. destruct Hl' as [-> | Hl'].
  - split; [apply elem_of_dom; eauto |]. exists t. split; assumption.
  - destruct (Hanc l' Hl') as (Hdom & t' & Hd' & Hlt').
    split; [exact Hdom |]. exists t'. split; [assumption | lia].
Qed.

Lemma stringify_tree_array (items : list JsValue) :
  stringify_tree (JArray items) = Some (JsonArray (map stringify_element items)).
Proof.
  reflexivity.
Qed.

Lemma stringify_tree_object (fields : list (string * JsValue)) :
  stringify_tree (JObject fields) = Some (JsonObject (omap stringify_member fields)).
Proof.
  cbn. do 2 f_equal. induction fields as [| [k t] ts IH]; cbn; [reflexivity |].
  rewrite IH. unfold stringify_member. cbn. destruct (stringify_tree t); reflexivity.
Qed.

(** [JSON.stringify] of a value that has a tree is [stringify_tree] of the
    tree: it never meets the circular structure error and never runs out of
    its budget. *)
Lemma serialize_denotes (L : gset loc) (h : Store) (t : JsValue) :
  forall (v : Value) (stack : list loc) (fuel : nat),
    denotes L h t v ->
    enclosing L h stack t ->
    (S (size h) <= fuel + length stack)%nat ->
    serialize fuel h stack v = Ok (stringify_tree t).
Proof.
  induction t as [| | b | n | s | items IH | fields IH | name] using tree_ind;
    intros v stack fuel Hd Henc Hfuel.
  1-5: (cbn in Hd; subst v; destruct fuel; try reflexivity).
  1-2: (destruct n; reflexivity).
  - pose proof Hd as Hd0.
    apply denotes_array in Hd. destruct Hd as (l & vs & -> & Hl & Hc & Hall).
    destruct (enclosing_room _ _ _ _ _ _ Henc Hd0 Hc) as [Hfresh Hroom].
    destruct fuel as [| fuel']; [lia |].
    cbn [serialize]. rewrite Hc. rewrite bool_decide_eq_false_2 by exact Hfresh.
    rewrite stringify_tree_array.
    assert (Hser : serialize_elements (serialize fuel' h (l :: stack)) vs
                   = Ok (map stringify_element items)).
    { assert (Hpush : forall t, t ∈ items -> enclosing L h (l :: stack) t).
      { intros t Ht. eapply enclosing_push; eauto using tree_size_element. }
      assert (Hfuel' : (S (size h) <= fuel' + length (l :: stack))%nat)
        by (cbn; lia).
      clear Hd0 Hc Henc Hfresh Hroom Hfuel.
      induction Hall as [| t w ts ws Ht Hrest IHall]; [reflexivity |].
      cbn [serialize_elements map].
      inversion IH as [| ? ? IHt IHts]; subst.
      assert (Hin : t ∈ t :: ts) by left.
      rewrite (IHt w (l :: stack) fuel' Ht (Hpush t Hin) Hfuel').
      rewrite IHall; [reflexivity | exact IHts |].
      intros u Hu. apply Hpush. right. exact Hu. }
    rewrite Hser. reflexivity.
  - pose proof Hd as Hd0.
    apply denotes_object in Hd. destruct Hd as (l & fs & -> & Hl & Hc & Hall).
    destruct (enclosing_room _ _ _ _ _ _ Henc Hd0 Hc) as [Hfresh Hroom].
    destruct fuel as [| fuel']; [lia |].
    cbn [serialize]. rewrite Hc. rewrite bool_decide_eq_false_2 by exact Hfresh.
    rewrite stringify_tree_object.
    assert (Hser : serialize_members (serialize fuel' h (l :: stack)) fs
                   = Ok (omap stringify_member fields)).
    { assert (Hpush : forall f, f ∈ fields -> enclosing L h (l :: stack) (snd f)).
      { intros f Hf. eapply enclosing_push; eauto using tree_size_property. }
      assert (Hfuel' : (S (size h) <= fuel' + length (l :: stack))%nat)
        by (cbn; lia).
      clear Hd0 Hc Henc Hfresh Hroom Hfuel.
      induction Hall as [| [k t] [k' w] ts ws [Hk Ht] Hrest IHall]; [reflexivity |].
      cbn in Hk, Ht. subst k'.
      cbn [serialize_members].
      inversion IH as [| ? ? IHt IHts]; subst. cbn in IHt.
      assert (Hin : (k, t) ∈ (k, t) :: ts) by left.
      rewrite (IHt w (l :: stack) fuel' Ht (Hpush (k, t) Hin) Hfuel').
      rewrite IHall; [| exact IHts | intros u Hu; apply Hpush; right; exact Hu].
      cbn [omap list_omap]. unfold stringify_member. cbn [fst snd].
      destruct (stringify_tree t); reflexivity. }
    rewrite Hser. reflexivity.
  - destruct Hd as (l & -> & Hl & Hc).
    destruct fuel; cbn [serialize]; rewrite Hc; reflexivity.
Qed.

Theorem JSON_stringify_denotes (L : gset loc) (h : Store) (t : JsValue) (v : Value) :
  denotes L h t v -> JSON_stringify h v = Ok (stringify_tree t).
Proof.
  intros Hd. unfold JSON_stringify. apply (serialize_denotes L); [exact Hd | |].
  - split; [constructor |]. intros l Hl. inversion Hl.
  - cbn. lia.
Qed.

Lemma JSON_parse_array (items : list Json) (h : Store) :
  JSON_parse (JsonArray items) h =
    let '(values, h1) := parse_elements items h in
    let l := fresh (dom h1) in
    (VRef l, <[l := CArray values]> h1).
Proof. reflexivity. Qed.

Lemma JSON_parse_object (members : list (string * Json)) (h : Store) :
  JSON_parse (JsonObject members) h =
    let '(fields, h1) := parse_members members h in
    let l := fresh (dom h1) in
    (VRef l, <[l := CObject fields]> h1).
Proof. reflexivity. Qed.

Lemma built_weaken (h0 h1 h2 h3 : Store) (t : JsValue) (v : Value) :
  h0 ⊆ h1 -> built h1 h2 t v -> h2 ⊆ h3 -> built h0 h3 t v.
Proof.
  intros H01 [H12 Hd] H23. split.
  - etransitivity; [exact H01 |]. etransitivity; eassumption.
  - eapply denotes_mono; [| | exact Hd].
    + pose proof (subseteq_dom _ _ H01) as Hdom01.
      pose proof (subseteq_dom _ _ H23) as Hdom23.
      intros l Hl. apply elem_of_difference in Hl. destruct Hl as [Hl Hn].
      apply elem_of_difference. split; [apply Hdom23, Hl |].
      intros Hin. apply Hn, Hdom01, Hin.
    + intros l Hl. apply elem_of_difference in Hl. destruct Hl as [Hl _].
      apply elem_of_dom in Hl. destruct Hl as [c Hc].
      rewrite Hc. eapply lookup_weaken; eassumption.
Qed.

Lemma store_alloc (h : Store) (c : Cell) :
  h ⊆ <[fresh (dom h) := c]> h.
Proof. apply insert_subseteq, not_elem_of_dom, is_fresh. Qed.

(** [JSON.parse] builds its result out of new cells only. *)
Lemma JSON_parse_built (j : Json) :
  forall h, built h (snd (JSON_parse j h)) (tree_of_json j) (fst (JSON_parse j h)).
Proof.
  induction j as [| b | z | s | items IH | members IH] using json_ind; intros h.
  1-4: (split; [reflexivity | reflexivity]).
  - rewrite JSON_parse_array.
    assert (Hlist : h ⊆ snd (parse_elements items h) /\
              Forall2 (fun t v => forall h3, snd (parse_elements items h) ⊆ h3 ->
                                  built h h3 t v)
                      (map tree_of_json items) (fst (parse_elements items h))).
    { clear -IH. revert h. induction items as [| j rest IHrest]; intros h.
      - split; [reflexivity | constructor].
      - inversion IH as [| ? ? IHj IHtail]; subst.
        specialize (IHrest IHtail). cbn [parse_elements map].
        specialize (IHj h).
        destruct (JSON_parse j h) as [v h1]. cbn [fst snd] in IHj.
        specialize (IHrest h1).
        destruct (parse_elements rest h1) as [vs h2]. cbn [fst snd] in *.
        destruct IHrest as [H12 Hall]. destruct IHj as [H01 Hd]. split.
        + etransitivity; eassumption.
        + constructor.
          * intros h3 H23. eapply (built_weaken h h h1 h3);
              [reflexivity | split; assumption | etransitivity; eassumption].
          * eapply Forall2_impl; [exact Hall |]. cbn. intros t w Hb h3 H23.
            eapply (built_weaken h h1 h3 h3); [exact H01 | auto | reflexivity]. }
    destruct (parse_elements items h) as [values h1]. cbn [fst snd] in *.
    destruct Hlist as [H01 Hall]. cbv zeta. cbn [fst snd].
    pose proof (store_alloc h1 (CArray values)) as Halloc.
    split; [etransitivity; eassumption |].
    cbn [tree_of_json]. apply denotes_array.
    exists (fresh (dom h1)), values. repeat split.
    + apply elem_of_difference. split.
      * rewrite dom_insert_L. set_solver.
      * intros Hin. apply (is_fresh (dom h1)).
        apply subseteq_dom in H01. set_solver.
    + apply lookup_insert_eq.
    + eapply Forall2_impl; [exact Hall |]. cbn. intros t w Hb.
      apply (Hb _ Halloc).
  - rewrite JSON_parse_object.
    assert (Hlist : h ⊆ snd (parse_members members h) /\
              Forall2 (fun f g => forall h3, snd (parse_members members h) ⊆ h3 ->
                                  fst f = fst g /\ built h h3 (snd f) (snd g))
                      (map (fun m : string * Json => (fst m, tree_of_json (snd m)))
                           members)
                      (fst (parse_members members h))).
    { clear -IH. revert h. induction members as [| [k j] rest IHrest]; intros h.
      - split; [reflexivity | constructor].
      - inversion IH as [| ? ? IHj IHtail]; subst.
        specialize (IHrest IHtail). cbn [parse_members map].
        cbn [snd] in IHj. specialize (IHj h).
        destruct (JSON_parse j h) as [v h1]. cbn [fst snd] in IHj.
        specialize (IHrest h1).
        destruct (parse_members rest h1) as [fs h2]. cbn [fst snd] in *.
        destruct IHrest as [H12 Hall]. destruct IHj as [H01 Hd]. split.
        + etransitivity; eassumption.
        + constructor.
          * intros h3 H23. split; [reflexivity |].
            eapply (built_weaken h h h1 h3);
              [reflexivity | split; assumption | etransitivity; eassumption].
          * eapply Forall2_impl; [exact Hall |]. cbn. intros f g Hb h3 H23.
            destruct (Hb h3 H23) as [Hk Hbuilt]. split; [exact Hk |].
            eapply (built_weaken h h1 h3 h3); [exact H01 | auto | reflexivity]. }
    destruct (parse_members members h) as [fields h1]. cbn [fst snd] in *.
    destruct Hlist as [H01 Hall]. cbv zeta. cbn [fst snd].
    pose proof (store_alloc h1 (CObject fields)) as Halloc.
    split; [etransitivity; eassumption |].
    cbn [tree_of_json]. apply denotes_object.
    exists (fresh (dom h1)), fields. repeat split.
    + apply elem_of_difference. split.
      * rewrite dom_insert_L. set_solver.
      * intros Hin. apply (is_fresh (dom h1)).
        apply subseteq_dom in H01. set_solver.
    + apply lookup_insert_eq.
    + eapply Forall2_impl; [exact Hall |]. cbn. intros f g Hb.
      destruct (Hb _ Halloc) as [Hk [_ Hd]]. split; assumption.
Qed.

(** The tree of a cell is larger than the tree of anything the cell holds, so
    a cell on a cycle has no tree. *)
Lemma denotes_refers (L : gset loc) (h : Store) (t : JsValue) (l l' : loc) :
  denotes L h t (VRef l) -> refers h l l' ->
  exists t', denotes L h t' (VRef l') /\ (tree_size t' < tree_size t)%nat.
Proof.
  intros Hd (c & Hc & Hin).
  destruct t as [| | b | n | s | items | fields | name];
    try (cbn in Hd; discriminate).
  - apply denotes_array in Hd. destruct Hd as (l1 & vs & Heq & _ & Hc1 & Hall).
    injection Heq as <-. rewrite Hc in Hc1. injection Hc1 as ->.
    cbn [cell_values] in Hin.
    apply list_elem_of_lookup in Hin. destruct Hin as [i Hi].
    destruct (Forall2_lookup_r _ _ _ _ _ Hall Hi) as (t' & Ht' & Hdt').
    exists t'. split; [exact Hdt' |].
    apply tree_size_element, list_elem_of_lookup. eauto.
  - apply denotes_object in Hd. destruct Hd as (l1 & fs & Heq & _ & Hc1 & Hall).
    injection Heq as <-. rewrite Hc in Hc1. injection Hc1 as ->.
    cbn [cell_values] in Hin.
    apply list_elem_of_fmap in Hin. destruct Hin as (g & Hg & Hin).
    apply list_elem_of_lookup in Hin. destruct Hin as [i Hi].
    destruct (Forall2_lookup_r _ _ _ _ _ Hall Hi) as (f & Hf & _ & Hdf).
    exists (snd f). split; [rewrite Hg; exact Hdf |].
    apply tree_size_property, list_elem_of_lookup. eauto.
  - destruct Hd as (l1 & Heq & _ & Hc1). injection Heq as <-.
    rewrite Hc in Hc1. injection Hc1 as ->. inversion Hin.
Qed.

Lemma denotes_reached (L : gset loc) (h : Store) (l l' : loc) :
  rtc (refers h) l l' ->
  forall t, denotes L h t (VRef l) -> exists t', denotes L h t' (VRef l').
Proof.
  induction 1 as [l | l m l' Hstep Hrest IH]; intros t Hd; [eauto |].
  destruct (denotes_refers _ _ _ _ _ Hd Hstep) as (t1 & Hd1 & _). eauto.
Qed.

Lemma denotes_descends (L : gset loc) (h : Store) (l l' : loc) :
  tc (refers h) l l' ->
  forall t, denotes L h t (VRef l) ->
  exists t', denotes L h t' (VRef l') /\ (tree_size t' < tree_size t)%nat.
Proof.
  induction 1 as [l l' Hstep | l m l' Hstep Hrest IH]; intros t Hd.
  - eapply denotes_refers; eassumption.
  - destruct (denotes_refers _ _ _ _ _ Hd Hstep) as (t1 & Hd1 & Hlt1).
    destruct (IH t1 Hd1) as (t' & Hd' & Hlt'). exists t'. split; [exact Hd' | lia].
Qed.

Lemma cycle_has_no_tree (L : gset loc) (h : Store) (v : Value) (t : JsValue) :
  has_cycle h v -> ~ denotes L h t v.
Proof.
  intros (l0 & l & -> & Hreach & Hcycle) Hd.
  destruct (denotes_reached _ _ _ _ Hreach t Hd) as (t1 & Hd1).
  destruct (denotes_descends _ _ _ _ Hcycle t1 Hd1) as (t2 & Hd2 & Hlt).
  rewrite (denotes_functional _ _ _ _ _ _ Hd1 Hd2) in Hlt. lia.
Qed.

(** The budget of [JSON_stringify] is never used up, whatever the value:
    the stack holds distinct cells of the store, and each level of nesting
    adds one. *)
Lemma serialize_members_failure (ser : Value -> Result (option Json))
    (fields : list (string * Value)) (e : Failure) :
  serialize_members ser fields = Err e ->
  exists f, f ∈ fields /\ ser (snd f) = Err e.
Proof.
  induction fields as [| [k v] rest IH]; cbn [serialize_members]; [discriminate |].
  destruct (ser v) as [element | e'] eqn:Hv.
  - destruct (serialize_members ser rest) as [members | e'']; [discriminate |].
    intros Heq. injection Heq as ->.
    destruct (IH eq_refl) as (f & Hf & He). exists f. split; [right; exact Hf | exact He].
  - intros Heq. injection Heq as ->. exists (k, v). split; [left | exact Hv].
Qed.

Lemma serialize_elements_failure (ser : Value -> Result (option Json))
    (items : list Value) (e : Failure) :
  serialize_elements ser items = Err e ->
  exists v, v ∈ items /\ ser v = Err e.
Proof.
  induction items as [| v rest IH]; cbn [serialize_elements]; [discriminate |].
  destruct (ser v) as [element | e'] eqn:Hv.
  - destruct (serialize_elements ser rest) as [elements | e'']; [discriminate |].
    intros Heq. injection Heq as ->.
    destruct (IH eq_refl) as (w & Hw & He). exists w. split; [right; exact Hw | exact He].
  - intros Heq. injection Heq as ->. exists v. split; [left | exact Hv].
Qed.

Lemma serialize_within_budget (h : Store) (fuel : nat) :
  forall (stack : list loc) (v : Value),
    NoDup stack -> (forall l, l ∈ stack -> l ∈ dom h) ->
    (S (size h) <= fuel + length stack)%nat ->
    serialize fuel h stack v <> Err Exhausted.
Proof.
  induction fuel as [| fuel IH]; intros stack v Hnd Hdom Hfuel;
    destruct v as [| | b | [z | | |] | s | l]; cbn [serialize]; try discriminate.
  - destruct (h !! l) as [[fields | items | name] |] eqn:Hc; try discriminate;
      destruct (bool_decide (l ∈ stack)) eqn:Hin; try discriminate;
      apply bool_decide_eq_false in Hin;
      (assert (Hroom : (length (l :: stack) <= size h)%nat);
       [apply stack_bound; [constructor; assumption |];
        intros l' Hl'; apply elem_of_cons in Hl'; destruct Hl' as [-> | Hl'];
        [apply elem_of_dom; eauto | auto]
       | cbn in Hroom; lia]).
  - destruct (h !! l) as [[fields | items | name] |] eqn:Hc; try discriminate;
      destruct (bool_decide (l ∈ stack)) eqn:Hin; try discriminate;
      apply bool_decide_eq_false in Hin.
    + assert (Hnext : forall v, serialize fuel h (l :: stack) v <> Err Exhausted).
      { intros v. apply IH; [constructor; assumption | | cbn; lia].
        intros l' Hl'. apply elem_of_cons in Hl'. destruct Hl' as [-> | Hl'];
          [apply elem_of_dom; eauto | auto]. }
      destruct (serialize_members _ fields) as [members | e] eqn:Hm; [discriminate |].
      intros Heq. injection Heq as ->.
      destruct (serialize_members_failure _ _ _ Hm) as (f & _ & Hf).
      exact (Hnext _ Hf).
    + assert (Hnext : forall v, serialize fuel h (l :: stack) v <> Err Exhausted).
      { intros v. apply IH; [constructor; assumption | | cbn; lia].
        intros l' Hl'. apply elem_of_cons in Hl'. destruct Hl' as [-> | Hl'];
          [apply elem_of_dom; eauto | auto]. }
      destruct (serialize_elements _ items) as [elements | e] eqn:Hm; [discriminate |].
      intros Heq. injection Heq as ->.
      destruct (serialize_elements_failure _ _ _ Hm) as (w & _ & Hw).
      exact (Hnext _ Hw).
Qed.

Theorem JSON_stringify_within_budget (h : Store) (v : Value) :
  JSON_stringify h v <> Err Exhausted.
Proof.
  unfold JSON_stringify. apply serialize_within_budget.
  - constructor.
  - intros l Hl. inversion Hl.
  - cbn. lia.
Qed.

(** Conversely to [serialize_denotes]: what [JSON.stringify] returns is the
    text of a tree the value has. *)
Lemma serialize_sound (h : Store) (fuel : nat) :
  forall (stack : list loc) (v : Value) (r : option Json),
    serialize fuel h stack v = Ok r ->
    exists t, denotes (dom h) h t v /\ stringify_tree t = r.
Proof.
  induction fuel as [| fuel IH]; intros stack v r Hser.
  - destruct v as [| | b | [z | | |] | s | l]; cbn in Hser;
      try (injection Hser as <-).
    + exists JUndefined. split; reflexivity.
    + exists JNull. split; reflexivity.
    + exists (JBool b). split; reflexivity.
    + exists (JNumber (Num z)). split; reflexivity.
    + exists (JNumber NaN). split; reflexivity.
    + exists (JNumber PosInf). split; reflexivity.
    + exists (JNumber NegInf). split; reflexivity.
    + exists (JString s). split; reflexivity.
    + destruct (h !! l) as [[fields | items | name] |] eqn:Hc; try discriminate;
        try (destruct (bool_decide (l ∈ stack)); discriminate).
      injection Hser as <-. exists (JFunction name). split; [| reflexivity].
      exists l. repeat split; [apply elem_of_dom; eauto | exact Hc].
  - destruct v as [| | b | [z | | |] | s | l]; cbn [serialize] in Hser;
      try (injection Hser as <-).
    + exists JUndefined. split; reflexivity.
    + exists JNull. split; reflexivity.
    + exists (JBool b). split; reflexivity.
    + exists (JNumber (Num z)). split; reflexivity.
    + exists (JNumber NaN). split; reflexivity.
    + exists (JNumber PosInf). split; reflexivity.
    + exists (JNumber NegInf). split; reflexivity.
    + exists (JString s). split; reflexivity.
    + destruct (h !! l) as [[fields | items | name] |] eqn:Hc; try discriminate.
      * destruct (bool_decide (l ∈ stack)); [discriminate |].
        destruct (serialize_members (serialize fuel h (l :: stack)) fields)
          as [members | e] eqn:Hm; [| discriminate].
        injection Hser as <-.
        assert (Htrees : exists ts, Forall2 (property_denotes (dom h) h) ts fields
                                    /\ omap stringify_member ts = members).
        { clear Hc. revert members Hm.
          induction fields as [| [k v] rest IHrest]; intros members Hm.
          - injection Hm as <-. exists []. split; [constructor | reflexivity].
          - cbn [serialize_members] in Hm.
            destruct (serialize fuel h (l :: stack) v) as [element | e] eqn:Hv;
              [| discriminate].
            destruct (serialize_members (serialize fuel h (l :: stack)) rest)
              as [members' | e] eqn:Hrest; [| discriminate].
            injection Hm as <-.
            destruct (IH _ _ _ Hv) as (t & Ht & Hst).
            destruct (IHrest members' eq_refl) as (ts & Hts & Hmem).
            exists ((k, t) :: ts). split.
            + constructor; [split; [reflexivity | exact Ht] | exact Hts].
            + cbn [omap list_omap]. unfold stringify_member at 1. cbn [fst snd].
              rewrite Hst, Hmem. destruct element; reflexivity. }
        destruct Htrees as (ts & Hts & Hmem).
        exists (JObject ts). split.
        -- apply denotes_object. exists l, fields.
           repeat split; [apply elem_of_dom; eauto | exact Hc | exact Hts].
        -- rewrite stringify_tree_object, Hmem. reflexivity.
      * destruct (bool_decide (l ∈ stack)); [discriminate |].
        destruct (serialize_elements (serialize fuel h (l :: stack)) items)
          as [elements | e] eqn:Hm; [| discriminate].
        injection Hser as <-.
        assert (Htrees : exists ts, Forall2 (denotes (dom h) h) ts items
                                    /\ map stringify_element ts = elements).
        { clear Hc. revert elements Hm.
          induction items as [| v rest IHrest]; intros elements Hm.
          - injection Hm as <-. exists []. split; [constructor | reflexivity].
          - cbn [serialize_elements] in Hm.
            destruct (serialize fuel h (l :: stack) v) as [element | e] eqn:Hv;
              [| discriminate].
            destruct (serialize_elements (serialize fuel h (l :: stack)) rest)
              as [elements' | e] eqn:Hrest; [| discriminate].
            injection Hm as <-.
            destruct (IH _ _ _ Hv) as (t & Ht & Hst).
            destruct (IHrest elements' eq_refl) as (ts & Hts & Hmem).
            exists (t :: ts). split; [constructor; assumption |].
            cbn [map]. unfold stringify_element at 1. rewrite Hst, Hmem.
            reflexivity. }
        destruct Htrees as (ts & Hts & Hmem).
        exists (JArray ts). split.
        -- apply denotes_array. exists l, items.
           repeat split; [apply elem_of_dom; eauto | exact Hc | exact Hts].
        -- rewrite stringify_tree_array, Hmem. reflexivity.
      * injection Hser as <-. exists (JFunction name). split; [| reflexivity].
        exists l. repeat split; [apply elem_of_dom; eauto | exact Hc].
Qed.

(** [JSON.stringify] returns exactly on the values that have a tree; it
    fails on every value with a reference cycle. *)
Theorem JSON_stringify_returns_iff (h : Store) (v : Value) (r : option Json) :
  JSON_stringify h v = Ok r <->
  exists t, denotes (dom h) h t v /\ stringify_tree t = r.
Proof.
  split.
  - apply serialize_sound.
  - intros (t & Hd & <-). eapply JSON_stringify_denotes, Hd.
Qed.

Lemma cycle_not_serializable (h : Store) (v : Value) (r : option Json) :
  has_cycle h v -> JSON_stringify h v <> Ok r.
Proof.
  intros Hcycle Hok. apply JSON_stringify_returns_iff in Hok.
  destruct Hok as (t & Hd & _). exact (cycle_has_no_tree _ _ _ _ Hcycle Hd).
Qed.

(** A tree JSON can express is what its JSON text stands for. *)
Lemma stringify_tree_plain (t : JsValue) :
  json_plain t = true ->
  exists j, stringify_tree t = Some j /\ tree_of_json j = t.
Proof.
  induction t as [| | b | n | s | items IH | fields IH | name] using tree_ind;
    intros Hplain; try discriminate.
  - exists JsonNull. split; reflexivity.
  - exists (JsonBool b). split; reflexivity.
  - destruct n as [z | | |]; try discriminate.
    exists (JsonNumber z). split; reflexivity.
  - exists (JsonString s). split; reflexivity.
  - rewrite stringify_tree_array. eexists. split; [reflexivity |].
    cbn [tree_of_json]. f_equal. cbn [json_plain] in Hplain.
    induction items as [| t ts IHts]; [reflexivity |].
    cbn [forallb] in Hplain. apply andb_prop in Hplain. destruct Hplain as [Ht Hts].
    inversion IH as [| ? ? IHt IHtail]; subst.
    cbn [map]. f_equal; [| apply IHts; assumption].
    destruct (IHt Ht) as (j & Hj & Hback).
    unfold stringify_element. rewrite Hj. exact Hback.
  - rewrite stringify_tree_object. eexists. split; [reflexivity |].
    cbn [tree_of_json]. f_equal. cbn [json_plain] in Hplain.
    induction fields as [| [k t] ts IHts]; [reflexivity |].
    cbn [forallb snd] in Hplain. apply andb_prop in Hplain.
    destruct Hplain as [Ht Hts].
    inversion IH as [| ? ? IHt IHtail]; subst. cbn [snd] in IHt.
    destruct (IHt Ht) as (j & Hj & Hback).
    cbn [omap list_omap]. unfold stringify_member at 1. cbn [fst snd].
    rewrite Hj. cbn [map fst snd]. rewrite Hback.
    f_equal. apply IHts; assumption.
Qed.

(** An object or an array always has a JSON text. *)
Lemma stringify_tree_structure (t : JsValue) :
  is_structure t = true -> exists j, stringify_tree t = Some j.
Proof.
  destruct t; try discriminate; intros _.
  - rewrite stringify_tree_array. eauto.
  - rewrite stringify_tree_object. eauto.
Qed.

Lemma denotes_structure (L : gset loc) (h : Store) (t : JsValue) (v : Value) :
  denotes L h t v -> is_structure t = true ->
  truthy v = true /\ typeof h v = "object".
Proof.
  destruct t; try discriminate; intros Hd _.
  - apply denotes_array in Hd. destruct Hd as (l & vs & -> & _ & Hc & _).
    cbn. rewrite Hc. split; reflexivity.
  - apply denotes_object in Hd. destruct Hd as (l & fs & -> & _ & Hc & _).
    cbn. rewrite Hc. split; reflexivity.
Qed.

End HeapFacts.

(** ** Transaction log *)

Section TransactionLogFacts.
Import JS Heap TransactionLog.

Lemma denotes_extend (L : gset loc) (h h' : Store) (t : JsValue) (v : Value) :
  denotes L h t v -> L ⊆ dom h -> h ⊆ h' -> denotes L h' t v.
Proof.
  intros Hd HL Hsub. eapply denotes_mono; [reflexivity | | exact Hd].
  intros l Hl. apply HL, elem_of_dom in Hl. destruct Hl as [c Hc].
  rewrite Hc. eapply lookup_weaken; eassumption.
Qed.

(** [beginTransaction] on an object or array that has a tree: two copies are
    built out of new cells, one returned and stored as the backup, one stored
    as the operation data. *)
Lemma beginTransaction_returns (now : Z) (id : string) (P : Value) (w : World)
    (t : JsValue) :
  denotes (dom (heap w)) (heap w) t P ->
  is_structure t = true ->
  exists j b c h1 h2,
    stringify_tree t = Some j /\
    built (heap w) h1 (tree_of_json j) b /\
    built h1 h2 (tree_of_json j) c /\
    beginTransaction now id P w =
      (Returned {| begin_transactionId := id; begin_status := PENDING;
                   begin_backup := b |},
       {| heap := h2;
          transactions :=
            <[id := {| operationData := c; backup := b; status := PENDING;
                       timestamp := now; completedAt := None |}]>
              (transactions w) |}).
Proof.
  intros Hd Hst.
  destruct (stringify_tree_structure t Hst) as [j Hj].
  destruct (denotes_structure _ _ _ _ Hd Hst) as [Htruthy Htype].
  pose proof (JSON_parse_built j (heap w)) as Hb.
  destruct (JSON_parse j (heap w)) as [b h1] eqn:Hparse1. cbn [fst snd] in Hb.
  pose proof (JSON_parse_built j h1) as Hc.
  destruct (JSON_parse j h1) as [c h2] eqn:Hparse2. cbn [fst snd] in Hc.
  exists j, b, c, h1, h2. repeat split; try assumption; try apply Hb; try apply Hc.
  unfold beginTransaction. rewrite Htruthy, Htype. cbn [negb orb String.eqb].
  replace (String.eqb "object" "object") with true by reflexivity.
  cbn [negb orb].
  rewrite (JSON_stringify_denotes _ _ _ _ Hd), Hj, Hparse1.
  assert (Hd1 : denotes (dom (heap w)) h1 t P)
    by (eapply denotes_extend; [exact Hd | reflexivity | apply Hb]).
  rewrite (JSON_stringify_denotes _ _ _ _ Hd1), Hj, Hparse2.
  reflexivity.
Qed.

Lemma id_guard_passes (id : string) :
  id <> "" ->
  negb (JS.truthy (JString id)) || negb (String.eqb (JS.typeof (JString id)) "string")
    = false.
Proof. intros Hid. apply String.eqb_neq in Hid. cbn. rewrite Hid. reflexivity. Qed.

(** [rollbackTransaction] on a pending transaction whose stored backup has a
    tree: a further copy is built out of new cells and returned. *)
Lemma rollbackTransaction_returns (now : Z) (id : string) (w : World)
    (txn : Transaction) (L : gset loc) (t : JsValue) :
  id <> "" -> trim id = id ->
  transactions w !! id = Some txn -> status txn = PENDING ->
  denotes L (heap w) t (backup txn) -> is_structure t = true ->
  exists j b h1,
    stringify_tree t = Some j /\
    built (heap w) h1 (tree_of_json j) b /\
    rollbackTransaction now (JString id) w =
      (Returned {| rollback_status := Some ROLLED_BACK; rollback_backup := Some b;
                   rollback_error := None |},
       {| heap := h1;
          transactions := <[id := finish ROLLED_BACK now txn]> (transactions w) |}).
Proof.
  intros Hid Htrim Htxn Hpending Hd Hst.
  destruct (stringify_tree_structure t Hst) as [j Hj].
  pose proof (JSON_parse_built j (heap w)) as Hb.
  destruct (JSON_parse j (heap w)) as [b h1] eqn:Hparse. cbn [fst snd] in Hb.
  exists j, b, h1. repeat split; try assumption; try apply Hb.
  unfold rollbackTransaction. rewrite (id_guard_passes id Hid).
  cbn [as_string]. rewrite Htrim, Htxn, Hpending. cbn [is_pending negb].
  rewrite (JSON_stringify_denotes _ _ _ _ Hd), Hj, Hparse. reflexivity.
Qed.

(** C2, as amended. For every payload [P] that is an object or array built
    from [null], booleans, finite numbers, strings, arrays and objects
    (without reference cycles): [beginTransaction(P)] returns, and a later
    [rollbackTransaction] of the returned identifier returns a backup that
    unfolds to the tree [P] had at begin time. This holds whatever the
    caller did in between to the cells that existed before the begin (the
    cells of [P] among them), as long as the record and the cells created by
    the begin are as the begin left them. The returned backup is made of
    cells created by the rollback call alone, so it shares nothing with [P]
    or with the stored backup, and no later change to older cells alters
    its tree. *)
Theorem rollback_returns_independent_copy
    (now now' : Z) (id : string) (P : Value) (t : JsValue) (w : World) :
  denotes (dom (heap w)) (heap w) t P ->
  is_structure t = true -> json_plain t = true ->
  id <> "" -> trim id = id ->
  exists (r : BeginResult) (w1 : World),
    beginTransaction now id P w = (Returned r, w1) /\
    begin_transactionId r = id /\ begin_status r = PENDING /\
    forall w1' : World,
      transactions w1' !! id = transactions w1 !! id ->
      (forall l, l ∈ dom (heap w1) ∖ dom (heap w) -> heap w1' !! l = heap w1 !! l) ->
      exists (b : Value) (w2 : World),
        rollbackTransaction now' (JString (begin_transactionId r)) w1' =
          (Returned {| rollback_status := Some ROLLED_BACK;
                       rollback_backup := Some b;
                       rollback_error := None |}, w2) /\
        heap w1' ⊆ heap w2 /\
        denotes (dom (heap w2) ∖ dom (heap w1')) (heap w2) t b /\
        forall h' : Store,
          (forall l, l ∈ dom (heap w2) ∖ dom (heap w1') -> h' !! l = heap w2 !! l) ->
          denotes (dom (heap w2) ∖ dom (heap w1')) h' t b.
Proof.
  intros Hd Hst Hplain Hid Htrim.
  destruct (beginTransaction_returns now id P w t Hd Hst)
    as (j & b0 & c & h1 & h2 & Hj & Hb0 & Hc & Hbegin).
  destruct (stringify_tree_plain t Hplain) as (j' & Hj' & Hback).
  rewrite Hj in Hj'. injection Hj' as <-. rewrite Hback in Hb0, Hc.
  eexists _, _. split; [exact Hbegin |]. cbn [begin_transactionId begin_status].
  split; [reflexivity |]. split; [reflexivity |].
  intros w1' Htable Hcells. cbn [heap transactions] in Htable, Hcells.
  rewrite lookup_insert_eq in Htable.
  (* the stored backup still has its tree in the changed store *)
  assert (Hstored : denotes (dom h1 ∖ dom (heap w)) (heap w1') t b0).
  { destruct Hb0 as [_ Hd0]. destruct Hc as [H12 _].
    eapply denotes_mono; [reflexivity | | exact Hd0].
    intros l Hl. rewrite Hcells.
    - apply elem_of_difference in Hl. destruct Hl as [Hl _].
      apply elem_of_dom in Hl. destruct Hl as [cell Hcell].
      rewrite Hcell. eapply lookup_weaken; eassumption.
    - apply elem_of_difference in Hl. destruct Hl as [Hl Hn].
      apply elem_of_difference. split; [| exact Hn].
      apply (subseteq_dom _ _ H12), Hl. }
  destruct (rollbackTransaction_returns now' id w1' _ _ t Hid Htrim Htable
              eq_refl Hstored Hst)
    as (j2 & b & h3 & Hj2 & Hbuilt & Hroll).
  rewrite Hj in Hj2. injection Hj2 as <-. rewrite Hback in Hbuilt.
  eexists b, _. split; [exact Hroll |]. cbn [heap].
  destruct Hbuilt as [Hsub Hdb].
  split; [exact Hsub |]. split; [exact Hdb |].
  intros h' Hsame. eapply denotes_mono; [reflexivity | exact Hsame | exact Hdb].
Qed.

Lemma sample_denotes :
  denotes (dom (heap sample_world)) (heap sample_world) sample_tree (VRef 0%nat).
Proof.
  assert (H0 : (0%nat : loc) ∈ dom (heap sample_world))
    by (apply elem_of_dom; eexists; vm_compute; reflexivity).
  assert (H1 : (1%nat : loc) ∈ dom (heap sample_world))
    by (apply elem_of_dom; eexists; vm_compute; reflexivity).
  apply denotes_object. eexists _, _.
  split; [reflexivity |]. split; [exact H0 |].
  split; [vm_compute; reflexivity |].
  repeat constructor; cbn [fst snd].
  apply denotes_object. eexists _, _.
  split; [reflexivity |]. split; [exact H1 |].
  split; [vm_compute; reflexivity |].
  repeat constructor.
Qed.

Lemma rollback_returns_independent_copy_witness :
  exists (r : BeginResult) (w1 : World),
    beginTransaction 1000 "txn_0a1b2c" (VRef 0%nat) sample_world = (Returned r, w1) /\
    (* the caller then overwrites its payload *)
    let w1' := {| heap := <[0%nat := CObject [("type", VString "changed")]]> (heap w1);
                  transactions := transactions w1 |} in
    exists (b : Value) (w2 : World),
      rollbackTransaction 2000 (JString "txn_0a1b2c") w1' =
        (Returned {| rollback_status := Some ROLLED_BACK;
                     rollback_backup := Some b;
                     rollback_error := None |}, w2) /\
      denotes (dom (heap w2) ∖ dom (heap w1')) (heap w2) sample_tree b.
Proof.
  destruct (rollback_returns_independent_copy 1000 2000 "txn_0a1b2c" (VRef 0%nat)
              sample_tree sample_world)
    as (r & w1 & Hbegin & Hid & _ & Hlater).
  - exact sample_denotes.
  - reflexivity.
  - reflexivity.
  - discriminate.
  - reflexivity.
  - exists r, w1. split; [exact Hbegin |]. intros w1'.
    destruct (Hlater w1') as (b & w2 & Hroll & _ & Hd & _).
    + reflexivity.
    + intros l Hl. subst w1'. cbn [heap].
      apply elem_of_difference in Hl. destruct Hl as [_ Hn].
      apply lookup_insert_ne. intros <-. apply Hn.
      apply elem_of_dom. eexists. vm_compute. reflexivity.
    + rewrite Hid in Hroll. exists b, w2. split; assumption.
Defined.

(** C2 as worded does not hold: [{ type: 'update', value: NaN }] has no
    reference cycle, and the backup that comes back holds [null] where the
    payload held [NaN]. The same happens to properties that are [undefined]
    or functions, which the copy drops. *)
Lemma rollback_deep_equal_refuted : ~ rollback_deep_equal_as_stated.
Proof.
  intros H.
  pose (w := {| heap := {[ 0%nat := CObject [("type", VString "update");
                                            ("value", VNumber NaN)] ]};
                transactions := ∅ |}).
  pose (t := JObject [("type", JString "update"); ("value", JNumber NaN)]).
  destruct (H 1000 2000 "txn_0a1b2c" (VRef 0%nat) t w)
    as (r & w1 & b & w2 & Hbegin & Hroll & Hd).
  - apply denotes_object. eexists _, _.
    split; [reflexivity |].
    split; [apply elem_of_dom; eexists; vm_compute; reflexivity |].
    split; [vm_compute; reflexivity |].
    repeat constructor.
  - reflexivity.
  - discriminate.
  - reflexivity.
  - vm_compute in Hbegin. injection Hbegin as <- <-.
    vm_compute in Hroll. injection Hroll as <- <-.
    apply denotes_object in Hd.
    destruct Hd as (l & fs & Heq & _ & Hc & Hall). injection Heq as <-.
    vm_compute in Hc. injection Hc as <-.
    inversion Hall as [| ? ? ? ? _ Hrest]; subst.
    inversion Hrest as [| ? ? ? ? [_ Hvalue] _]; subst.
    cbn in Hvalue. discriminate Hvalue.
Qed.

(** [beginTransaction] is all or nothing: when it raises, the store and the
    table are as they were. The copy for the record cannot fail after the
    copy for the backup has been made. *)
Lemma beginTransaction_raises_clean (now : Z) (generated : string) (P : Value)
    (w w' : World) (message : string) :
  beginTransaction now generated P w = (Thrown message, w') -> w' = w.
Proof.
  unfold beginTransaction.
  destruct (negb (truthy P) || _); [congruence |].
  destruct (JSON_stringify (heap w) P) as [[text |] | e] eqn:Hfirst;
    try congruence.
  apply JSON_stringify_returns_iff in Hfirst. destruct Hfirst as (t & Hd & Ht).
  pose proof (JSON_parse_built text (heap w)) as [Hsub _].
  destruct (JSON_parse text (heap w)) as [b h1]. cbn [snd] in Hsub.
  assert (Hd1 : denotes (dom (heap w)) h1 t P)
    by (eapply denotes_extend; [exact Hd | reflexivity | exact Hsub]).
  rewrite (JSON_stringify_denotes _ _ _ _ Hd1), Ht.
  destruct (JSON_parse text h1) as [c h2]. discriminate.
Qed.

(** C4. When the payload cannot be deep-copied, as is every payload with a
    reference cycle, [beginTransaction] raises and leaves everything as it
    was: the store, the transaction table, and with them
    [getActiveTransactions] and [getTransactionStats]. *)
Theorem begin_failure_records_nothing
    (now : Z) (generated : string) (P : Value) (w : World) :
  (forall text, JSON_stringify (heap w) P <> Ok (Some text))
    \/ has_cycle (heap w) P ->
  exists message,
    beginTransaction now generated P w = (Thrown message, w) /\
    let w' := snd (beginTransaction now generated P w) in
    w' = w /\
    transactions w' = transactions w /\
    (forall at_time, getActiveTransactions at_time w' = getActiveTransactions at_time w) /\
    getTransactionStats w' = getTransactionStats w.
Proof.
  intros Hcannot.
  assert (Hfail : forall text, JSON_stringify (heap w) P <> Ok (Some text)).
  { destruct Hcannot as [Hfail | Hcycle]; [exact Hfail |].
    intros text. apply cycle_not_serializable, Hcycle. }
  assert (Hcall : exists message,
             beginTransaction now generated P w = (Thrown message, w)).
  { unfold beginTransaction.
    destruct (negb (truthy P) || _); [eauto |].
    destruct (JSON_stringify (heap w) P) as [[text |] | e]; eauto.
    exfalso. apply (Hfail text). reflexivity. }
  destruct Hcall as [message Hcall]. exists message.
  split; [exact Hcall |]. rewrite Hcall. cbn. repeat split.
Qed.

Lemma circular_world_has_cycle : has_cycle (heap circular_world) (VRef 0%nat).
Proof.
  exists 0%nat, 0%nat. split; [reflexivity |]. split; [constructor |].
  apply tc_once. eexists. split; [vm_compute; reflexivity |].
  cbn. right. left.
Qed.

Lemma begin_failure_records_nothing_witness :
  beginTransaction 1000 "txn_0a1b2c" (VRef 0%nat) circular_world
    = (Thrown backup_failed_message, circular_world) /\
  getTransactionStats
    (snd (beginTransaction 1000 "txn_0a1b2c" (VRef 0%nat) circular_world))
    = getTransactionStats circular_world.
Proof.
  destruct (begin_failure_records_nothing 1000 "txn_0a1b2c" (VRef 0%nat)
              circular_world) as (message & Hcall & _ & _ & _ & Hstats).
  - right. exact circular_world_has_cycle.
  - split; [| exact Hstats].
    rewrite Hcall. f_equal.
    assert (Hreal : fst (beginTransaction 1000 "txn_0a1b2c" (VRef 0%nat)
                           circular_world) = Thrown backup_failed_message)
      by (vm_compute; reflexivity).
    rewrite Hcall in Hreal. exact Hreal.
Defined.












End TransactionLogFacts.

(** ** Error reporting across the components *)

Section LayerFacts.
Import JS Layer.

Lemma not_a_key_spec (x : JsValue) :
  not_a_key x = false <-> exists s, x = JString s /\ s <> "".
Proof.
  unfold not_a_key. split.
  - apply id_guard.
  - intros (s & -> & Hs). apply String.eqb_neq in Hs. cbn. rewrite Hs. reflexivity.
Qed.








End LayerFacts.

(** ** Strings *)

Section TextFacts.
Import JS Text.

Lemma string_app_nil (b : string) : "" +:+ b = b.
Proof. reflexivity. Qed.

Lemma string_app_cons (c : ascii) (a b : string) : String c a +:+ b = String c (a +:+ b).
Proof. reflexivity. Qed.

Lemma prefix_spec (p s : string) :
  String.prefix p s = true <-> exists rest, s = p +:+ rest.
Proof.
  revert s. induction p as [| c p IH]; intros s; cbn.
  - split; [intros _; exists s; reflexivity | intros _; destruct s; reflexivity].
  - destruct s as [| d s]; cbn.
    + split; [discriminate | intros (rest & H); discriminate].
    + destruct (ascii_dec c d) as [-> | Hne].
      * rewrite IH. split; intros (rest & H); exists rest.
        -- rewrite H; reflexivity.
        -- injection H as H; exact H.
      * split; [discriminate | intros (rest & H)].
        injection H as H _. congruence.
Qed.

Lemma endsWith_spec (s p : string) :
  endsWith s p = true <-> exists front, s = front +:+ p.
Proof.
  induction s as [| c s IH]; cbn [endsWith].
  - rewrite orb_false_r, String.eqb_eq. split.
    + intros <-. exists "". reflexivity.
    + intros (front & H). destruct front; cbn in H; [exact H | discriminate].
  - rewrite orb_true_iff, IH, String.eqb_eq. split.
    + intros [<- | (front & ->)].
      * exists "". reflexivity.
      * exists (String c front). reflexivity.
    + intros (front & H). destruct front as [| d front]; cbn in H.
      * left. exact H.
      * right. injection H as _ H. exists front. exact H.
Qed.

Lemma includes_spec (text pattern : string) :
  includes text pattern = true <-> exists a b, text = a +:+ pattern +:+ b.
Proof.
  unfold includes. induction text as [| c text IH]; cbn [ErrorMapper.includes].
  - rewrite orb_false_r, prefix_spec. split.
    + intros (rest & H). exists "", rest. exact H.
    + intros (a & b & H). destruct a; cbn in H; [exists b; exact H |discriminate].
  - rewrite orb_true_iff, prefix_spec, IH. split.
    + intros [(rest & H) | (a & b & H)].
      * exists "", rest. exact H.
      * exists (String c a), b. cbn. rewrite H. reflexivity.
    + intros (a & b & H). destruct a as [| d a]; cbn in H.
      * left. exists b. exact H.
      * right. injection H as _ H. exists a, b. exact H.
Qed.

Lemma all_chars_app (ok : ascii -> bool) (a b : string) :
  all_chars ok (a +:+ b) = all_chars ok a && all_chars ok b.
Proof.
  induction a as [| c a IH]; [reflexivity |].
  rewrite string_app_cons. cbn [all_chars]. rewrite IH, andb_assoc. reflexivity.
Qed.

(** A text whose characters are all in a class includes no pattern that
    has a character outside it. *)
Lemma all_chars_excludes (ok : ascii -> bool) (text pattern : string) :
  all_chars ok text = true -> all_chars ok pattern = false ->
  includes text pattern = false.
Proof.
  intros Htext Hpattern.
  destruct (includes text pattern) eqn:E; [| reflexivity].
  apply includes_spec in E. destruct E as (a & b & ->).
  rewrite !all_chars_app, Hpattern, andb_false_r in Htext.
  cbn in Htext. discriminate.
Qed.

Lemma all_chars_weaken (ok ok' : ascii -> bool) (s : string) :
  (forall c, ok c = true -> ok' c = true) ->
  all_chars ok s = true -> all_chars ok' s = true.
Proof.
  intros Hc. induction s as [| c s IH]; cbn; [reflexivity |].
  intros H. apply andb_prop in H. destruct H as [H1 H2].
  rewrite (Hc _ H1), (IH H2). reflexivity.
Qed.

(** *** [split] and [String.concat] *)

Lemma split_cons (sep c : ascii) (s : string) :
  split sep (String c s) =
    if Ascii.eqb c sep then "" :: split sep s
    else match split sep s with
         | first :: others => String c first :: others
         | [] => [String c ""]
         end.
Proof.
  unfold split. cbn. destruct (pieces sep s) as [first others].
  destruct (Ascii.eqb c sep); reflexivity.
Qed.

Lemma split_nonempty (sep : ascii) (s : string) : split sep s <> [].
Proof. unfold split. destruct (pieces sep s). discriminate. Qed.

Lemma concat_cons (sep label : string) (labels : list string) :
  labels <> [] ->
  String.concat sep (label :: labels) = label +:+ sep +:+ String.concat sep labels.
Proof. destruct labels; [congruence | reflexivity]. Qed.

(** Joining the pieces gives the string back. *)
Lemma concat_split (sep : ascii) (s : string) :
  String.concat (String sep "") (split sep s) = s.
Proof.
  induction s as [| c s IH]; [reflexivity |].
  rewrite split_cons. pose proof (split_nonempty sep s) as Hne.
  destruct (Ascii.eqb_spec c sep) as [-> | Hc].
  - rewrite concat_cons by assumption.
    rewrite string_app_nil, string_app_cons, string_app_nil, IH.
    reflexivity.
  - destruct (split sep s) as [| first others]; [congruence |].
    destruct others as [| second others].
    + cbn in IH |- *. rewrite IH. reflexivity.
    + rewrite concat_cons in IH |- * by discriminate.
      rewrite string_app_cons, IH. reflexivity.
Qed.

(** No piece contains the separator. *)
Lemma split_no_separator (sep : ascii) (s : string) :
  Forall (fun piece => all_chars (fun c => negb (Ascii.eqb c sep)) piece = true)
         (split sep s).
Proof.
  induction s as [| c s IH]; [repeat constructor |].
  rewrite split_cons. destruct (Ascii.eqb c sep) eqn:E.
  - constructor; [reflexivity | exact IH].
  - destruct (split sep s) as [| first others];
      [repeat constructor; cbn; rewrite E; reflexivity |].
    inversion IH as [| ? ? H1 H2]; subst. constructor; [| exact H2].
    cbn. rewrite E, H1. reflexivity.
Qed.

Lemma split_all_chars (ok : ascii -> bool) (sep : ascii) (s : string) :
  all_chars ok s = true ->
  Forall (fun piece => all_chars ok piece = true) (split sep s).
Proof.
  induction s as [| c s IH]; [repeat constructor |].
  cbn [all_chars]. intros H. apply andb_prop in H. destruct H as [Hc Hs].
  specialize (IH Hs). rewrite split_cons. destruct (Ascii.eqb c sep).
  - constructor; [reflexivity | exact IH].
  - destruct (split sep s) as [| first others];
      [repeat constructor; cbn; rewrite Hc; reflexivity |].
    inversion IH as [| ? ? H1 H2]; subst. constructor; [| exact H2].
    cbn. rewrite Hc, H1. reflexivity.
Qed.

(** Strings without the separator, joined and split, come back. *)
Lemma split_single (sep : ascii) (s : string) :
  all_chars (fun c => negb (Ascii.eqb c sep)) s = true -> split sep s = [s].
Proof.
  induction s as [| c s IH]; [reflexivity |].
  cbn [all_chars]. intros H. apply andb_prop in H. destruct H as [Hc Hs].
  rewrite split_cons, (IH Hs). apply negb_true_iff in Hc. rewrite Hc. reflexivity.
Qed.

Lemma split_app (sep : ascii) (a b : string) :
  all_chars (fun c => negb (Ascii.eqb c sep)) a = true ->
  split sep (a +:+ String sep b) = a :: split sep b.
Proof.
  induction a as [| c a IH]; cbn [all_chars]; intros H.
  - rewrite string_app_nil, split_cons, Ascii.eqb_refl. reflexivity.
  - apply andb_prop in H. destruct H as [Hc Ha].
    rewrite string_app_cons, split_cons, (IH Ha).
    apply negb_true_iff in Hc. rewrite Hc. reflexivity.
Qed.

Lemma split_concat (sep : ascii) (labels : list string) :
  labels <> [] ->
  Forall (fun l => all_chars (fun c => negb (Ascii.eqb c sep)) l = true) labels ->
  split sep (String.concat (String sep "") labels) = labels.
Proof.
  induction labels as [| label labels IH]; [congruence |].
  intros _ Hall. inversion Hall as [| ? ? H1 H2]; subst.
  destruct labels as [| second labels].
  - cbn. apply split_single. exact H1.
  - rewrite concat_cons by discriminate. rewrite string_app_cons, string_app_nil.
    rewrite split_app by exact H1. rewrite IH; [reflexivity | discriminate | exact H2].
Qed.

(** The text has the separator exactly when it splits in two or more. *)
Lemma includes_separator (sep : ascii) (s : string) :
  includes s (String sep "") = false <->
  all_chars (fun c => negb (Ascii.eqb c sep)) s = true.
Proof.
  unfold includes. induction s as [| c s IH]; cbn; [tauto |].
  rewrite orb_false_iff, andb_true_iff, IH, negb_true_iff.
  destruct (Ascii.eqb_spec c sep) as [-> | Hne].
  - destruct (ascii_dec sep sep); [| congruence].
    destruct s; split; intros []; discriminate.
  - destruct (ascii_dec sep c); [congruence |]. tauto.
Qed.

Lemma split_length_includes (sep : ascii) (s : string) :
  includes s (String sep "") = true <-> (2 <= List.length (split sep s))%nat.
Proof.
  split.
  - intros H. apply includes_spec in H. destruct H as (a & b & ->).
    induction a as [| c a IH].
    + rewrite string_app_nil, string_app_cons, split_cons, Ascii.eqb_refl.
      pose proof (split_nonempty sep (""+:+b)).
      destruct (split sep (""+:+b)); [congruence | cbn; lia].
    + rewrite string_app_cons, split_cons. destruct (Ascii.eqb c sep).
      * cbn [List.length]. lia.
      * destruct (split sep (a +:+ String sep "" +:+ b)) as [| first others];
          cbn in *; lia.
  - intros H. destruct (includes s (String sep "")) eqn:E; [reflexivity |].
    apply includes_separator in E.
    rewrite (split_single _ _ E) in H. cbn in H. lia.
Qed.

(** *** [trim] and [toLowerCase] *)

Lemma is_space_lower (c : ascii) : is_space (lower_ascii c) = is_space c.
Proof. destruct c as [[] [] [] [] [] [] [] []]; reflexivity. Qed.

Lemma lower_ascii_idempotent (c : ascii) : lower_ascii (lower_ascii c) = lower_ascii c.
Proof. destruct c as [[] [] [] [] [] [] [] []]; reflexivity. Qed.

Lemma toLowerCase_idempotent (s : string) : toLowerCase (toLowerCase s) = toLowerCase s.
Proof.
  induction s as [| c s IH]; cbn; [reflexivity |].
  rewrite lower_ascii_idempotent, IH. reflexivity.
Qed.

Lemma toLowerCase_length (s : string) : String.length (toLowerCase s) = String.length s.
Proof. induction s as [| c s IH]; cbn; [reflexivity | rewrite IH; reflexivity]. Qed.

Lemma toLowerCase_app (a b : string) :
  toLowerCase (a +:+ b) = toLowerCase a +:+ toLowerCase b.
Proof.
  induction a as [| c a IH]; [reflexivity |].
  rewrite string_app_cons. cbn [toLowerCase]. rewrite IH. reflexivity.
Qed.

Lemma trim_left_lower (s : string) :
  trim_left (toLowerCase s) = toLowerCase (trim_left s).
Proof.
  induction s as [| c s IH]; cbn; [reflexivity |].
  rewrite is_space_lower. destruct (is_space c); [exact IH | reflexivity].
Qed.

Lemma trim_right_lower (s : string) :
  trim_right (toLowerCase s) = toLowerCase (trim_right s).
Proof.
  induction s as [| c s IH]; cbn; [reflexivity |].
  rewrite IH, is_space_lower.
  destruct (trim_right s) as [| d rest]; cbn; [destruct (is_space c) |]; reflexivity.
Qed.

Lemma trim_lower (s : string) : trim (toLowerCase s) = toLowerCase (trim s).
Proof. unfold trim. rewrite trim_left_lower, trim_right_lower. reflexivity. Qed.

Lemma trim_right_idempotent (s : string) : trim_right (trim_right s) = trim_right s.
Proof.
  induction s as [| c s IH]; cbn; [reflexivity |].
  destruct (trim_right s) as [| d rest] eqn:E.
  - destruct (is_space c) eqn:Ec; cbn; [reflexivity | rewrite Ec; reflexivity].
  - cbn [trim_right] in IH |- *. rewrite IH. reflexivity.
Qed.

Lemma trim_left_clean (s : string) : starts_clean (trim_left s).
Proof.
  induction s as [| c s IH]; cbn; [exact I |].
  destruct (is_space c) eqn:E; [exact IH | exact E].
Qed.

Lemma trim_left_fixed (s : string) : starts_clean s -> trim_left s = s.
Proof. destruct s as [| c s]; cbn; [reflexivity | intros ->; reflexivity]. Qed.

Lemma trim_right_clean (s : string) : starts_clean s -> starts_clean (trim_right s).
Proof.
  destruct s as [| c s]; cbn; [auto |]. intros Hc.
  destruct (trim_right s); [rewrite Hc |]; exact Hc.
Qed.

Lemma trim_idempotent (s : string) : trim (trim s) = trim s.
Proof.
  unfold trim.
  rewrite (trim_left_fixed (trim_right (trim_left s))).
  - apply trim_right_idempotent.
  - apply trim_right_clean, trim_left_clean.
Qed.

(** A string with no white space at all is its own trim. *)
Lemma trim_right_fixed (s : string) :
  all_chars (fun c => negb (is_space c)) s = true -> trim_right s = s.
Proof.
  induction s as [| c s IH]; cbn; [reflexivity |].
  intros H. apply andb_prop in H. destruct H as [Hc Hs].
  rewrite (IH Hs). apply negb_true_iff in Hc.
  destruct s; [rewrite Hc |]; reflexivity.
Qed.

Lemma trim_fixed (s : string) :
  all_chars (fun c => negb (is_space c)) s = true -> trim s = s.
Proof.
  intros H. unfold trim. rewrite trim_left_fixed.
  - apply trim_right_fixed, H.
  - destruct s as [| c s]; cbn in *; [exact I |].
    apply andb_prop in H. destruct H as [Hc _]. apply negb_true_iff in Hc. exact Hc.
Qed.

Lemma toLowerCase_fixed (s : string) :
  all_chars (fun c => Ascii.eqb (lower_ascii c) c) s = true -> toLowerCase s = s.
Proof.
  induction s as [| c s IH]; cbn; [reflexivity |].
  intros H. apply andb_prop in H. destruct H as [Hc Hs].
  apply Ascii.eqb_eq in Hc. rewrite Hc, (IH Hs). reflexivity.
Qed.

End TextFacts.

(** ** Domain validators *)

Section ValidatorsFacts.
Import JS Text Validators.

Lemma split_append (sep : ascii) (a b : string) :
  split sep (a +:+ String sep b) = (split sep a ++ split sep b)%list.
Proof.
  induction a as [| c a IH].
  - rewrite string_app_nil, split_cons, Ascii.eqb_refl. reflexivity.
  - rewrite string_app_cons, !split_cons, IH. destruct (Ascii.eqb c sep); [reflexivity |].
    pose proof (split_nonempty sep a) as Hne.
    destruct (split sep a) as [| first others]; [congruence | reflexivity].
Qed.

(** A text that is empty, starts or ends with the separator, or has two
    separators in a row, has an empty piece. *)
Lemma split_empty_piece (sep : ascii) (d : string) :
  d = "" \/ startsWith d (String sep "") = true
  \/ endsWith d (String sep "") = true
  \/ includes d (String sep (String sep "")) = true ->
  In "" (split sep d).
Proof.
  intros [-> | [H | [H | H]]].
  - left; reflexivity.
  - apply prefix_spec in H. destruct H as (rest & ->).
    rewrite string_app_cons, string_app_nil, split_cons, Ascii.eqb_refl.
    left; reflexivity.
  - apply endsWith_spec in H. destruct H as (front & ->).
    rewrite split_append. apply in_or_app. right. left; reflexivity.
  - apply includes_spec in H. destruct H as (a & b & ->).
    rewrite string_app_cons, split_append, string_app_cons, string_app_nil.
    rewrite split_cons, Ascii.eqb_refl.
    apply in_or_app. right. left; reflexivity.
Qed.

Lemma all_chars_and (ok ok' : ascii -> bool) (s : string) :
  all_chars ok s = true -> all_chars ok' s = true ->
  all_chars (fun c => ok c && ok' c) s = true.
Proof.
  induction s as [| c s IH]; cbn; [reflexivity |].
  intros H H'. apply andb_prop in H, H'. destruct H as [-> Hs], H' as [-> Hs'].
  rewrite (IH Hs Hs'). reflexivity.
Qed.

Lemma all_chars_concat (ok : ascii -> bool) (sep : string) (labels : list string) :
  all_chars ok sep = true ->
  Forall (fun l => all_chars ok l = true) labels ->
  all_chars ok (String.concat sep labels) = true.
Proof.
  intros Hsep. induction 1 as [| label labels Hl Hall IH]; [reflexivity |].
  destruct labels as [| second labels]; [exact Hl |].
  rewrite concat_cons by discriminate.
  rewrite !all_chars_app, Hl, Hsep, IH. reflexivity.
Qed.

(** Facts about the character classes, by enumeration of the characters. *)
Lemma domain_char_label (c : ascii) :
  domain_char c && negb (Ascii.eqb c ".") = true -> label_char c = true.
Proof.
  destruct c as [[] [] [] [] [] [] [] []]; vm_compute; intros H;
    first [reflexivity | discriminate H].
Qed.

Lemma label_char_domain (c : ascii) : label_char c = true -> domain_char c = true.
Proof.
  destruct c as [[] [] [] [] [] [] [] []]; vm_compute; intros H;
    first [reflexivity | discriminate H].
Qed.

Lemma label_char_no_dot (c : ascii) :
  label_char c = true -> negb (Ascii.eqb c ".") = true.
Proof.
  destruct c as [[] [] [] [] [] [] [] []]; vm_compute; intros H;
    first [reflexivity | discriminate H].
Qed.

Lemma domain_char_no_space (c : ascii) :
  domain_char c = true -> negb (is_space c) = true.
Proof.
  destruct c as [[] [] [] [] [] [] [] []]; vm_compute; intros H;
    first [reflexivity | discriminate H].
Qed.

Lemma domain_char_lower (c : ascii) :
  domain_char c = true -> Ascii.eqb (lower_ascii c) c = true.
Proof.
  destruct c as [[] [] [] [] [] [] [] []]; vm_compute; intros H;
    first [reflexivity | discriminate H].
Qed.

(** A string in the character class of domains holds no shell
    metacharacter and no backslash, and [trim] and [toLowerCase] leave it
    as it is. *)
Lemma domain_chars_no_metacharacter (d : string) :
  all_chars domain_char d = true ->
  List.find (fun char => includes d char) shellMetacharacters = None.
Proof.
  intros H. unfold shellMetacharacters. cbn [List.find].
  rewrite !(all_chars_excludes domain_char d) by (exact H || reflexivity).
  reflexivity.
Qed.

Lemma domain_chars_no_backslash (d : string) :
  all_chars domain_char d = true -> includes d "\" = false.
Proof. intros H. apply (all_chars_excludes domain_char); [exact H | reflexivity]. Qed.

Lemma domain_chars_sanitized (d : string) :
  all_chars domain_char d = true -> toLowerCase (trim d) = d.
Proof.
  intros H. rewrite trim_fixed.
  - apply toLowerCase_fixed. revert H. apply all_chars_weaken, domain_char_lower.
  - revert H. apply all_chars_weaken, domain_char_no_space.
Qed.

(** The loop over the labels finds no error exactly when every label has
    1 to 63 characters and no hyphen at either end. *)
Lemma labels_error_none (labels : list string) :
  labels_error labels = None <->
  Forall (fun label => (1 <= String.length label <= 63)%nat /\
                       (forall rest, label <> "-" +:+ rest) /\
                       (forall front, label <> front +:+ "-")) labels.
Proof.
  induction labels as [| label labels IH]; cbn [labels_error].
  - split; [constructor | reflexivity].
  - destruct (Nat.eqb_spec (String.length label) 0) as [H0 | H0]; cbn [orb].
    { split; [discriminate | intros H; inversion H; subst; lia]. }
    destruct (Nat.ltb_spec 63 (String.length label)) as [H63 | H63].
    { split; [discriminate | intros H; inversion H; subst; lia]. }
    destruct (startsWith label "-") eqn:Es; cbn [orb].
    { apply prefix_spec in Es. destruct Es as (rest & ->).
      split; [discriminate | intros H; inversion H as [| ? ? (_ & Hs & _) _]; subst].
      exfalso; apply (Hs rest); reflexivity. }
    destruct (endsWith label "-") eqn:Ee.
    { apply endsWith_spec in Ee. destruct Ee as (front & ->).
      split; [discriminate | intros H; inversion H as [| ? ? (_ & _ & He) _]; subst].
      exfalso; apply (He front); reflexivity. }
    rewrite IH. split.
    + intros H. constructor; [| exact H]. split; [lia |]. split.
      * intros rest ->. unfold startsWith in Es.
        assert (String.prefix "-" ("-" +:+ rest) = true)
          by (apply prefix_spec; eauto).
        congruence.
      * intros front ->.
        assert (endsWith (front +:+ "-") "-" = true) by (apply endsWith_spec; eauto).
        congruence.
    + intros H. inversion H; assumption.
Qed.

Lemma labels_error_messages (labels : list string) (message : string) :
  labels_error labels = Some message ->
  message = "Cada label do domínio deve ter 1-63 caracteres"
  \/ message = "Labels do domínio não podem começar ou terminar com hífen".
Proof.
  induction labels as [| label labels IH]; cbn [labels_error]; [discriminate |].
  destruct (_ || _); [intros H; injection H as <-; auto |].
  destruct (_ || _); [intros H; injection H as <-; auto |].
  exact IH.
Qed.

(** What [validateDomain] accepts is a host name. *)
Lemma validateDomain_sound (s : string) :
  isValid (validateDomain (JString s)) = true ->
  validateDomain (JString s) =
    {| isValid := true; sanitized := toLowerCase (trim s); error := None |} /\
  host_name (toLowerCase (trim s)).
Proof.
  unfold validateDomain. cbv zeta. set (d := toLowerCase (trim s)).
  destruct (String.length d =? 0)%nat eqn:E0; [discriminate |].
  destruct (255 <? String.length d)%nat eqn:E255; [discriminate |].
  destruct (List.find _ shellMetacharacters); [discriminate |].
  destruct (all_chars domain_char d) eqn:Echars; [| discriminate]. cbn [negb].
  destruct (includes d ".."); [discriminate |].
  destruct (includes d "\"); [discriminate |].
  destruct (startsWith d "." || endsWith d "."); [discriminate |].
  destruct (includes d ".") eqn:Edot; [| discriminate]. cbn [negb].
  destruct (labels_error (split "." d)) eqn:Elabels; [discriminate |].
  intros _. split; [reflexivity |]. split.
  - apply Nat.ltb_ge in E255. exact E255.
  - exists (split "." d). split; [| split].
    + apply split_length_includes. exact Edot.
    + symmetry. apply concat_split.
    + apply labels_error_none in Elabels.
      pose proof (split_all_chars domain_char "." d Echars) as Hclass.
      pose proof (split_no_separator "." d) as Hdots.
      revert Elabels Hclass Hdots. generalize (split "." d).
      induction 1 as [| label labels (Hlen & Hs & He) _ IH]; [constructor |].
      intros Hc Hd. inversion Hc; inversion Hd; subst.
      constructor; [| apply IH; assumption].
      split; [exact Hlen |]. split; [| split; assumption].
      eapply all_chars_weaken; [apply domain_char_label |].
      apply all_chars_and; assumption.
Qed.

(** Every host name, as a sanitized string, is accepted. *)
Lemma validateDomain_complete (s : string) :
  host_name (toLowerCase (trim s)) ->
  validateDomain (JString s) =
    {| isValid := true; sanitized := toLowerCase (trim s); error := None |}.
Proof.
  unfold validateDomain. cbv zeta. set (d := toLowerCase (trim s)).
  intros (H255 & labels & Hcount & Hd & Hlabels).
  assert (Hdotfree :
    Forall (fun l => all_chars (fun c => negb (Ascii.eqb c ".")) l = true) labels).
  { eapply Forall_impl; [exact Hlabels |]. intros l (_ & Hc & _).
    revert Hc. apply all_chars_weaken, label_char_no_dot. }
  assert (Hsplit : split "." d = labels).
  { rewrite Hd. apply split_concat; [| exact Hdotfree].
    intros ->. cbn in Hcount. lia. }
  assert (Hfull : Forall (fun l => l <> "") labels).
  { eapply Forall_impl; [exact Hlabels |]. intros l ((Hlen & _) & _) ->.
    cbn in Hlen. lia. }
  assert (Hnone : ~ In "" (split "." d)).
  { rewrite Hsplit. intros Hin. rewrite Forall_forall in Hfull.
    apply (Hfull ""); [apply list_elem_of_In; exact Hin | reflexivity]. }
  assert (Hchars : all_chars domain_char d = true).
  { rewrite Hd. apply all_chars_concat; [reflexivity |].
    eapply Forall_impl; [exact Hlabels |]. intros l (_ & Hc & _).
    revert Hc. apply all_chars_weaken, label_char_domain. }
  destruct (Nat.eqb_spec (String.length d) 0) as [E0 | E0].
  { exfalso. apply Hnone, split_empty_piece. left.
    destruct d; [reflexivity | discriminate]. }
  destruct (Nat.ltb_spec 255 (String.length d)) as [E255 | E255]; [lia |].
  rewrite (domain_chars_no_metacharacter d Hchars), Hchars. cbn [negb].
  destruct (includes d "..") eqn:E2.
  { exfalso. apply Hnone, split_empty_piece. auto. }
  rewrite (domain_chars_no_backslash d Hchars).
  destruct (startsWith d ".") eqn:Es.
  { exfalso. apply Hnone, split_empty_piece. auto. }
  destruct (endsWith d ".") eqn:Ee.
  { exfalso. apply Hnone, split_empty_piece. auto. }
  cbn [orb].
  assert (Edot : includes d "." = true)
    by (apply split_length_includes; rewrite Hsplit; exact Hcount).
  rewrite Edot. cbn [negb]. rewrite Hsplit.
  assert (Hok : labels_error labels = None).
  { apply labels_error_none. eapply Forall_impl; [exact Hlabels |].
    intros l (Hlen & _ & Hs & He). auto. }
  rewrite Hok. reflexivity.
Qed.

(** X1. [validateDomain] accepts exactly the host names. A value is
    accepted if and only if it is a string whose trimmed, lower-cased form
    has at most 255 characters and is two or more labels joined by single
    dots, each label of 1 to 63 characters among [a-z], [0-9] and the
    hyphen, with no hyphen first or last. On acceptance the result carries
    that form as [sanitized], which is what [sanitizeDomain] returns, and no
    error. *)
Theorem validateDomain_accepts_host_names (domain : JsValue) :
  (isValid (validateDomain domain) = true <->
   exists s, domain = JString s /\ host_name (sanitizeDomain (Some s))) /\
  (isValid (validateDomain domain) = true ->
   exists s, domain = JString s /\
             validateDomain domain =
               {| isValid := true; sanitized := sanitizeDomain (Some s);
                  error := None |}).
Proof.
  split; [split |].
  - destruct domain as [| | b | n | s | items | fields | name]; try discriminate.
    intros H. exists s. split; [reflexivity |]. apply validateDomain_sound, H.
  - intros (s & -> & Hhost).
    rewrite (validateDomain_complete s Hhost). reflexivity.
  - destruct domain as [| | b | n | s | items | fields | name]; try discriminate.
    intros H. exists s. split; [reflexivity |]. apply validateDomain_sound, H.
Qed.

(** X2. [validateDomain] looks at a string only through [sanitizeDomain]:
    validating the sanitized form gives the same result as validating the
    string itself, upper case and surrounding white space make no
    difference, and an accepted [sanitized] value is accepted again,
    unchanged. *)
Theorem validateDomain_of_sanitized (s : string) :
  validateDomain (JString (sanitizeDomain (Some s))) = validateDomain (JString s) /\
  sanitizeDomain (Some (sanitizeDomain (Some s))) = sanitizeDomain (Some s) /\
  (forall s', toLowerCase (trim s') = toLowerCase (trim s) ->
     validateDomain (JString s') = validateDomain (JString s)) /\
  validateDomain (JString (sanitized (validateDomain (JString s)))) =
    (if isValid (validateDomain (JString s)) then validateDomain (JString s)
     else rejected "Domínio não pode ser vazio").
Proof.
  assert (Hfix : toLowerCase (trim (toLowerCase (trim s))) = toLowerCase (trim s)).
  { rewrite trim_lower, trim_idempotent, toLowerCase_idempotent. reflexivity. }
  assert (Hsame : forall s', toLowerCase (trim s') = toLowerCase (trim s) ->
                  validateDomain (JString s') = validateDomain (JString s)).
  { intros s' H. unfold validateDomain. rewrite H. reflexivity. }
  split; [apply Hsame; exact Hfix |]. split; [exact Hfix |]. split; [exact Hsame |].
  destruct (isValid (validateDomain (JString s))) eqn:E.
  - destruct (validateDomain_sound s E) as [Heq _]. rewrite Heq at 1.
    cbn [sanitized]. apply Hsame. exact Hfix.
  - assert (Hs : sanitized (validateDomain (JString s)) = "").
    { revert E. unfold validateDomain. cbv zeta.
      repeat match goal with
             | |- context [if ?c then _ else _] => destruct c
             | |- context [match ?c with Some _ => _ | None => _ end] => destruct c
             end; cbn; congruence. }
    rewrite Hs. reflexivity.
Qed.

(** X3. The results of [validateDomain] have one of two shapes, accepted
    with a non-empty [sanitized] and no error, or rejected with an empty
    [sanitized] and an error; and the error of the backslash test,
    'Domínio contém caracteres inválidos', is never returned: a string with
    a backslash is already rejected by the test of the allowed
    characters. *)
Theorem validateDomain_result_shape (domain : JsValue) :
  let r := validateDomain domain in
  (isValid r = true /\ sanitized r <> "" /\ error r = None
   \/ isValid r = false /\ sanitized r = "" /\ exists message, error r = Some message)
  /\ error r <> Some "Domínio contém caracteres inválidos".
Proof.
  cbv zeta. destruct domain as [| | b | n | s | items | fields | name];
    try (split; [right; repeat split; eexists; reflexivity | discriminate]).
  destruct (isValid (validateDomain (JString s))) eqn:E.
  - destruct (validateDomain_sound s E) as [Heq (_ & labels & Hcount & Hd & Hl)].
    rewrite Heq. cbn. split; [| discriminate]. left. repeat split.
    intros Hempty. rewrite Hempty in Hd.
    destruct Hl as [| l1 ? (Hlen & _) [| l2 ? (Hlen2 & _) _]]; cbn in Hcount; try lia.
    destruct l1; [cbn in Hlen; lia |]. destruct l0; discriminate Hd.
  - revert E. unfold validateDomain. cbv zeta.
    set (d := toLowerCase (trim s)).
    destruct (String.length d =? 0)%nat;
      [intros _; split; [right; repeat split; eexists; reflexivity | discriminate] |].
    destruct (255 <? String.length d)%nat;
      [intros _; split; [right; repeat split; eexists; reflexivity | discriminate] |].
    destruct (List.find _ shellMetacharacters);
      [intros _; split; [right; repeat split; eexists; reflexivity | discriminate] |].
    destruct (all_chars domain_char d) eqn:Echars; cbn [negb];
      [| intros _; split; [right; repeat split; eexists; reflexivity | discriminate]].
    rewrite (domain_chars_no_backslash d Echars).
    repeat match goal with
           | |- context [if ?c then _ else _] => destruct c
           | |- context [match ?c with Some _ => _ | None => _ end] => destruct c eqn:?
           end; cbn; try discriminate;
      intros _; (split; [right; repeat split; eexists; reflexivity |]); try discriminate.
  intros H. injection H as ->.
  destruct (labels_error_messages _ _ Heqo); discriminate.
Qed.

Lemma string_length_app (a b : string) :
  String.length (a +:+ b) = (String.length a + String.length b)%nat.
Proof.
  induction a as [| c a IH]; [reflexivity |].
  rewrite string_app_cons. cbn [String.length]. rewrite IH. reflexivity.
Qed.

(** What [validateSubdomain] accepts: a parent that [validateDomain]
    accepts and a subdomain that is one label, of any length. *)
Lemma validateSubdomain_sound (subdomain parentDomain : JsValue) :
  isValid (validateSubdomain subdomain parentDomain) = true ->
  isValid (validateDomain parentDomain) = true /\
  exists s,
    subdomain = JString s /\
    validateSubdomain subdomain parentDomain =
      {| isValid := true; sanitized := toLowerCase (trim s); error := None |} /\
    toLowerCase (trim s) <> "" /\
    all_chars label_char (toLowerCase (trim s)) = true /\
    startsWith (toLowerCase (trim s)) "-" = false /\
    endsWith (toLowerCase (trim s)) "-" = false.
Proof.
  unfold validateSubdomain. cbv zeta.
  destruct (isValid (validateDomain parentDomain)); [| discriminate]. cbn [negb].
  destruct subdomain as [| | b | n | s | items | fields | name]; try discriminate.
  set (d := toLowerCase (trim s)).
  destruct (Nat.eqb_spec (String.length d) 0) as [E0 | E0]; [discriminate |].
  destruct (List.find _ shellMetacharacters); [discriminate |].
  destruct (all_chars label_char d) eqn:Echars; [| discriminate]. cbn [negb].
  destruct (startsWith d "-") eqn:Es; [discriminate |].
  destruct (endsWith d "-") eqn:Ee; [discriminate |].
  intros _. split; [reflexivity |]. exists s. fold d.
  repeat split; try assumption; try reflexivity.
  intros Hd. apply E0. rewrite Hd. reflexivity.
Qed.

(** X4. [validateSubdomain] and [validateDomain] together. An accepted
    subdomain is one non-empty label over [a-z], [0-9] and the hyphen with
    no hyphen first or last, under a parent that [validateDomain] accepts;
    its length is not bounded. The full name, subdomain, dot, parent, is
    accepted by [validateDomain] exactly when the subdomain has at most 63
    characters and the full name at most 255. *)
Theorem validateSubdomain_full_name (subdomain parentDomain : JsValue) :
  isValid (validateSubdomain subdomain parentDomain) = true ->
  let sub := sanitized (validateSubdomain subdomain parentDomain) in
  let parent := sanitized (validateDomain parentDomain) in
  isValid (validateDomain parentDomain) = true /\
  error (validateSubdomain subdomain parentDomain) = None /\
  sub <> "" /\ all_chars label_char sub = true /\
  (forall rest, sub <> "-" +:+ rest) /\ (forall front, sub <> front +:+ "-") /\
  (isValid (validateDomain (JString (sub +:+ "." +:+ parent))) = true <->
   (String.length sub <= 63)%nat /\
   (String.length sub + 1 + String.length parent <= 255)%nat) /\
  (isValid (validateDomain (JString (sub +:+ "." +:+ parent))) = true ->
   sanitized (validateDomain (JString (sub +:+ "." +:+ parent)))
     = sub +:+ "." +:+ parent).
Proof.
  intros Hvalid. cbv zeta.
  destruct (validateSubdomain_sound _ _ Hvalid)
    as (Hparent & s & -> & Heq & Hne & Hchars & Hs & He).
  rewrite Heq. cbn [sanitized error]. set (sub := toLowerCase (trim s)) in *.
  destruct parentDomain as [| | b | n | p | items | fields | name]; try discriminate.
  destruct (validateDomain_sound p Hparent)
    as [Hpeq (Hplen & labels & Hcount & Hpd & Hlabels)].
  rewrite Hpeq. cbn [sanitized]. set (parent := toLowerCase (trim p)) in *.
  assert (Hstart : forall rest, sub <> "-" +:+ rest).
  { intros rest Hr. assert (startsWith sub "-" = true)
      by (apply prefix_spec; eauto). congruence. }
  assert (Hend : forall front, sub <> front +:+ "-").
  { intros front Hf. assert (endsWith sub "-" = true)
      by (apply endsWith_spec; eauto). congruence. }
  assert (Hnonempty : labels <> []) by (intros ->; cbn in Hcount; lia).
  assert (Hjoin : sub +:+ "." +:+ parent = String.concat "." (sub :: labels)).
  { rewrite concat_cons by assumption. rewrite Hpd. reflexivity. }
  assert (Hfull_chars : all_chars domain_char (sub +:+ "." +:+ parent) = true).
  { rewrite Hjoin. apply all_chars_concat; [reflexivity |]. constructor.
    - revert Hchars. apply all_chars_weaken, label_char_domain.
    - eapply Forall_impl; [exact Hlabels |]. intros l (_ & Hc & _).
      revert Hc. apply all_chars_weaken, label_char_domain. }
  pose proof (domain_chars_sanitized _ Hfull_chars) as Hfixed.
  assert (Hdotfree :
    Forall (fun l => all_chars (fun c => negb (Ascii.eqb c ".")) l = true)
           (sub :: labels)).
  { constructor.
    - revert Hchars. apply all_chars_weaken, label_char_no_dot.
    - eapply Forall_impl; [exact Hlabels |]. intros l (_ & Hc & _).
      revert Hc. apply all_chars_weaken, label_char_no_dot. }
  assert (Hlen : String.length (sub +:+ "." +:+ parent)
                 = (String.length sub + 1 + String.length parent)%nat).
  { rewrite !string_length_app. cbn [String.length]. lia. }
  split; [reflexivity |]. split; [reflexivity |]. split; [exact Hne |].
  split; [exact Hchars |]. split; [exact Hstart |]. split; [exact Hend |].
  split; [split |].
  - intros Hfull. apply validateDomain_sound in Hfull.
    destruct Hfull as [_ (H255 & labels' & _ & Hd' & Hlabels')].
    rewrite Hfixed in Hd', H255. rewrite Hlen in H255. split; [| exact H255].
    assert (Hsame : labels' = sub :: labels).
    { assert (Hdf' : Forall (fun l => all_chars (fun c => negb (Ascii.eqb c ".")) l
                                      = true) labels').
      { eapply Forall_impl; [exact Hlabels' |]. intros l (_ & Hc & _).
        revert Hc. apply all_chars_weaken, label_char_no_dot. }
      assert (Hne' : labels' <> []).
      { intros ->. cbn in Hd'. destruct sub; [congruence | discriminate Hd']. }
      rewrite <- (split_concat "." labels' Hne' Hdf'), <- Hd', Hjoin.
      apply split_concat; [discriminate | exact Hdotfree]. }
    subst labels'. inversion Hlabels' as [| ? ? ((_ & H63) & _) _]. exact H63.
  - intros (H63 & H255).
    rewrite validateDomain_complete; [reflexivity |]. rewrite Hfixed. split.
    + rewrite Hlen. exact H255.
    + exists (sub :: labels). split; [cbn [List.length]; lia |].
      split; [exact Hjoin |]. constructor; [| exact Hlabels].
      split; [| split; [exact Hchars | split; assumption]].
      split; [| exact H63]. destruct sub; [congruence | cbn; lia].
  - intros Hfull. apply validateDomain_sound in Hfull.
    destruct Hfull as [-> _]. cbn [sanitized]. exact Hfixed.
Qed.

Lemma validateSubdomain_full_name_witness :
  let r := validateSubdomain (JString " WWW ") (JString "Example.COM") in
  isValid r = true /\ sanitized r = "www" /\
  isValid (validateDomain (JString "www.example.com")) = true /\
  sanitized (validateDomain (JString "www.example.com")) = "www.example.com".
Proof.
  intros r.
  assert (Hvalid : isValid r = true) by reflexivity.
  destruct (validateSubdomain_full_name _ _ Hvalid)
    as (_ & _ & _ & _ & _ & _ & (_ & Hfull) & Hsan).
  assert (Hgo : isValid (validateDomain (JString "www.example.com")) = true)
    by (apply Hfull; split; vm_compute; lia).
  exact (conj Hvalid (conj eq_refl (conj Hgo (Hsan Hgo)))).
Defined.

End ValidatorsFacts.

(** ** Path validator *)

Section PathValidatorFacts.
Import JS Text PathValidator.

Lemma replace_backslashes_clean (s : string) :
  all_chars (fun c => negb (Ascii.eqb c "\")) (replace_backslashes s) = true.
Proof.
  induction s as [| c s IH]; cbn; [reflexivity |].
  rewrite IH, andb_true_r. destruct (Ascii.eqb_spec c "\"); [reflexivity |].
  apply negb_true_iff, Ascii.eqb_neq. assumption.
Qed.

Lemma replace_backslashes_no_backslash (s : string) :
  includes (replace_backslashes s) "\" = false.
Proof.
  apply (all_chars_excludes (fun c => negb (Ascii.eqb c "\")));
    [apply replace_backslashes_clean | reflexivity].
Qed.

Lemma string_app_nil_r (a : string) : a +:+ "" = a.
Proof.
  induction a as [| c a IH]; [reflexivity |]. rewrite string_app_cons, IH. reflexivity.
Qed.

Lemma string_app_assoc (a b c : string) : (a +:+ b) +:+ c = a +:+ b +:+ c.
Proof.
  induction a as [| d a IH]; [reflexivity |]. rewrite !string_app_cons, IH. reflexivity.
Qed.

Lemma substring_from_app (a b : string) :
  substring_from (String.length a) (a +:+ b) = b.
Proof. induction a as [| c a IH]; [destruct b; reflexivity | exact IH]. Qed.

Lemma drop_trailing_slash_fixed (s : string) :
  endsWith s "/" = false -> drop_trailing_slash s = s.
Proof.
  induction s as [| c s IH]; [reflexivity |].
  cbn [endsWith drop_trailing_slash]. intros H. apply orb_false_elim in H.
  destruct H as [Hc Hs]. destruct s as [| d s].
  - destruct (Ascii.eqb_spec c "/") as [-> | _]; [discriminate | reflexivity].
  - rewrite (IH Hs). reflexivity.
Qed.

Lemma username_char_no_slash (c : ascii) :
  username_char c = true -> negb (Ascii.eqb c "/") = true.
Proof.
  destruct c as [[] [] [] [] [] [] [] []]; vm_compute; intros H;
    first [reflexivity | discriminate H].
Qed.

(** The base directory of an account does not end with a slash. *)
Lemma base_path_no_trailing_slash (account : string) :
  account <> "" -> all_chars username_char account = true ->
  endsWith ("/home/" +:+ account) "/" = false.
Proof.
  intros Hne Hchars. destruct (endsWith _ "/") eqn:E; [| reflexivity].
  apply endsWith_spec in E. destruct E as (front & E).
  assert (Hlast : endsWith account "/" = true).
  { apply endsWith_spec.
    assert (Hlen : String.length ("/home/" +:+ account)
                   = String.length (front +:+ "/")) by (rewrite E; reflexivity).
    rewrite !string_length_app in Hlen. cbn [String.length] in Hlen.
    destruct account as [| c account]; [congruence |].
    clear Hne Hchars. revert E.
    do 6 (destruct front as [| ? front]; [cbn in Hlen; lia |];
          rewrite ?string_app_cons; intros E; injection E as _ E; revert E;
          cbn [String.length] in Hlen).
    intros E. exists front. exact E. }
  apply endsWith_spec in Hlast. destruct Hlast as (front' & ->).
  rewrite all_chars_app in Hchars. apply andb_prop in Hchars.
  destruct Hchars as [_ Hc]. discriminate Hc.
Qed.

(** The loop over the components finds no error exactly when every
    non-empty component is allowed. *)
Lemma find_none_forall (text : string) (chars : list string) :
  List.find (fun char => includes text char) chars = None <->
  Forall (fun char => includes text char = false) chars.
Proof.
  induction chars as [| char chars IH]; cbn [List.find].
  - split; [constructor | reflexivity].
  - destruct (includes text char) eqn:E.
    + split; [discriminate | intros H; inversion H; congruence].
    + rewrite IH. split; [intros H; constructor; assumption |].
      intros H; inversion H; assumption.
Qed.

Lemma components_error_none (pathComponents : list string) :
  components_error pathComponents = None <->
  Forall (fun component => component <> "" -> component_allowed component)
         pathComponents.
Proof.
  induction pathComponents as [| component rest IH]; cbn [components_error].
  - split; [constructor | reflexivity].
  - cbv zeta. rewrite Forall_cons, <- IH. clear IH.
    destruct (String.eqb_spec component "") as [-> | Hne].
    { split; [intros H; split; [congruence | exact H] | intros [_ H]; exact H]. }
    assert (Hdir : isRestrictedDir (JString component)
                   = restricted (toLowerCase component)).
    { unfold isRestrictedDir. cbn. destruct component; [congruence | reflexivity]. }
    unfold component_allowed. rewrite Hdir.
    destruct (restricted (toLowerCase component)).
    { split; [discriminate | intros [Hc _]; destruct (Hc Hne); discriminate]. }
    destruct (List.find _ shellMetacharacters) as [char |] eqn:Efind.
    { split; [discriminate | intros [Hc _]].
      destruct (Hc Hne) as [_ Hall]. apply find_none_forall in Hall. congruence. }
    apply find_none_forall in Efind.
    split; [intros H; split; auto | intros [_ H]; exact H].
Qed.

(** X5. What [validateDocumentRoot] accepts, whatever [path.normalize]
    does. The arguments are non-empty strings; the user name, trimmed and
    lower-cased, is non-empty and made of [a-z], [0-9], underscore, hyphen
    and dot; [sanitized] is the normalized path with backslashes turned
    into slashes, it contains no [..] and no backslash, and it is either
    [/home/<user>] itself or [/home/<user>/] followed by components,
    separated by slashes, none of which is a restricted directory in any
    letter case or contains a shell metacharacter. *)
Theorem validateDocumentRoot_sound (normalize : string -> string)
    (documentRoot username : JsValue) :
  valid (validateDocumentRoot normalize documentRoot username) = true ->
  exists root user,
    documentRoot = JString root /\ root <> "" /\
    username = JString user /\ user <> "" /\
    let account := toLowerCase (trim user) in
    let path := replace_backslashes (normalize (trim root)) in
    validateDocumentRoot normalize documentRoot username =
      {| valid := true; sanitized := path; error := None |} /\
    account <> "" /\ all_chars username_char account = true /\
    includes path ".." = false /\ includes path "\" = false /\
    (path = "/home/" +:+ account \/
     exists relative,
       path = "/home/" +:+ account +:+ "/" +:+ relative /\
       Forall (fun component => component <> "" -> component_allowed component)
              (split "/" relative)).
Proof.
  unfold validateDocumentRoot.
  destruct (negb (truthy documentRoot) || _) eqn:Groot; [discriminate |].
  apply resource_guard in Groot. destruct Groot as (root & -> & Hroot).
  destruct (negb (truthy username) || _) eqn:Guser; [discriminate |].
  apply resource_guard in Guser. destruct Guser as (user & -> & Huser).
  cbn [as_string]. cbv zeta.
  set (account := toLowerCase (trim user)).
  set (path := replace_backslashes (normalize (trim root))).
  destruct (String.eqb_spec account "") as [Hempty | Haccount]; [discriminate |].
  cbn [negb andb].
  destruct (all_chars username_char account) eqn:Hchars; [| discriminate].
  cbn [negb].
  destruct (includes path "..") eqn:Hdots; [discriminate |].
  destruct (includes path "\") eqn:Hback; [discriminate |].
  rewrite (drop_trailing_slash_fixed _
             (base_path_no_trailing_slash account Haccount Hchars)).
  set (base := "/home/" +:+ account).
  intros Hvalid.
  assert (Hshape :
    exists relative,
      (path = base /\ relative = "" \/ path = base +:+ "/" +:+ relative) /\
      (if startsWith (substring_from (String.length base) path) "/"
       then substring_from 1 (substring_from (String.length base) path)
       else substring_from (String.length base) path) = relative).
  { destruct (String.eqb_spec path base) as [Hbase | Hbase].
    - exists "". split; [left; split; [exact Hbase | reflexivity] |].
      assert (Hsub : substring_from (String.length base) base = "").
      { rewrite <- (string_app_nil_r base) at 2. apply substring_from_app. }
      rewrite Hbase, Hsub. reflexivity.
    - cbn [orb] in Hvalid.
      destruct (startsWith path (base +:+ "/")) eqn:Hprefix; [| discriminate].
      apply prefix_spec in Hprefix. destruct Hprefix as (relative & Hpath).
      rewrite string_app_assoc in Hpath. exists relative.
      split; [right; exact Hpath |].
      rewrite Hpath, substring_from_app.
      assert (Hslash : startsWith ("/" +:+ relative) "/" = true)
        by (apply prefix_spec; exists relative; reflexivity).
      rewrite Hslash. reflexivity. }
  destruct Hshape as (relative & Hshape & Hrel).
  assert (Hbase_ok : String.eqb path base || startsWith path (base +:+ "/") = true).
  { destruct Hshape as [[Hp _] | Hp]; rewrite Hp.
    - rewrite String.eqb_refl. reflexivity.
    - apply orb_true_iff. right. apply prefix_spec. exists relative.
      symmetry. apply string_app_assoc. }
  rewrite Hbase_ok, Hrel in Hvalid |- *. cbn [negb] in Hvalid |- *.
  assert (Hcomponents :
    Forall (fun component => component <> "" -> component_allowed component)
           (split "/" relative)).
  { destruct (String.eqb_spec relative "") as [Hr | Hne].
    - rewrite Hr. constructor; [congruence | constructor].
    - apply components_error_none.
      destruct (components_error (split "/" relative)); [discriminate | reflexivity]. }
  assert (Hnone : (if String.eqb relative "" then None
                   else components_error (split "/" relative)) = None).
  { destruct (String.eqb relative ""); [reflexivity |].
    apply components_error_none. exact Hcomponents. }
  rewrite Hnone. exists root, user. cbv zeta. fold account path base.
  split; [reflexivity |]. split; [exact Hroot |]. split; [reflexivity |].
  split; [exact Huser |]. split; [reflexivity |]. split; [exact Haccount |].
  split; [exact Hchars |]. split; [exact Hdots |]. split; [exact Hback |].
  destruct Hshape as [[Hp _] | Hp]; [left; exact Hp | right].
  exists relative. split; [exact Hp | exact Hcomponents].
Qed.

Lemma validateDocumentRoot_sound_witness :
  let r := validateDocumentRoot (fun p => p) (JString "/home/john/public_html")
             (JString " John ") in
  valid r = true /\ sanitized r = "/home/john/public_html" /\
  includes (sanitized r) ".." = false /\ error r = None.
Proof.
  intros r.
  assert (Hvalid : valid r = true) by reflexivity.
  destruct (validateDocumentRoot_sound _ _ _ Hvalid)
    as (root & user & Hroot & _ & _ & _ & Heq & _ & _ & Hdots & _).
  injection Hroot as <-. cbv zeta in Heq, Hdots. fold r in Heq. rewrite Heq.
  exact (conj eq_refl (conj eq_refl (conj Hdots eq_refl))).
Defined.

Lemma components_error_messages (pathComponents : list string) (message : string) :
  components_error pathComponents = Some message ->
  (exists name, message = "Acesso ao diretório " +:+ quote +:+ name +:+ quote
                            +:+ " não permitido")
  \/ exists char, message = "Componente do caminho contém caracteres inválidos: "
                             +:+ char.
Proof.
  induction pathComponents as [| component rest IH]; cbn [components_error];
    [discriminate |].
  cbv zeta. destruct (String.eqb component ""); [exact IH |].
  destruct (restricted _); [intros H; injection H as <-; eauto |].
  destruct (List.find _ _); [intros H; injection H as <-; eauto | exact IH].
Qed.

(** X6. The results of [validateDocumentRoot] have one of two shapes,
    accepted with no error, or rejected with an empty [sanitized] and an
    error; and the error of the second backslash test, 'Caminho contém
    caracteres inválidos (backslash)', is never returned, whatever
    [path.normalize] does: by then every backslash has been turned into a
    slash. *)
Theorem validateDocumentRoot_result_shape (normalize : string -> string)
    (documentRoot username : JsValue) :
  let r := validateDocumentRoot normalize documentRoot username in
  (valid r = true /\ error r = None
   \/ valid r = false /\ sanitized r = "" /\ exists message, error r = Some message)
  /\ error r <> Some "Caminho contém caracteres inválidos (backslash)".
Proof.
  cbv zeta. unfold validateDocumentRoot. cbv zeta.
  rewrite replace_backslashes_no_backslash.
  repeat match goal with
         | |- context [if ?c then _ else _] => destruct c
         end;
    try (split; [right; repeat split; eexists; reflexivity | discriminate]);
    try (split; [left; split; reflexivity | discriminate]).
  all: match goal with
       | |- context [components_error ?l] =>
           destruct (components_error l) as [message |] eqn:E
       end;
    [| split; [left; split; reflexivity | discriminate]].
  all: split; [right; repeat split; eexists; reflexivity |].
  all: cbn; intros H; injection H as ->.
  all: destruct (components_error_messages _ _ E) as [(x & Hx) | (x & Hx)];
    discriminate Hx.
Qed.

(** The slash run is collapsed at its first slash: the result starts with
    a slash exactly when the text does. *)
Lemma startsWith_cons (c d : ascii) (s : string) :
  startsWith (String c s) (String d "") = Ascii.eqb c d.
Proof.
  unfold startsWith. cbn. destruct (ascii_dec d c) as [-> | Hne].
  - rewrite Ascii.eqb_refl. destruct s; reflexivity.
  - symmetry. apply Ascii.eqb_neq. congruence.
Qed.

Lemma collapse_slashes_start (s : string) :
  startsWith (collapse_slashes s) "/" = startsWith s "/".
Proof.
  induction s as [| c s IH]; [reflexivity |]. cbn [collapse_slashes].
  rewrite (startsWith_cons c "/" s).
  destruct (Ascii.eqb c "/" && startsWith s "/") eqn:E.
  - apply andb_prop in E. destruct E as [-> E]. rewrite IH. exact E.
  - apply startsWith_cons.
Qed.

Lemma collapse_slashes_single (s : string) :
  includes (collapse_slashes s) "//" = false.
Proof.
  induction s as [| c s IH]; [reflexivity |]. cbn [collapse_slashes].
  destruct (Ascii.eqb c "/" && startsWith s "/") eqn:E; [exact IH |].
  unfold includes in *. cbn [ErrorMapper.includes]. rewrite IH, orb_false_r.
  destruct (String.prefix "//" (String c (collapse_slashes s))) eqn:P; [| reflexivity].
  apply prefix_spec in P. destruct P as (rest & P).
  rewrite !string_app_cons, string_app_nil in P. injection P as -> P.
  assert (Hs : startsWith (collapse_slashes s) "/" = true)
    by (apply prefix_spec; exists rest; exact P).
  rewrite collapse_slashes_start in Hs. rewrite Hs in E. discriminate E.
Qed.

Lemma collapse_slashes_chars (ok : ascii -> bool) (s : string) :
  all_chars ok s = true -> all_chars ok (collapse_slashes s) = true.
Proof.
  induction s as [| c s IH]; [reflexivity |]. cbn [all_chars collapse_slashes].
  intros H. apply andb_prop in H. destruct H as [Hc Hs].
  destruct (_ && _); [exact (IH Hs) |]. cbn [all_chars]. rewrite Hc, (IH Hs).
  reflexivity.
Qed.

(** X7. What [sanitizePath] returns, whatever [path.normalize] does,
    contains no backslash and no two slashes in a row; for a value that is
    not a non-empty string it is the empty string. With a [normalize] that
    leaves the path alone, ['/home//john///public_html'] becomes
    ['/home/john/public_html']. *)
Theorem sanitizePath_clean (normalize : string -> string) (dirPath : JsValue) :
  includes (sanitizePath normalize dirPath) "\" = false /\
  includes (sanitizePath normalize dirPath) "//" = false /\
  ((forall s, dirPath = JString s -> s = "") -> sanitizePath normalize dirPath = "") /\
  sanitizePath (fun p => p) (JString "/home//john///public_html")
    = "/home/john/public_html".
Proof.
  unfold sanitizePath.
  destruct (negb (truthy dirPath) || _) eqn:G.
  - repeat split; try reflexivity.
  - apply resource_guard in G. destruct G as (s & -> & Hs). cbn [as_string].
    split; [| split; [apply collapse_slashes_single | split; [| reflexivity]]].
    + apply (all_chars_excludes (fun c => negb (Ascii.eqb c "\")));
        [| reflexivity].
      apply collapse_slashes_chars, replace_backslashes_clean.
    + intros H. destruct (Hs (H s eq_refl)).
Qed.

End PathValidatorFacts.

(** ** Access control *)

Section AclValidatorFacts.
Import JS Text AclValidator.

(** X8. The decision of [validateUserAccess]. Access is allowed exactly
    when the user name is a non-empty string, the token has a type and an
    identifier as [extractUserType] and [extractUserIdentifier] read them,
    and either the type is [root], or it is [reseller] and the trimmed user
    name is not empty, or it is [user] or [usuario] and the identifier is
    the trimmed, lower-cased user name. *)
Theorem validateUserAccess_decision (token username : JsValue) :
  allowed (validateUserAccess token username) = true <->
  exists user ty id,
    username = JString user /\ user <> "" /\
    extractUserType token = Some ty /\ extractUserIdentifier token = Some id /\
    (ty = "root"
     \/ ty = "reseller" /\ toLowerCase (trim user) <> ""
     \/ (ty = "user" \/ ty = "usuario") /\ id = toLowerCase (trim user)).
Proof.
  unfold validateUserAccess, extractUserType, extractUserIdentifier.
  destruct (negb (truthy token) || _) eqn:Gtoken.
  { split; [discriminate | intros (? & ? & ? & _ & _ & H & _); discriminate H]. }
  destruct (negb (truthy username) || _) eqn:Guser.
  { split; [discriminate |]. intros (user & ? & ? & -> & Hne & _).
    assert (Hacc : LockManager.resource_accepted (JString user)) by (exists user; auto).
    apply resource_guard in Hacc. cbn in Hacc, Guser. congruence. }
  apply resource_guard in Guser. destruct Guser as (user & -> & Huser).
  cbn [as_string]. cbv zeta.
  destruct (split ":" (trim (as_string token))) as [| userType [| userIdentifier rest]].
  { split; [discriminate | intros (? & ? & ? & _ & _ & H & _); discriminate H]. }
  { split; [discriminate | intros (? & ? & ? & _ & _ & _ & H & _); discriminate H]. }
  set (account := toLowerCase (trim user)).
  destruct (String.eqb_spec (toLowerCase userType) "root") as [Hroot | Hroot].
  { split; [intros _ | reflexivity].
    exists user, (toLowerCase userType), (toLowerCase userIdentifier). auto 10. }
  destruct (String.eqb_spec (toLowerCase userType) "reseller") as [Hres | Hres].
  { destruct (String.eqb_spec account "") as [Hacc | Hacc].
    - split; [discriminate |].
      intros (user' & ty & id & Hu & _ & Hty & _ & [H | [[_ H] | [[H | H] _]]]);
        injection Hu as <-; injection Hty as <-;
        first [congruence | exfalso; apply H; exact Hacc].
    - split; [intros _ | reflexivity].
      exists user, (toLowerCase userType), (toLowerCase userIdentifier). auto 10. }
  destruct (String.eqb_spec (toLowerCase userType) "user") as [Husr | Husr];
    [| destruct (String.eqb_spec (toLowerCase userType) "usuario") as [Husr' | Husr']];
    cbn [orb].
  1, 2: destruct (String.eqb_spec (toLowerCase userIdentifier) account) as [Hid | Hid];
    cbn [negb];
    [ split; [intros _ | reflexivity];
      exists user, (toLowerCase userType), (toLowerCase userIdentifier); auto 10
    | split; [discriminate |];
      intros (user' & ty & id & Hu & _ & Hty & Hi & [H | [[H _] | [_ H]]]);
      injection Hu as <-; injection Hty as <-; injection Hi as <-;
      first [congruence | exfalso; apply Hid; exact H] ].
  split; [discriminate |].
  intros (user' & ty & id & Hu & _ & Hty & _ & [H | [[H _] | [[H | H] _]]]);
    injection Hty as <-; congruence.
Qed.

(** X9. A token written as type, colon, identifier reads back as its
    parts, lower-cased; what follows a second colon is ignored. A token
    without a colon has a type but no identifier, and is refused as
    malformed for every user name. *)
Theorem token_parts (ty id : string) (rest : option string) :
  let token := ty +:+ ":" +:+ id
                 +:+ match rest with Some more => ":" +:+ more | None => "" end in
  all_chars (fun c => negb (Ascii.eqb c ":")) ty = true ->
  all_chars (fun c => negb (Ascii.eqb c ":")) id = true ->
  trim token = token ->
  extractUserType (JString token) = Some (toLowerCase ty) /\
  extractUserIdentifier (JString token) = Some (toLowerCase id) /\
  (trim ty = ty -> ty <> "" ->
   extractUserType (JString ty) = Some (toLowerCase ty) /\
   extractUserIdentifier (JString ty) = None /\
   forall username,
     validateUserAccess (JString ty) username =
       {| allowed := false;
          reason := if negb (truthy username)
                       || negb (String.eqb (typeof username) "string")
                    then "Username inválido ou ausente"
                    else "Formato de token inválido" |}).
Proof.
  cbv zeta. intros Hty Hid Htrim.
  set (token := ty +:+ ":" +:+ id +:+ _) in *.
  assert (Hsplit : exists others, split ":" token = ty :: id :: others).
  { assert (Hcolon : forall x, ":" +:+ x = String ":" x) by reflexivity.
    unfold token. rewrite Hcolon, (split_app ":" ty) by exact Hty.
    destruct rest as [more |].
    - rewrite Hcolon, (split_app ":" id) by exact Hid. eauto.
    - rewrite string_app_nil_r, (split_single ":" id) by exact Hid. eauto. }
  destruct Hsplit as (others & Hsplit).
  assert (Hguard : negb (truthy (JString token))
                   || negb (String.eqb (typeof (JString token)) "string") = false).
  { apply resource_guard. exists token. split; [reflexivity |].
    unfold token. destruct ty; discriminate. }
  unfold extractUserType, extractUserIdentifier. rewrite Hguard. cbn [as_string].
  rewrite Htrim, Hsplit. split; [reflexivity |]. split; [reflexivity |].
  intros Htrim' Hne.
  assert (Hguard' : negb (truthy (JString ty))
                    || negb (String.eqb (typeof (JString ty)) "string") = false).
  { apply resource_guard. exists ty. auto. }
  unfold validateUserAccess. rewrite Hguard'. cbn [as_string].
  rewrite Htrim', (split_single ":" ty) by exact Hty.
  split; [reflexivity |]. split; [reflexivity |].
  intros username. destruct (negb (truthy username) || _); reflexivity.
Qed.

Lemma token_parts_witness :
  extractUserType (JString "Reseller:Reseller1:x") = Some "reseller" /\
  extractUserIdentifier (JString "Reseller:Reseller1:x") = Some "reseller1".
Proof.
  destruct (token_parts "Reseller" "Reseller1" (Some "x")) as (Hty & Hid & _);
    try reflexivity.
  exact (conj Hty Hid).
Defined.

End AclValidatorFacts.

(** ** Lock manager: release, inspection, sweep *)

Section LockManagerMoreFacts.
Import JS LockManager.

Lemma releaseLock_held (s : string) (locks : Locks) (held : LockData.t) :
  s <> "" -> locks !! trim s = Some held ->
  releaseLock (JString s) locks =
    ({| released := true; release_error := None |}, delete (trim s) locks).
Proof.
  intros Hs Hheld. unfold releaseLock.
  assert (Hr : resource_accepted (JString s)) by (exists s; auto).
  apply resource_guard in Hr. rewrite Hr. cbn [as_string]. rewrite Hheld.
  reflexivity.
Qed.

Lemma releaseLock_free (s : string) (locks : Locks) :
  s <> "" -> locks !! trim s = None ->
  releaseLock (JString s) locks =
    ({| released := false;
        release_error := Some "Lock não existe para este recurso" |}, locks).
Proof.
  intros Hs Hfree. unfold releaseLock.
  assert (Hr : resource_accepted (JString s)) by (exists s; auto).
  apply resource_guard in Hr. rewrite Hr. cbn [as_string]. rewrite Hfree.
  reflexivity.
Qed.

Lemma isLocked_accepted (now : Z) (s : string) (locks : Locks) :
  s <> "" ->
  isLocked now (JString s) locks =
    match locks !! trim s with
    | None => (None, locks)
    | Some lockData =>
        let elapsed := now - LockData.timestamp lockData in
        let remaining := num_sub (LockData.timeout lockData) (Num elapsed) in
        if num_leb remaining (Num 0) then (None, delete (trim s) locks)
        else (Some {| info_lockId := LockData.lockId lockData;
                      elapsedTime := elapsed;
                      remainingTime := remaining;
                      totalTimeout := LockData.timeout lockData |}, locks)
    end.
Proof.
  intros Hs. unfold isLocked.
  assert (Hr : resource_accepted (JString s)) by (exists s; auto).
  apply resource_guard in Hr. rewrite Hr. reflexivity.
Qed.

Lemma isLocked_bad_resource (now : Z) (resource : JsValue) (locks : Locks) :
  ~ resource_accepted resource -> isLocked now resource locks = (None, locks).
Proof.
  intros Hr. unfold isLocked.
  destruct (negb (truthy resource) || _) eqn:E; [reflexivity |].
  apply resource_guard in E. contradiction.
Qed.

Lemma releaseLock_bad_resource (resource : JsValue) (locks : Locks) :
  ~ resource_accepted resource ->
  releaseLock resource locks =
    ({| released := false;
        release_error := Some "Identificador de recurso inválido" |}, locks).
Proof.
  intros Hr. unfold releaseLock.
  destruct (negb (truthy resource) || _) eqn:E; [reflexivity |].
  apply resource_guard in E. contradiction.
Qed.

(** X10. Acquire, release, acquire. After a granted [acquireLock(R, ..)],
    [releaseLock(R)] succeeds and removes the entry, so that the table is
    the one from before the acquisition without any entry for [R]; a second
    [releaseLock(R)] is refused with 'Lock não existe para este recurso'
    and changes nothing; and a further [acquireLock(R, T')] with a timeout
    that passes validation is granted at once, whatever the clock says. *)
Theorem release_after_acquire (sys : Sys) (R T : JsValue)
    (locks locks1 : Locks) (r1 : AcquireResult) :
  acquireLock sys R T locks = (r1, locks1) ->
  acquired r1 = true ->
  let key := trim (as_string R) in
  releaseLock R locks1 =
    ({| released := true; release_error := None |}, delete key locks) /\
  releaseLock R (delete key locks) =
    ({| released := false;
        release_error := Some "Lock não existe para este recurso" |},
     delete key locks) /\
  forall sys' T',
    timeout_accepted T' ->
    acquireLock sys' R T' (delete key locks) =
      ({| acquired := true; lockId := Some (random_hex sys'); error := None |},
       <[key := granted_entry sys' T']> locks).
Proof.
  intros Hcall Hacq. cbv zeta.
  destruct (acquireLock_granted _ _ _ _ _ _ Hcall Hacq)
    as (s & -> & Hs & Ht & _ & _ & ->).
  cbn [as_string]. split; [| split].
  - rewrite (releaseLock_held s _ (granted_entry sys T)) by
      (assumption || apply lookup_insert_eq).
    rewrite delete_insert_eq. reflexivity.
  - apply releaseLock_free; [assumption | apply lookup_delete_eq].
  - intros sys' T' Ht'. rewrite acquireLock_accepted by assumption.
    rewrite lookup_delete_eq, insert_delete_eq. reflexivity.
Qed.

Lemma release_after_acquire_witness :
  let sys := {| now_check := 1000; now_grant := 1000; random_hex := "a1b2" |} in
  let R := JString "domain:example.com" in
  let first := acquireLock sys R (JNumber (Num 30000)) ∅ in
  releaseLock R first.2 = ({| released := true; release_error := None |}, ∅).
Proof.
  intros sys R first.
  destruct (release_after_acquire sys R (JNumber (Num 30000)) ∅ first.2 first.1)
    as (Hrelease & _).
  - apply surjective_pairing.
  - reflexivity.
  - rewrite Hrelease. rewrite delete_empty. reflexivity.
Defined.

(** X11. Acquire, then inspect. After a granted [acquireLock(R, T)] with a
    positive [T], stored as [min(T, 600000)], [isLocked(R)] asked while
    less than the stored timeout has elapsed reports the lock with the
    token of the grant, the elapsed time, the remaining time (stored
    timeout minus elapsed, greater than zero) and the stored timeout, and
    leaves the table alone; asked once the stored timeout has elapsed it
    reports no lock and removes the entry. *)
Theorem isLocked_after_acquire (sys : Sys) (R : JsValue) (T : number) (now : Z)
    (locks locks1 : Locks) (r1 : AcquireResult) :
  num_ltb (Num 0) T = true ->
  acquireLock sys R (JNumber T) locks = (r1, locks1) ->
  acquired r1 = true ->
  exists stored,
    Math_min T (Num 600000) = Num stored /\ 0 < stored <= 600000 /\
    let elapsed := now - now_grant sys in
    (elapsed < stored ->
     isLocked now R locks1 =
       (Some {| info_lockId := random_hex sys;
                elapsedTime := elapsed;
                remainingTime := Num (stored - elapsed);
                totalTimeout := Num stored |}, locks1)
     /\ 0 < stored - elapsed) /\
    (stored <= elapsed ->
     isLocked now R locks1 = (None, delete (trim (as_string R)) locks1)).
Proof.
  intros Hpos Hcall Hacq.
  destruct (acquireLock_granted _ _ _ _ _ _ Hcall Hacq)
    as (s & -> & Hs & _ & _ & _ & Hl1).
  assert (Hheld : locks1 !! trim s = Some (granted_entry sys (JNumber T)))
    by (rewrite Hl1; apply lookup_insert_eq).
  destruct (stored_timeout_positive T Hpos) as (stored & Hst & Hrange & _).
  exists stored. split; [exact Hst |]. split; [exact Hrange |]. cbv zeta.
  rewrite isLocked_accepted by assumption. rewrite Hheld. cbv zeta.
  unfold granted_entry. cbn [LockData.timeout LockData.timestamp LockData.lockId
                             requested_timeout as_number].
  rewrite Hst. cbn [num_sub num_neg num_add num_leb as_string].
  split.
  - intros Hin. replace (stored + - (now - now_grant sys) <=? 0) with false
      by (symmetry; apply Z.leb_gt; lia).
    split; [| lia]. repeat f_equal.
  - intros Hout. replace (stored + - (now - now_grant sys) <=? 0) with true
      by (symmetry; apply Z.leb_le; lia).
    reflexivity.
Qed.

Lemma isLocked_after_acquire_witness :
  let sys := {| now_check := 1000; now_grant := 1000; random_hex := "a1b2" |} in
  let R := JString "domain:example.com" in
  let first := acquireLock sys R (JNumber (Num 30000)) ∅ in
  isLocked 6000 R first.2 =
    (Some {| info_lockId := "a1b2"; elapsedTime := 5000;
             remainingTime := Num 25000; totalTimeout := Num 30000 |}, first.2).
Proof.
  intros sys R first.
  destruct (isLocked_after_acquire sys R (Num 30000) 6000 ∅ first.2 first.1)
    as (stored & Hst & _ & Hin & _).
  - reflexivity.
  - apply surjective_pairing.
  - reflexivity.
  - injection Hst as <-. destruct Hin as [Hin _]; [cbn; lia |]. exact Hin.
Defined.

(** A call whose resource is rejected, or whose trimmed resource is not
    [key], leaves the entry stored under [key], or its absence, as it
    was. *)
Lemma other_resource_untouched (key : string) (resource : JsValue)
    (locks : Locks) :
  addresses key resource = false ->
  (forall sys timeout, (acquireLock sys resource timeout locks).2 !! key
                       = locks !! key) /\
  (releaseLock resource locks).2 !! key = locks !! key /\
  (forall now, (isLocked now resource locks).2 !! key = locks !! key).
Proof.
  intros Hother.
  destruct (resource_accepted_or_not resource) as [(s & -> & Hs) | Hno].
  - assert (Hkey : trim s <> key).
    { cbn in Hother. apply String.eqb_neq in Hs. rewrite Hs in Hother.
      cbn in Hother. apply String.eqb_neq. exact Hother. }
    split; [| split].
    + intros sys timeout. destruct (timeout_accepted_dec timeout) as [Ht | Ht].
      * rewrite acquireLock_accepted by assumption.
        destruct (locks !! trim s) as [held |]; cbv zeta;
          [destruct (num_geb _ _) |]; cbn [snd];
          rewrite ?lookup_insert_ne by assumption; reflexivity.
      * rewrite acquireLock_bad_timeout by assumption. reflexivity.
    + destruct (locks !! trim s) as [held |] eqn:E.
      * rewrite (releaseLock_held s locks held) by assumption. cbn [snd].
        apply lookup_delete_ne. assumption.
      * rewrite releaseLock_free by assumption. reflexivity.
    + intros now. rewrite isLocked_accepted by assumption.
      destruct (locks !! trim s) as [held |]; [| reflexivity].
      cbv zeta. destruct (num_leb _ _); cbn [snd]; [| reflexivity].
      apply lookup_delete_ne. assumption.
  - split; [| split].
    + intros sys timeout. rewrite acquireLock_bad_resource by assumption. reflexivity.
    + rewrite releaseLock_bad_resource by assumption. reflexivity.
    + intros now. rewrite isLocked_bad_resource by assumption. reflexivity.
Qed.

Lemma addresses_spec (key : string) (resource : JsValue) :
  addresses key resource = true ->
  exists s, resource = JString s /\ s <> "" /\ trim s = key.
Proof.
  destruct resource as [| | b | n | s | items | fields | name]; try discriminate.
  cbn. intros H. apply andb_prop in H. destruct H as [Hs Hk].
  exists s. split; [reflexivity |]. split.
  - intros ->. discriminate Hs.
  - apply String.eqb_eq. exact Hk.
Qed.

(** A call addressed to a lock that is held and within its window: the
    table stays as it is. *)
Lemma held_within_window (key : string) (held : LockData.t) (T : Z)
    (locks : Locks) (resource : JsValue) :
  locks !! key = Some held -> LockData.timeout held = Num T ->
  addresses key resource = true ->
  (forall sys timeout,
     now_check sys < LockData.timestamp held + T ->
     acquired (acquireLock sys resource timeout locks).1 = false /\
     (acquireLock sys resource timeout locks).2 = locks) /\
  (forall now,
     now < LockData.timestamp held + T ->
     (isLocked now resource locks).2 = locks).
Proof.
  intros Hheld Htimeout Haddr.
  destruct (addresses_spec _ _ Haddr) as (s & -> & Hs & <-). split.
  - intros sys timeout Hnow. destruct (timeout_accepted_dec timeout) as [Ht | Ht].
    + rewrite acquireLock_accepted by assumption. rewrite Hheld. cbv zeta.
      rewrite Htimeout. cbn [num_geb num_leb].
      replace (T <=? now_check sys - LockData.timestamp held) with false
        by (symmetry; apply Z.leb_gt; lia).
      split; reflexivity.
    + rewrite acquireLock_bad_timeout by assumption. split; reflexivity.
  - intros now Hnow. rewrite isLocked_accepted by assumption. rewrite Hheld.
    cbv zeta. rewrite Htimeout. cbn [num_sub num_neg num_add num_leb].
    replace (T + - (now - LockData.timestamp held) <=? 0) with false
      by (symmetry; apply Z.leb_gt; lia).
    reflexivity.
Qed.

Lemma staleCheck_lookup (now : Z) (locks : Locks) (key : string) :
  staleCheck now locks !! key =
    match locks !! key with
    | Some held => if is_stale now held then None else Some held
    | None => None
    end.
Proof.
  unfold staleCheck. destruct (locks !! key) as [held |] eqn:E.
  - destruct (is_stale now held) eqn:Es.
    + apply map_lookup_filter_None. right. intros held' E'. cbn.
      rewrite E in E'. injection E' as <-. congruence.
    + apply map_lookup_filter_Some. split; [exact E | exact Es].
  - apply map_lookup_filter_None. left. exact E.
Qed.

(** An entry the sweep removes at [now'] counts as expired for every call
    made at [now'] or later. *)
Lemma stale_is_expired (now' now : Z) (held : LockData.t) :
  is_stale now' held = true -> now' <= now ->
  num_geb (Num (now - LockData.timestamp held)) (LockData.timeout held) = true /\
  num_leb (num_sub (LockData.timeout held) (Num (now - LockData.timestamp held)))
          (Num 0) = true.
Proof.
  unfold is_stale. destruct held as [id ts [t | | |]]; cbn; try discriminate.
  - intros H Hle. apply Z.ltb_lt in H. split; apply Z.leb_le; lia.
  - intros _ _. split; reflexivity.
Qed.

(** X12. The periodic sweep is invisible to the callers. For every lock
    table, a sweep of stale entries at [now'] changes neither the result
    of an [acquireLock] call that reads the clock at [now'] or later, nor
    that of an [isLocked] call at [now'] or later: the sweep only removes
    entries these calls treat as expired. It keeps every other entry as it
    is. *)
Theorem sweep_preserves_answers (now' : Z) (locks : Locks) :
  (forall sys resource timeout,
     now' <= now_check sys ->
     (acquireLock sys resource timeout (staleCheck now' locks)).1
       = (acquireLock sys resource timeout locks).1) /\
  (forall now resource,
     now' <= now ->
     (isLocked now resource (staleCheck now' locks)).1
       = (isLocked now resource locks).1) /\
  (forall key held,
     locks !! key = Some held -> is_stale now' held = false ->
     staleCheck now' locks !! key = Some held).
Proof.
  split; [| split].
  - intros sys resource timeout Hle.
    destruct (resource_accepted_or_not resource) as [(s & -> & Hs) | Hno].
    2: { rewrite !acquireLock_bad_resource by assumption. reflexivity. }
    destruct (timeout_accepted_dec timeout) as [Ht | Ht].
    2: { rewrite !acquireLock_bad_timeout by assumption. reflexivity. }
    rewrite !acquireLock_accepted by assumption. rewrite staleCheck_lookup.
    destruct (locks !! trim s) as [held |]; [| reflexivity].
    destruct (is_stale now' held) eqn:Es.
    + cbv zeta.
      destruct (stale_is_expired now' (now_check sys) held Es Hle) as [-> _].
      reflexivity.
    + cbv zeta. destruct (num_geb _ _); reflexivity.
  - intros now resource Hle.
    destruct (resource_accepted_or_not resource) as [(s & -> & Hs) | Hno].
    2: { rewrite !isLocked_bad_resource by assumption. reflexivity. }
    rewrite !isLocked_accepted by assumption. rewrite staleCheck_lookup.
    destruct (locks !! trim s) as [held |]; [| reflexivity].
    destruct (is_stale now' held) eqn:Es.
    + cbv zeta.
      destruct (stale_is_expired now' now held Es Hle) as [_ ->]. reflexivity.
    + cbv zeta. destruct (num_leb _ _); reflexivity.
  - intros key held Hheld Hfresh. rewrite staleCheck_lookup, Hheld, Hfresh.
    reflexivity.
Qed.

Lemma run_call_within_window (key : string) (held : LockData.t) (T : Z)
    (c : Call) (locks : Locks) :
  locks !! key = Some held -> LockData.timeout held = Num T ->
  within_window key (LockData.timestamp held + T) c ->
  run_call c locks !! key = Some held.
Proof.
  intros Hheld Htimeout Hquiet.
  destruct c as [sys resource timeout | resource | now resource | now |];
    cbn [run_call within_window] in *.
  - destruct (addresses key resource) eqn:Haddr.
    + destruct (held_within_window key held T locks resource Hheld Htimeout Haddr)
        as [Hacquire _].
      destruct (Hacquire sys timeout (Hquiet eq_refl)) as [_ ->]. exact Hheld.
    + destruct (other_resource_untouched key resource locks Haddr) as (-> & _).
      exact Hheld.
  - destruct (other_resource_untouched key resource locks Hquiet) as (_ & -> & _).
    exact Hheld.
  - destruct (addresses key resource) eqn:Haddr.
    + destruct (held_within_window key held T locks resource Hheld Htimeout Haddr)
        as [_ Hinspect].
      rewrite (Hinspect now (Hquiet eq_refl)). exact Hheld.
    + destruct (other_resource_untouched key resource locks Haddr) as (_ & _ & ->).
      exact Hheld.
  - rewrite staleCheck_lookup, Hheld. unfold is_stale. rewrite Htimeout.
    cbn [num_add num_ltb].
    replace (LockData.timestamp held + T <? now) with false
      by (symmetry; apply Z.ltb_ge; lia).
    reflexivity.
  - contradiction.
Qed.

(** X13. Mutual exclusion. While a lock is held under [key] with a stored
    timeout [T], any sequence of calls (acquisitions, releases and
    inspections of any resources, stale sweeps) that contains no release
    of that resource and no [clearAllLocks], and reads the clock for that
    resource before the deadline [timestamp + T], leaves the entry as it
    was granted; and a further [acquireLock] of that resource before the
    deadline is refused and changes nothing. Locks on other resources are
    taken and released freely meanwhile. *)
Theorem mutual_exclusion (key : string) (held : LockData.t) (T : Z)
    (calls : list Call) (locks : Locks) :
  locks !! key = Some held -> LockData.timeout held = Num T ->
  Forall (within_window key (LockData.timestamp held + T)) calls ->
  run_calls calls locks !! key = Some held /\
  forall sys resource timeout,
    addresses key resource = true ->
    now_check sys < LockData.timestamp held + T ->
    acquired (acquireLock sys resource timeout (run_calls calls locks)).1 = false /\
    lockId (acquireLock sys resource timeout (run_calls calls locks)).1 = None /\
    (acquireLock sys resource timeout (run_calls calls locks)).2
      = run_calls calls locks.
Proof.
  intros Hheld Htimeout Hquiet.
  assert (Hstays : run_calls calls locks !! key = Some held).
  { unfold run_calls. revert locks Hheld.
    induction Hquiet as [| c calls Hc _ IH]; intros locks Hheld; [exact Hheld |].
    cbn [fold_left]. apply IH.
    apply (run_call_within_window key held T c locks Hheld Htimeout Hc). }
  split; [exact Hstays |]. intros sys resource timeout Haddr Hnow.
  destruct (held_within_window key held T _ resource Hstays Htimeout Haddr)
    as [Hacquire _].
  destruct (Hacquire sys timeout Hnow) as [Hrefused Hsame].
  split; [exact Hrefused |]. split; [| exact Hsame].
  destruct (acquireLock sys resource timeout (run_calls calls locks)) as [r l] eqn:E.
  cbn [fst] in *. destruct (lockId r) as [token |] eqn:Hid; [| reflexivity].
  exfalso. revert E. destruct (addresses_spec _ _ Haddr) as (s & -> & Hs & _).
  destruct (timeout_accepted_dec timeout) as [Ht | Ht].
  - rewrite acquireLock_accepted by assumption.
    destruct (_ !! trim s); cbv zeta; [destruct (num_geb _ _) |];
      intros E; injection E as <- <-; discriminate.
  - rewrite acquireLock_bad_timeout by assumption.
    intros E; injection E as <- <-; discriminate.
Qed.

Lemma mutual_exclusion_witness :
  let sys1 := {| now_check := 1000; now_grant := 1000; random_hex := "a1b2" |} in
  let sys2 := {| now_check := 2000; now_grant := 2000; random_hex := "c3d4" |} in
  let sys3 := {| now_check := 9000; now_grant := 9000; random_hex := "e5f6" |} in
  let held := (acquireLock sys1 (JString "domain:a.com") JUndefined ∅).2 in
  let calls := [CallAcquire sys2 (JString "domain:b.com") JUndefined;
                CallStaleCheck 5000;
                CallIsLocked 6000 (JString "domain:a.com");
                CallRelease (JString "domain:b.com")] in
  acquired (acquireLock sys3 (JString " domain:a.com ") JUndefined
              (run_calls calls held)).1 = false.
Proof.
  intros sys1 sys2 sys3 held calls.
  destruct (mutual_exclusion "domain:a.com" (LockData.mk "a1b2" 1000 (Num 30000))
              30000 calls held) as [_ Hrefused].
  - reflexivity.
  - reflexivity.
  - repeat constructor; cbn; intros; first [lia | discriminate | reflexivity].
  - destruct (Hrefused sys3 (JString " domain:a.com ") JUndefined) as [Hno _].
    + reflexivity.
    + cbn. lia.
    + exact Hno.
Defined.

(** The timeout a granted call stores. *)
Lemma granted_timeout_capped (sys : Sys) (timeout_arg : JsValue) :
  timeout_accepted timeout_arg ->
  timeout_capped (LockData.timeout (granted_entry sys timeout_arg)).
Proof.
  unfold granted_entry, timeout_capped. cbn [LockData.timeout].
  intros [-> | (n & -> & Hn)]; cbn.
  - right. exists 30000. split; [reflexivity | lia].
  - destruct n as [z | | |]; cbn in *; try discriminate.
    + apply Z.leb_gt in Hn. right. destruct (z <=? 600000) eqn:E.
      * apply Z.leb_le in E. exists z. split; [reflexivity | lia].
      * exists 600000. split; [reflexivity | lia].
    + left; reflexivity.
    + right. exists 600000. split; [reflexivity | lia].
Qed.

(** The invariant of the lock table: keys are trimmed and timeouts are
    capped. *)
Lemma run_call_invariant (c : Call) (locks : Locks) :
  map_Forall (fun key held => trim key = key
                              /\ timeout_capped (LockData.timeout held)) locks ->
  map_Forall (fun key held => trim key = key
                              /\ timeout_capped (LockData.timeout held))
             (run_call c locks).
Proof.
  intros Hinv. destruct c as [sys resource timeout | resource | now resource | now |];
    cbn [run_call].
  - destruct (acquireLock sys resource timeout locks) as [r locks'] eqn:E.
    destruct (acquired r) eqn:Ea.
    + destruct (acquireLock_granted _ _ _ _ _ _ E Ea) as (s & -> & _ & Ht & _ & _ & ->).
      cbn [snd]. apply map_Forall_insert_2; [| exact Hinv].
      split; [apply trim_idempotent | apply granted_timeout_capped, Ht].
    + assert (Hsame : locks' = locks); [| cbn [snd]; rewrite Hsame; exact Hinv].
      destruct (resource_accepted_or_not resource) as [(s & -> & Hs) | Hno].
      2: { rewrite acquireLock_bad_resource in E by assumption. congruence. }
      destruct (timeout_accepted_dec timeout) as [Ht | Ht].
      2: { rewrite acquireLock_bad_timeout in E by assumption. congruence. }
      rewrite acquireLock_accepted in E by assumption.
      destruct (locks !! trim s); cbv zeta in E;
        [destruct (num_geb _ _) |]; injection E as <- <-;
        first [discriminate Ea | reflexivity].
  - unfold releaseLock. destruct (negb (truthy resource) || _); [exact Hinv |].
    destruct (locks !! _); cbn [snd]; [| exact Hinv].
    apply map_Forall_delete. exact Hinv.
  - unfold isLocked. destruct (negb (truthy resource) || _); [exact Hinv |].
    destruct (locks !! _); cbn [snd]; [| exact Hinv].
    destruct (num_leb _ _); cbn [snd]; [| exact Hinv].
    apply map_Forall_delete. exact Hinv.
  - unfold staleCheck. intros key held Hlook.
    apply map_lookup_filter_Some in Hlook. destruct Hlook as [Hlook _].
    exact (Hinv key held Hlook).
  - cbn. apply map_Forall_empty.
Qed.

(** X14. The ten-minute cap. Whatever sequence of [acquireLock],
    [releaseLock], [isLocked], stale sweeps and [clearAllLocks] is run from
    the empty table, every entry of the table is stored under a trimmed
    key and its timeout is a positive number of at most 600000
    milliseconds, or [NaN], which the timeout validation lets through. *)
Theorem lock_timeouts_capped (calls : list Call) (key : string) (held : LockData.t) :
  run_calls calls ∅ !! key = Some held ->
  trim key = key /\ timeout_capped (LockData.timeout held).
Proof.
  assert (Hall : forall locks,
            map_Forall (fun key held => trim key = key
                                        /\ timeout_capped (LockData.timeout held))
                       locks ->
            map_Forall (fun key held => trim key = key
                                        /\ timeout_capped (LockData.timeout held))
                       (run_calls calls locks)).
  { unfold run_calls. induction calls as [| c calls IH]; intros locks Hinv;
      [exact Hinv |].
    cbn [fold_left]. apply IH, run_call_invariant, Hinv. }
  intros Hlook. exact (Hall ∅ (map_Forall_empty _) key held Hlook).
Qed.

Lemma lock_timeouts_capped_witness :
  let sys := {| now_check := 1000; now_grant := 1000; random_hex := "a1b2" |} in
  let calls := [CallAcquire sys (JString " domain:a.com ") (JNumber (Num 9000000))] in
  run_calls calls ∅ !! "domain:a.com" = Some (LockData.mk "a1b2" 1000 (Num 600000)) /\
  timeout_capped (Num 600000).
Proof.
  intros sys calls.
  assert (Hlook : run_calls calls ∅ !! "domain:a.com"
                  = Some (LockData.mk "a1b2" 1000 (Num 600000))) by reflexivity.
  destruct (lock_timeouts_capped calls _ _ Hlook) as [_ Hcap].
  exact (conj Hlook Hcap).
Defined.

(** X15. A lock taken with timeout [NaN] does not expire. [NaN] is of type
    number and is not [<= 0], so [acquireLock(R, NaN)] on a free resource
    is granted and stores [NaN]; from then on, at every clock reading,
    every [acquireLock(R, ..)] is refused and leaves the table alone,
    [isLocked(R)] reports the lock, and the stale sweep keeps the entry:
    only [releaseLock] or [clearAllLocks] remove it. *)
Theorem nan_timeout_never_expires (sys : Sys) (R : JsValue)
    (locks locks1 : Locks) (r1 : AcquireResult) :
  acquireLock sys R (JNumber NaN) locks = (r1, locks1) ->
  acquired r1 = true ->
  let key := trim (as_string R) in
  let held := LockData.mk (random_hex sys) (now_grant sys) NaN in
  locks1 !! key = Some held /\
  (forall sys' T',
     acquired (acquireLock sys' R T' locks1).1 = false /\
     (acquireLock sys' R T' locks1).2 = locks1) /\
  (forall now, exists info,
     isLocked now R locks1 = (Some info, locks1) /\
     info_lockId info = random_hex sys) /\
  (forall now, staleCheck now locks1 !! key = Some held).
Proof.
  intros Hcall Hacq. cbv zeta.
  destruct (acquireLock_granted _ _ _ _ _ _ Hcall Hacq)
    as (s & -> & Hs & _ & _ & _ & Hl1).
  cbn [as_string].
  assert (Hheld : locks1 !! trim s
                  = Some (LockData.mk (random_hex sys) (now_grant sys) NaN))
    by (rewrite Hl1; apply lookup_insert_eq).
  split; [exact Hheld |]. split; [| split].
  - intros sys' T'. destruct (timeout_accepted_dec T') as [Ht | Ht].
    + rewrite acquireLock_accepted by assumption. rewrite Hheld. split; reflexivity.
    + rewrite acquireLock_bad_timeout by assumption. split; reflexivity.
  - intros now. rewrite isLocked_accepted by assumption. rewrite Hheld.
    eexists. split; reflexivity.
  - intros now. rewrite staleCheck_lookup, Hheld. reflexivity.
Qed.

Lemma nan_timeout_never_expires_witness :
  let sys := {| now_check := 1000; now_grant := 1000; random_hex := "a1b2" |} in
  let later := {| now_check := 10 ^ 15; now_grant := 10 ^ 15; random_hex := "c3d4" |} in
  let R := JString "domain:example.com" in
  let first := acquireLock sys R (JNumber NaN) ∅ in
  acquired first.1 = true /\
  acquired (acquireLock later R JUndefined first.2).1 = false.
Proof.
  intros sys later R first.
  assert (Hacq : acquired first.1 = true) by reflexivity.
  destruct (nan_timeout_never_expires sys R ∅ first.2 first.1
              (surjective_pairing _) Hacq) as (_ & Hrefused & _).
  exact (conj Hacq (proj1 (Hrefused later JUndefined))).
Defined.

(** X16. [getLockStats] lists the table as it is. [totalLocks] is the
    number of entries listed, each key of the table is listed once, with
    the elapsed time, the stored timeout, and a remaining time that is the
    stored timeout minus the elapsed time but never below zero: an entry
    whose timeout has run out and that no call has removed yet is still
    counted and listed, with remaining time 0. [clearAllLocks] returns
    that same count and leaves the table empty. *)
Theorem getLockStats_lists_table (now : Z) (locks : Locks) :
  let stats := getLockStats now locks in
  totalLocks stats = List.length (resources stats) /\
  NoDup (map stat_resource (resources stats)) /\
  (forall stat,
     In stat (resources stats) <->
     exists key held,
       locks !! key = Some held /\
       stat = {| stat_resource := key;
                 stat_elapsedTime := now - LockData.timestamp held;
                 stat_remainingTime :=
                   Math_max (Num 0)
                     (num_sub (LockData.timeout held)
                              (Num (now - LockData.timestamp held)));
                 stat_timeout := LockData.timeout held |}) /\
  (forall stat, In stat (resources stats) ->
     num_ltb (stat_remainingTime stat) (Num 0) = false /\
     (forall ms, stat_timeout stat = Num ms -> ms <= stat_elapsedTime stat ->
        stat_remainingTime stat = Num 0)) /\
  clearAllLocks locks = (totalLocks stats, ∅).
Proof.
  cbv zeta. unfold getLockStats. cbn [totalLocks resources].
  split; [| split; [| split; [| split]]].
  - rewrite length_map, length_map_to_list. reflexivity.
  - rewrite map_map.
    rewrite (map_ext _ fst) by (intros [key held]; reflexivity).
    change (NoDup ((map_to_list locks).*1)).
    apply NoDup_fst_map_to_list.
  - intros stat. rewrite in_map_iff. split.
    + intros ([key held] & <- & Hin). exists key, held. split; [| reflexivity].
      apply elem_of_map_to_list. apply list_elem_of_In. exact Hin.
    + intros (key & held & Hlook & ->). exists (key, held). split; [reflexivity |].
      apply list_elem_of_In, elem_of_map_to_list. exact Hlook.
  - intros stat Hin. apply in_map_iff in Hin.
    destruct Hin as ([key [id ts timeout]] & <- & _).
    cbn [stat_remainingTime stat_timeout stat_elapsedTime LockData.timeout
         LockData.timestamp].
    split.
    + destruct timeout as [t | | |]; cbn; try reflexivity.
      destruct (0 <=? t + - (now - ts)) eqn:E; cbn; [| reflexivity].
      apply Z.leb_le in E. apply Z.ltb_ge. exact E.
    + intros ms -> Hle. cbn.
      destruct (0 <=? ms + - (now - ts)) eqn:E; [| reflexivity].
      apply Z.leb_le in E. f_equal. lia.
  - reflexivity.
Qed.

End LockManagerMoreFacts.

(** ** Transaction log: status, listings, statistics, clean-up *)

Section TransactionLogMoreFacts.
Import JS Heap TransactionLog.

(** Counting the entries of a table that satisfy a test. *)
Lemma size_filter_insert_fresh {A : Type} (P : string * A -> Prop)
    `{!forall x, Decision (P x)} (m : gmap string A) (k : string) (v : A) :
  m !! k = None ->
  size (filter P (<[k := v]> m))
    = ((if decide (P (k, v)) then 1 else 0) + size (filter P m))%nat.
Proof.
  intros Hfresh. rewrite map_filter_insert. destruct (decide (P (k, v))).
  - rewrite map_size_insert_None; [reflexivity |].
    apply map_lookup_filter_None. left. exact Hfresh.
  - rewrite delete_id by exact Hfresh. reflexivity.
Qed.

Lemma size_filter_insert {A : Type} (P : string * A -> Prop)
    `{!forall x, Decision (P x)} (m : gmap string A) (k : string) (old v : A) :
  m !! k = Some old ->
  (size (filter P (<[k := v]> m)) + (if decide (P (k, old)) then 1 else 0)
   = size (filter P m) + (if decide (P (k, v)) then 1 else 0))%nat.
Proof.
  intros Hold.
  rewrite <- (insert_delete_id m k old Hold) at 2.
  rewrite <- (insert_delete_eq m k v).
  rewrite !size_filter_insert_fresh by apply lookup_delete_eq. lia.
Qed.

Lemma state_eqb_eq (a b : TransactionState) : state_eqb a b = true <-> a = b.
Proof. destruct a, b; cbn; split; congruence. Qed.

Lemma count_state_insert_fresh (st : TransactionState) (h : Store)
    (m : gmap string Transaction) (k : string) (txn : Transaction) :
  m !! k = None ->
  count_state st {| heap := h; transactions := <[k := txn]> m |}
    = ((if state_eqb (status txn) st then 1 else 0)
       + count_state st {| heap := h; transactions := m |})%nat.
Proof.
  intros Hfresh. unfold count_state. cbn [transactions].
  rewrite size_filter_insert_fresh by exact Hfresh. cbn [snd].
  destruct (state_eqb (status txn) st); reflexivity.
Qed.

(** X17. The statistics add up. For every state of the log, [total] is the
    number of records and equals [pending + committed + rolledBack]; and
    [getActiveTransactions] lists exactly the pending records, each once,
    with its identifier, start time and the time elapsed since, so that
    its length is [pending]. [clearAllTransactions] returns [total] and
    leaves a log whose four numbers are 0. *)
Theorem statistics_add_up (now : Z) (w : World) :
  let stats := getTransactionStats w in
  total stats = size (transactions w) /\
  total stats = (pending stats + committed stats + rolledBack stats)%nat /\
  List.length (getActiveTransactions now w) = pending stats /\
  (forall a,
     In a (getActiveTransactions now w) <->
     exists id txn,
       transactions w !! id = Some txn /\ status txn = PENDING /\
       a = {| active_transactionId := id;
              active_operationType := operationType (heap w) txn;
              active_startedAt := timestamp txn;
              active_duration := now - timestamp txn |}) /\
  NoDup (map active_transactionId (getActiveTransactions now w)) /\
  fst (clearAllTransactions w) = total stats /\
  getTransactionStats (snd (clearAllTransactions w))
    = {| total := 0%nat; pending := 0%nat; committed := 0%nat;
         rolledBack := 0%nat |}.
Proof.
  cbv zeta. destruct w as [h m]. unfold getTransactionStats.
  cbn [total pending committed rolledBack transactions heap].
  split; [reflexivity |]. split; [| split; [| split; [| split; [| split]]]];
    [| | | | reflexivity | reflexivity].
  - induction m as [| k txn m Hfresh IH] using map_ind.
    + reflexivity.
    + rewrite !count_state_insert_fresh by exact Hfresh.
      rewrite map_size_insert_None by exact Hfresh. rewrite IH.
      destruct (status txn); cbn; lia.
  - unfold getActiveTransactions. cbn [transactions heap].
    induction m as [| k txn m Hfresh IH] using map_ind.
    + rewrite map_to_list_empty. reflexivity.
    + rewrite count_state_insert_fresh by exact Hfresh. rewrite <- IH.
      assert (Hperm : forall (f : string * Transaction -> option ActiveTransaction)
                             l l', l ≡ₚ l' ->
                       List.length (omap f l) = List.length (omap f l')).
      { intros f l l' Hp. induction Hp as [| x l l' _ IHp | x y l | l l' l'' _ IH1 _ IH2];
          cbn; [reflexivity | | | congruence].
        - destruct (f x); cbn; congruence.
        - destruct (f x), (f y); reflexivity. }
      rewrite (Hperm _ _ _ (map_to_list_insert m k txn Hfresh)). cbn.
      destruct (status txn); reflexivity.
  - intros a. unfold getActiveTransactions. cbn [transactions heap].
    rewrite <- list_elem_of_In, list_elem_of_omap. split.
    + intros ([id txn] & Hin & Hsome). apply elem_of_map_to_list in Hin.
      exists id, txn. destruct (status txn) eqn:E; cbn in Hsome; try discriminate.
      injection Hsome as <-. auto.
    + intros (id & txn & Hlook & Hpending & ->). exists (id, txn).
      split; [apply elem_of_map_to_list; exact Hlook |]. rewrite Hpending.
      reflexivity.
  - unfold getActiveTransactions. cbn [transactions heap].
    pose proof (NoDup_fst_map_to_list m) as Hnodup.
    induction (map_to_list m) as [| [id txn] l IH]; [constructor |].
    cbn in Hnodup. apply NoDup_cons in Hnodup. destruct Hnodup as [Hnot Hnodup].
    cbn. destruct (is_pending (status txn)); cbn; [| apply IH, Hnodup].
    apply NoDup_cons. split; [| apply IH, Hnodup].
    intros Hin. apply Hnot. apply list_elem_of_In, in_map_iff in Hin.
    destruct Hin as (a & Ha & Hin). apply list_elem_of_In, list_elem_of_omap in Hin.
    destruct Hin as ([id' txn'] & Hin & Hsome). apply list_elem_of_fmap.
    exists (id', txn'). split; [| exact Hin].
    destruct (is_pending (status txn')); [| discriminate].
    injection Hsome as <-. cbn in Ha. cbn. congruence.
Qed.

(** X18. [cleanupOldTransactions] removes exactly the finished records
    whose completion lies more than [maxAgeHours] hours back, and returns
    how many it removed. A pending record is never removed, however old; a
    record that stays is unchanged; the number returned plus the number of
    records left is the number of records before; the payload store is
    untouched, the [pending] count is unchanged, and running the clean-up
    again with the same clock and age removes nothing. *)
Theorem cleanup_removes_old_finished (now maxAgeHours : Z) (w : World) :
  let removed := (cleanupOldTransactions now maxAgeHours w).1 in
  let w' := (cleanupOldTransactions now maxAgeHours w).2 in
  (forall id txn,
     transactions w' !! id = Some txn <->
     transactions w !! id = Some txn /\
     (status txn = PENDING
      \/ now - default 0 (completedAt txn) <= maxAgeHours * 60 * 60 * 1000)) /\
  (removed + size (transactions w') = size (transactions w))%nat /\
  heap w' = heap w /\
  pending (getTransactionStats w') = pending (getTransactionStats w) /\
  cleanupOldTransactions now maxAgeHours w' = (0%nat, w').
Proof.
  cbv zeta. unfold cleanupOldTransactions. cbn [fst snd transactions heap].
  set (keep := fun entry : string * Transaction =>
                 expired now maxAgeHours entry.2 = false).
  assert (Hkeep : forall txn,
            expired now maxAgeHours txn = false <->
            status txn = PENDING
            \/ now - default 0 (completedAt txn) <= maxAgeHours * 60 * 60 * 1000).
  { intros txn. unfold expired.
    destruct (status txn); cbn [is_pending negb andb].
    - split; [auto | reflexivity].
    - rewrite Z.ltb_ge. split; [auto | intros [H | H]; [discriminate | exact H]].
    - rewrite Z.ltb_ge. split; [auto | intros [H | H]; [discriminate | exact H]]. }
  split; [| split; [| split; [| split]]].
  - intros id txn. rewrite map_lookup_filter_Some. unfold keep. cbn [snd].
    rewrite Hkeep. reflexivity.
  - pose proof (map_size_filter keep (transactions w)). lia.
  - reflexivity.
  - unfold getTransactionStats, count_state. cbn [pending transactions].
    rewrite map_filter_filter. f_equal. apply map_filter_ext.
    intros id txn _. unfold keep. cbn [snd]. rewrite state_eqb_eq.
    split; [tauto |]. intros Hp. split; [exact Hp |]. apply Hkeep. auto.
  - assert (Hsame : filter keep (filter keep (transactions w))
                    = filter keep (transactions w)).
    { apply map_filter_id. intros id txn Hlook.
      apply map_lookup_filter_Some in Hlook. apply Hlook. }
    rewrite Hsame, Nat.sub_diag. reflexivity.
Qed.

(** What a returning [beginTransaction] stores: one pending record under
    the generated identifier, with the returned backup, which is an
    object. *)
Lemma beginTransaction_record (now : Z) (generated : string) (P : Value)
    (w w1 : World) (r : BeginResult) :
  beginTransaction now generated P w = (Returned r, w1) ->
  begin_transactionId r = generated /\ begin_status r = PENDING /\
  truthy (begin_backup r) = true /\
  exists copy,
    transactions w1 =
      <[generated := {| operationData := copy; backup := begin_backup r;
                        status := PENDING; timestamp := now;
                        completedAt := None |}]> (transactions w).
Proof.
  unfold beginTransaction.
  destruct (negb (truthy P) || _) eqn:G; [discriminate |].
  apply orb_false_elim in G. destruct G as [Gt Go].
  destruct P as [| | b | n | s | l]; try discriminate.
  assert (Hjson : forall h text,
            JSON_stringify h (VRef l) = Ok (Some text) ->
            exists l', (JSON_parse text h).1 = VRef l').
  { intros h text. unfold JSON_stringify. cbn [serialize].
    destruct (h !! l) as [[fields | items | name] |]; try discriminate.
    - destruct (bool_decide _); [discriminate |].
      destruct (serialize_members _ fields); [| discriminate].
      intros H. injection H as <-. cbn [JSON_parse].
      match goal with
      | |- context [let '(_, _) := ?e in _] => destruct e
      end. eexists. reflexivity.
    - destruct (bool_decide _); [discriminate |].
      destruct (serialize_elements _ items); [| discriminate].
      intros H. injection H as <-. cbn [JSON_parse].
      match goal with
      | |- context [let '(_, _) := ?e in _] => destruct e
      end. eexists. reflexivity. }
  destruct (JSON_stringify (heap w) (VRef l)) as [[text |] | e] eqn:E1;
    try discriminate.
  destruct (Hjson _ _ E1) as [l' Hl'].
  destruct (JSON_parse text (heap w)) as [b h1]. cbn [fst] in Hl'. subst b.
  destruct (JSON_stringify h1 (VRef l)) as [[text' |] | e]; try discriminate.
  destruct (JSON_parse text' h1) as [copy h2].
  intros H. injection H as <- <-. cbn.
  split; [reflexivity |]. split; [reflexivity |]. split; [reflexivity |].
  exists copy. reflexivity.
Qed.

(** X19. Begin, ask, commit, ask. When [beginTransaction] returns with a
    trimmed, non-empty identifier, [getTransactionStatus] of that
    identifier gives status pending, the start time, no completion time,
    no duration and [hasBackup] true. [commitTransaction] of it then
    returns [committed], and [getTransactionStatus] gives status
    committed, the same start time and operation type, the commit time as
    completion time, their difference as duration, and [hasBackup]
    true. *)
Theorem begin_commit_status (now now' : Z) (generated : string) (P : Value)
    (w w1 : World) (r : BeginResult) :
  beginTransaction now generated P w = (Returned r, w1) ->
  generated <> "" -> trim generated = generated -> now' <> 0 ->
  let id := JString (begin_transactionId r) in
  exists kind,
    getTransactionStatus id w1 =
      inl {| data_transactionId := generated; data_status := PENDING;
             data_operationType := kind; data_startedAt := now;
             data_completedAt := None; data_duration := None;
             data_hasBackup := true |} /\
    (commitTransaction now' id w1).1 =
      {| commit_status := Some COMMITTED; commit_error := None |} /\
    getTransactionStatus id (commitTransaction now' id w1).2 =
      inl {| data_transactionId := generated; data_status := COMMITTED;
             data_operationType := kind; data_startedAt := now;
             data_completedAt := Some now'; data_duration := Some (now' - now);
             data_hasBackup := true |}.
Proof.
  intros Hbegin Hne Htrim Hnow. cbv zeta.
  destruct (beginTransaction_record _ _ _ _ _ _ Hbegin)
    as (-> & _ & Hbackup & copy & Htable).
  set (txn := {| operationData := copy; backup := begin_backup r;
                 status := PENDING; timestamp := now; completedAt := None |}) in *.
  assert (Hlook : transactions w1 !! generated = Some txn)
    by (rewrite Htable; apply lookup_insert_eq).
  exists (operationType (heap w1) txn).
  unfold getTransactionStatus, commitTransaction.
  rewrite (id_guard_passes generated Hne). cbn [as_string].
  rewrite Htrim, Hlook. cbn [status txn is_pending negb fst snd transactions heap].
  rewrite lookup_insert_eq.
  cbn [finish status timestamp completedAt backup txn operationType operationData].
  rewrite Hbackup. apply Z.eqb_neq in Hnow. rewrite Hnow.
  split; [reflexivity |]. split; reflexivity.
Qed.

Lemma begin_commit_status_witness :
  let w1 := (beginTransaction 1000 "txn_0a1b2c" (VRef 0%nat) sample_world).2 in
  exists kind,
    getTransactionStatus (JString "txn_0a1b2c")
        (commitTransaction 2500 (JString "txn_0a1b2c") w1).2 =
      inl {| data_transactionId := "txn_0a1b2c"; data_status := COMMITTED;
             data_operationType := kind; data_startedAt := 1000;
             data_completedAt := Some 2500; data_duration := Some 1500;
             data_hasBackup := true |}.
Proof.
  destruct (beginTransaction_returns 1000 "txn_0a1b2c" (VRef 0%nat) sample_world
              sample_tree sample_denotes eq_refl)
    as (j & b & c & h1 & h2 & _ & _ & _ & Hbegin).
  rewrite Hbegin. cbn [snd].
  destruct (begin_commit_status 1000 2500 _ _ _ _ _ Hbegin)
    as (kind & _ & _ & Hfinal); try discriminate; try reflexivity.
  exists kind. exact Hfinal.
Defined.

Lemma count_state_insert (st : TransactionState) (h h' : Store)
    (m : gmap string Transaction) (k : string) (old txn : Transaction) :
  m !! k = Some old ->
  (count_state st {| heap := h'; transactions := <[k := txn]> m |}
   + (if state_eqb (status old) st then 1 else 0)
   = count_state st {| heap := h; transactions := m |}
     + (if state_eqb (status txn) st then 1 else 0))%nat.
Proof.
  intros Hold. unfold count_state. cbn [transactions].
  pose proof (size_filter_insert
                (fun entry : string * Transaction =>
                   state_eqb (status entry.2) st = true) m k old txn Hold) as H.
  cbn [snd] in H. revert H.
  destruct (decide (state_eqb (status old) st = true)) as [-> | Ho];
    [| apply not_true_is_false in Ho; rewrite Ho];
    (destruct (decide (state_eqb (status txn) st = true)) as [-> | Ht];
     [| apply not_true_is_false in Ht; rewrite Ht]);
    intros H; lia.
Qed.

(** X20. The statistics follow the calls. A [commitTransaction] that
    returns [committed] moves one record from [pending] to [committed]; a
    [rollbackTransaction] that returns [rolled_back] moves one from
    [pending] to [rolledBack]; a [beginTransaction] that returns, with an
    identifier not in use, adds one to [total] and to [pending]. A commit or
    rollback that reports an error, and a [beginTransaction] that raises,
    leave all four numbers as they were. *)
Theorem statistics_follow_calls (now : Z) (w : World) :
  let before := getTransactionStats w in
  (forall transactionId,
     let after := getTransactionStats (commitTransaction now transactionId w).2 in
     match commit_status (commitTransaction now transactionId w).1 with
     | Some _ =>
         total after = total before /\ S (pending after) = pending before /\
         committed after = S (committed before) /\
         rolledBack after = rolledBack before
     | None => after = before
     end) /\
  (forall transactionId,
     let after := getTransactionStats (rollbackTransaction now transactionId w).2 in
     match (rollbackTransaction now transactionId w).1 with
     | Returned {| rollback_status := Some _ |} =>
         total after = total before /\ S (pending after) = pending before /\
         committed after = committed before /\
         rolledBack after = S (rolledBack before)
     | _ => after = before
     end) /\
  (forall generated P,
     let after := getTransactionStats (beginTransaction now generated P w).2 in
     match (beginTransaction now generated P w).1 with
     | Returned _ =>
         transactions w !! generated = None ->
         total after = S (total before) /\ pending after = S (pending before) /\
         committed after = committed before /\
         rolledBack after = rolledBack before
     | Thrown _ => after = before
     end).
Proof.
  cbv zeta. split; [| split].
  - intros transactionId. unfold commitTransaction.
    destruct (negb (JS.truthy transactionId) || _); [reflexivity |].
    destruct (transactions w !! _) as [txn |] eqn:Hlook; [| reflexivity].
    destruct (status txn) eqn:Hst; cbn [is_pending negb fst snd commit_status];
      try reflexivity.
    unfold getTransactionStats. cbn [total pending committed rolledBack transactions].
    rewrite (map_size_insert_Some _ _ (transactions w)) by eauto.
    pose proof (fun st => count_state_insert st (heap w) (heap w) (transactions w) _
                            txn (finish COMMITTED now txn) Hlook) as Hc.
    pose proof (Hc PENDING) as Hp. pose proof (Hc COMMITTED) as Hcm.
    pose proof (Hc ROLLED_BACK) as Hr. rewrite Hst in Hp, Hcm, Hr.
    cbn in Hp, Hcm, Hr. destruct w as [h m]. cbn [heap transactions] in *.
    unfold count_state in *. cbn [transactions] in *. lia.
  - intros transactionId. unfold rollbackTransaction.
    destruct (negb (JS.truthy transactionId) || _); [reflexivity |].
    destruct (transactions w !! _) as [txn |] eqn:Hlook; [| reflexivity].
    destruct (status txn) eqn:Hst; cbn [is_pending negb fst snd]; try reflexivity.
    destruct (JSON_stringify (heap w) (backup txn)) as [[text |] | e];
      try reflexivity.
    destruct (JSON_parse text (heap w)) as [copy h1].
    cbn [fst snd rollback_status].
    unfold getTransactionStats. cbn [total pending committed rolledBack transactions].
    rewrite (map_size_insert_Some _ _ (transactions w)) by eauto.
    pose proof (fun st => count_state_insert st (heap w) h1 (transactions w) _
                            txn (finish ROLLED_BACK now txn) Hlook) as Hc.
    pose proof (Hc PENDING) as Hp. pose proof (Hc COMMITTED) as Hcm.
    pose proof (Hc ROLLED_BACK) as Hr. rewrite Hst in Hp, Hcm, Hr.
    cbn in Hp, Hcm, Hr. destruct w as [h m]. cbn [heap transactions] in *.
    unfold count_state in *. cbn [transactions] in *. lia.
  - intros generated P.
    destruct (beginTransaction now generated P w) as [[r | message] w1] eqn:Hbegin;
      cbn [fst snd].
    + intros Hfresh.
      destruct (beginTransaction_record _ _ _ _ _ _ Hbegin)
        as (_ & _ & _ & copy & Htable).
      unfold getTransactionStats. cbn [total pending committed rolledBack].
      destruct w as [h m], w1 as [h1 m1]. cbn [transactions] in *. subst m1.
      rewrite map_size_insert_None by exact Hfresh.
      rewrite !(count_state_insert_fresh _ h1 m) by exact Hfresh.
      cbn. unfold count_state. cbn [transactions]. auto.
    + assert (Hsame : transactions w1 = transactions w).
      { revert Hbegin. unfold beginTransaction.
        destruct (negb (truthy P) || _); [congruence |].
        destruct (JSON_stringify (heap w) P) as [[text |] | e]; try congruence.
        destruct (JSON_parse text (heap w)) as [b h1].
        destruct (JSON_stringify h1 P) as [[text' |] | e];
          [destruct (JSON_parse text' h1); discriminate | |];
          intros H; injection H as _ <-; reflexivity. }
      unfold getTransactionStats, count_state. rewrite Hsame. reflexivity.
Qed.

End TransactionLogMoreFacts.

(** ** Operation tracker: statistics, invariants, observers, clean-up *)

Section Nsec3MoreFacts.
Import JS Nsec3.

Lemma operation_state_eqb_eq (a b : OperationState) : state_eqb a b = true <-> a = b.
Proof. destruct a, b; cbn; split; congruence. Qed.

Lemma operation_count_insert_fresh (st : OperationState)
    (m : gmap string Operation) (cbs : gmap string (list JsValue))
    (sent : list (JsValue * ProgressEvent)) (k : string) (op : Operation) :
  m !! k = None ->
  count_state st {| operations := <[k := op]> m; progressCallbacks := cbs;
                    delivered := sent |}
    = ((if state_eqb (status op) st then 1 else 0)
       + count_state st {| operations := m; progressCallbacks := cbs;
                           delivered := sent |})%nat.
Proof.
  intros Hfresh. unfold count_state. cbn [operations].
  rewrite size_filter_insert_fresh by exact Hfresh. cbn [snd].
  destruct (state_eqb (status op) st); reflexivity.
Qed.

(** X21. The operation statistics add up: for every state of the tracker
    [total] is the number of operations, and it is the sum of [queued],
    [inProgress], [completed], [failed] and [cancelled]. *)
Theorem operation_statistics_add_up (t : Tracker) :
  let stats := getOperationStats t in
  total stats = size (operations t) /\
  total stats = (queued stats + inProgress stats + completed stats
                 + failed stats + cancelled stats)%nat.
Proof.
  cbv zeta. destruct t as [m cbs sent]. unfold getOperationStats.
  cbn [total queued inProgress completed failed cancelled operations].
  split; [reflexivity |].
  induction m as [| k op m Hfresh IH] using map_ind.
  - reflexivity.
  - rewrite !operation_count_insert_fresh by exact Hfresh.
    rewrite map_size_insert_None by exact Hfresh. rewrite IH.
    destruct (status op); cbn; lia.
Qed.

(** [progressed] leaves the identity of the record, its domains, its
    timeout and its error alone. *)
Lemma progressed_frame (now : Z) (p : number) (statusData : JsValue)
    (op : Operation) :
  let op' := progressed now p statusData op in
  operationId op' = operationId op /\ domains op' = domains op /\
  totalSteps op' = totalSteps op /\ timeout op' = timeout op /\
  error op' = error op /\ startedAt op' = startedAt op /\ type op' = type op.
Proof.
  unfold progressed.
  destruct (String.eqb (typeof (get statusData "completedSteps")) "number");
    cbn [status set_progress set_completedSteps];
    destruct (state_eqb (status op) QUEUED && num_gtb p (Num 0));
    cbn [status set_progress set_completedSteps set_status];
    match goal with
    | |- context [num_eqb p (Num 100) && ?c] =>
        destruct (num_eqb p (Num 100) && c)
    end; repeat split.
Qed.

Lemma result_or_empty_truthy (statusData : JsValue) :
  truthy (result_or_empty statusData) = true.
Proof.
  unfold result_or_empty.
  destruct (truthy (get statusData "result")) eqn:E; [exact E | reflexivity].
Qed.

Lemma progressed_well_formed (now : Z) (p : number) (statusData : JsValue)
    (opId : string) (op : Operation) :
  well_formed opId op -> well_formed opId (progressed now p statusData op).
Proof.
  intros (Hid & Hnc & Hdom & Hsteps & Htimeout & Hopen & Hdone & Hfailed).
  destruct (progressed_frame now p statusData op)
    as (Eid & Edom & Esteps & Etimeout & Eerror & _ & _).
  destruct (progressed_fields now p statusData op) as (_ & Est & Eres & Ecomp).
  cbv zeta in *. unfold well_formed.
  rewrite Eid, Edom, Esteps, Etimeout, Eerror, Est, Eres, Ecomp.
  clear Eid Edom Esteps Etimeout Eerror Est Eres Ecomp.
  split; [exact Hid |]. split; [| split; [exact Hdom | split; [exact Hsteps |
    split; [exact Htimeout |]]]].
  - destruct (num_gtb p (Num 0)), (num_eqb p (Num 100)), (status op) eqn:Hst;
      cbn; congruence.
  - pose proof (result_or_empty_truthy statusData) as Htruthy.
    destruct (num_gtb p (Num 0)), (num_eqb p (Num 100)), (status op) eqn:Hst;
      cbn [state_eqb andb terminal];
      (split; [| split]); intros H; try discriminate H;
      try (destruct (Hopen eq_refl) as (Hc & Hr & He));
      try (destruct (Hdone eq_refl) as (Hc & Hr & He));
      try (destruct (Hfailed eq_refl) as (Hc & He));
      repeat split; try assumption; try discriminate; try reflexivity.
Qed.

Lemma set_failed_well_formed (now : Z) (message : JsValue) (opId : string)
    (op : Operation) :
  truthy message = true -> well_formed opId op ->
  well_formed opId (set_failed now message op).
Proof.
  intros Hm (Hid & Hnc & Hdom & Hsteps & Htimeout & _).
  unfold well_formed. cbn. repeat split; try assumption; try discriminate.
Qed.

Lemma set_progress_well_formed (p : number) (opId : string) (op : Operation) :
  well_formed opId op -> well_formed opId (set_progress p op).
Proof. intros H. exact H. Qed.

(** One call keeps every record well formed. *)
Lemma run_step_well_formed (s : Step) (t : Tracker) :
  map_Forall well_formed (operations t) ->
  map_Forall well_formed (operations (run_step s t)).
Proof.
  intros Hinv.
  destruct s as [[now generated operationId type_arg domains_arg
                 | clock operationId_arg
                 | now operationId_arg progress_arg statusData_arg
                 | now operationId_arg errorMessage
                 | operationId_arg callback]
                | now maxAgeMinutes |]; cbn [run_step run_call].
  - unfold startAsyncOperation.
    destruct (negb (truthy type_arg) || _); [exact Hinv |].
    destruct domains_arg as [| | | | | [| first others] | |]; try exact Hinv.
    cbv zeta. destruct (operations t !! _) eqn:Hfree; [exact Hinv |].
    cbn [snd operations]. apply map_Forall_insert_2; [| exact Hinv].
    unfold well_formed. cbn. repeat split; try discriminate; reflexivity.
  - unfold getOperationStatus.
    destruct (negb (truthy operationId_arg) || _); [exact Hinv |].
    destruct (operations t !! _) as [op |] eqn:Hop; [| exact Hinv].
    cbv zeta. destruct (state_eqb (status op) IN_PROGRESS && _); [| exact Hinv].
    cbn [snd]. rewrite operations_with_operation.
    apply map_Forall_insert_2; [| exact Hinv].
    apply set_failed_well_formed; [reflexivity | exact (Hinv _ _ Hop)].
  - unfold updateOperationProgress. cbv zeta.
    destruct (negb (truthy operationId_arg) || _); [exact Hinv |].
    destruct (negb (String.eqb (typeof progress_arg) "number") || _ || _);
      [exact Hinv |].
    destruct (operations t !! _) as [op |] eqn:Hop; [| exact Hinv].
    pose proof (Hinv _ _ Hop) as Hwf.
    destruct statusData_arg; cbn [snd];
      rewrite ?operations_notify, operations_with_operation;
      (apply map_Forall_insert_2; [| exact Hinv]);
      first [apply progressed_well_formed; exact Hwf | exact Hwf].
  - unfold failOperation.
    destruct (negb (truthy operationId_arg) || _); [exact Hinv |].
    destruct (operations t !! _) as [op |] eqn:Hop; [| exact Hinv].
    cbn [snd]. rewrite operations_with_operation.
    apply map_Forall_insert_2; [| exact Hinv].
    apply set_failed_well_formed; [| exact (Hinv _ _ Hop)].
    destruct (truthy errorMessage) eqn:E; [exact E | reflexivity].
  - unfold onOperationProgress.
    destruct (negb (truthy operationId_arg) || _); [exact Hinv |].
    destruct (negb _); exact Hinv.
  - cbn. intros opId op Hlook. apply map_lookup_filter_Some in Hlook.
    exact (Hinv _ _ (proj1 Hlook)).
  - cbn. apply map_Forall_empty.
Qed.

(** X22. What the records of the tracker look like, whatever calls were
    made. Starting from the empty tracker, after any sequence of calls of
    the module (the two clean-up functions included) every operation is
    stored under its own identifier, has at least one domain, as many
    total steps as domains and the timeout [calculateNsec3Timeout] gives
    for them; it is never in the cancelled state, so [cancelled] of
    [getOperationStats] is 0; while queued or in progress it has no
    completion time, result or error; once completed it has a completion
    time, a result and no error; once failed it has a completion time and
    an error. *)
Theorem tracker_records_well_formed (steps : list Step) :
  let t := run_steps steps empty_tracker in
  (forall opId op, operations t !! opId = Some op -> well_formed opId op) /\
  cancelled (getOperationStats t) = 0%nat.
Proof.
  cbv zeta.
  assert (Hall : forall t, map_Forall well_formed (operations t) ->
                           map_Forall well_formed (operations (run_steps steps t))).
  { unfold run_steps. induction steps as [| s steps IH]; intros t Hinv;
      [exact Hinv |].
    cbn [fold_left]. apply IH, run_step_well_formed, Hinv. }
  specialize (Hall empty_tracker (map_Forall_empty _)).
  split; [exact Hall |].
  unfold getOperationStats, count_state. cbn [cancelled].
  apply map_size_empty_iff, map_empty. intros opId.
  apply map_lookup_filter_None. right. intros op Hlook. cbn [snd].
  destruct (Hall _ _ Hlook) as (_ & Hnc & _).
  rewrite operation_state_eqb_eq. exact Hnc.
Qed.

Lemma getOperationStatus_found (clock : StatusClock) (s : string) (t : Tracker)
    (op : Operation) :
  s <> "" -> operations t !! trim s = Some op ->
  getOperationStatus clock (JString s) t =
    (let timedOut :=
       state_eqb (status op) IN_PROGRESS
       && (timeout op <? now_test clock - startedAt op) in
     let op' :=
       if timedOut
       then set_failed (now_stamp clock) (JString "Operação expirou (timeout)") op
       else op in
     ({| st_status := Some (status op');
         st_progress := progress op';
         st_completedSteps := Some (completedSteps op');
         st_totalSteps := Some (totalSteps op');
         st_elapsed := Some (now_report clock - startedAt op');
         st_timeout := Some (timeout op');
         st_result := result op';
         st_error := error op' |},
      if timedOut then with_operation (trim s) op' t else t)).
Proof.
  intros Hs Hop. unfold getOperationStatus.
  apply String.eqb_neq in Hs. cbn [truthy typeof as_string]. rewrite Hs.
  cbn [negb orb String.eqb Ascii.eqb Bool.eqb]. rewrite Hop. reflexivity.
Qed.

Lemma getOperationStatus_missing (clock : StatusClock) (s : string) (t : Tracker) :
  s <> "" -> operations t !! trim s = None ->
  getOperationStatus clock (JString s) t =
    (status_failure "Operação não encontrada", t).
Proof.
  intros Hs Hop. unfold getOperationStatus.
  apply String.eqb_neq in Hs. cbn [truthy typeof as_string]. rewrite Hs.
  cbn [negb orb String.eqb Ascii.eqb Bool.eqb]. rewrite Hop. reflexivity.
Qed.

(** X23. Start, then ask. A [startAsyncOperation] that reports no error
    took an identifier that was free, the given one or else the generated
    one, and returns it with status queued and the timeout of
    [calculateNsec3Timeout]. When that identifier is its own trim,
    [getOperationStatus] of it then reports queued, progress 0, 0 completed
    steps, one total step per domain, the time elapsed since the start,
    that timeout, and no result or error, and changes nothing. When it is
    not (it was given with white space around it) and nothing is stored
    under its trim, [getOperationStatus] of it reports 'Operação não
    encontrada': the operation is stored under the identifier as given,
    and looked up under the trimmed one. *)
Theorem start_then_status (now : Z) (generated : string) (given : option string)
    (type_arg domains_arg : JsValue) (t t1 : Tracker) (r : StartResult)
    (clock : StatusClock) :
  startAsyncOperation now generated given type_arg domains_arg t = (r, t1) ->
  start_error r = None ->
  exists id items,
    r = {| start_operationId := Some id; start_status := Some QUEUED;
           start_timeout := Some (calculateNsec3Timeout domains_arg);
           start_error := None |} /\
    domains_arg = JArray items /\ items <> [] /\
    id = match given with
         | Some text => if String.eqb text "" then generated else text
         | None => generated
         end /\
    operations t !! id = None /\
    (id <> "" -> trim id = id ->
     getOperationStatus clock (JString id) t1 =
       ({| st_status := Some QUEUED; st_progress := Num 0;
           st_completedSteps := Some (Num 0);
           st_totalSteps := Some (Z.of_nat (List.length items));
           st_elapsed := Some (now_report clock - now);
           st_timeout := Some (calculateNsec3Timeout domains_arg);
           st_result := JNull; st_error := JNull |}, t1)) /\
    (trim id <> id -> operations t !! trim id = None ->
     getOperationStatus clock (JString id) t1 =
       (status_failure "Operação não encontrada", t1)).
Proof.
  unfold startAsyncOperation.
  destruct (negb (truthy type_arg) || _);
    [intros H; injection H as <- <-; discriminate |].
  destruct domains_arg as [| | | | | [| first others] | |];
    try (intros H; injection H as <- <-; discriminate).
  cbv zeta.
  set (id := match given with
             | Some text => if String.eqb text "" then generated else text
             | None => generated
             end).
  destruct (operations t !! id) eqn:Hfree;
    [intros H; injection H as <- <-; discriminate |].
  intros H _. injection H as <- <-.
  exists id, (first :: others).
  split; [reflexivity |]. split; [reflexivity |]. split; [discriminate |].
  split; [reflexivity |]. split; [exact Hfree |]. split.
  - intros Hne Htrim. erewrite getOperationStatus_found;
      [| exact Hne | cbn [operations]; rewrite Htrim; apply lookup_insert_eq].
    reflexivity.
  - intros Htrim Hnone. apply getOperationStatus_missing.
    + intros Hid. apply Htrim. rewrite Hid. reflexivity.
    + cbn [operations]. rewrite lookup_insert_ne by congruence. exact Hnone.
Qed.

Lemma start_then_status_witness :
  let clock := {| now_test := 4000; now_stamp := 4000; now_report := 4000 |} in
  getOperationStatus clock (JString "nsec3_0a1b") one_queued =
    ({| st_status := Some QUEUED; st_progress := Num 0;
        st_completedSteps := Some (Num 0); st_totalSteps := Some 2;
        st_elapsed := Some 3000; st_timeout := Some 120000;
        st_result := JNull; st_error := JNull |}, one_queued).
Proof.
  intros clock.
  destruct (start_then_status 1000 "nsec3_0a1b" None (JString "recalc")
              (JArray [JString "x.com"; JString "y.com"]) empty_tracker one_queued
              (startAsyncOperation 1000 "nsec3_0a1b" None (JString "recalc")
                 (JArray [JString "x.com"; JString "y.com"]) empty_tracker).1 clock)
    as (id & items & _ & Hitems & _ & -> & _ & Hfound & _).
  - apply surjective_pairing.
  - reflexivity.
  - injection Hitems as <-. apply Hfound; [discriminate | reflexivity].
Defined.

(** X24. The timeout is detected by [getOperationStatus], for operations
    in progress only. Asked about an operation in progress whose timeout
    is exceeded by the time since its start, it marks the operation failed
    with the error 'Operação expirou (timeout)' and a completion time, and
    reports that; a later [updateOperationProgress] to 100 then answers
    [updated: true] and stores the progress, but the operation stays
    failed. Asked about any other operation (queued however long,
    exactly at the timeout, or finished) it reports the record as it is
    and changes nothing. *)
Theorem status_detects_timeout (clock : StatusClock) (s : string) (t : Tracker)
    (op : Operation) :
  s <> "" -> operations t !! trim s = Some op ->
  let elapsed := now_test clock - startedAt op in
  let expired := set_failed (now_stamp clock)
                            (JString "Operação expirou (timeout)") op in
  (status op = IN_PROGRESS -> timeout op < elapsed ->
   getOperationStatus clock (JString s) t =
     ({| st_status := Some FAILED; st_progress := progress op;
         st_completedSteps := Some (completedSteps op);
         st_totalSteps := Some (totalSteps op);
         st_elapsed := Some (now_report clock - startedAt op);
         st_timeout := Some (timeout op);
         st_result := result op;
         st_error := JString "Operação expirou (timeout)" |},
      with_operation (trim s) expired t) /\
   forall now statusData,
     statusData <> JNull ->
     exists t',
       updateOperationProgress now (JString s) (JNumber (Num 100)) statusData
           (with_operation (trim s) expired t) =
         (Returned {| updated := true; update_error := None |}, t') /\
       exists op', operations t' !! trim s = Some op' /\
                   status op' = FAILED /\ progress op' = Num 100) /\
  (status op <> IN_PROGRESS \/ elapsed <= timeout op ->
   getOperationStatus clock (JString s) t =
     ({| st_status := Some (status op); st_progress := progress op;
         st_completedSteps := Some (completedSteps op);
         st_totalSteps := Some (totalSteps op);
         st_elapsed := Some (now_report clock - startedAt op);
         st_timeout := Some (timeout op);
         st_result := result op; st_error := error op |}, t)).
Proof.
  intros Hs Hop. cbv zeta. rewrite (getOperationStatus_found clock s t op Hs Hop).
  cbv zeta. split.
  - intros Hst Hlate. rewrite Hst. cbn [state_eqb andb].
    replace (timeout op <? now_test clock - startedAt op) with true
      by (symmetry; apply Z.ltb_lt; exact Hlate).
    split; [reflexivity |]. intros now statusData Hsd.
    rewrite (updateOperationProgress_accepted now 100 s statusData _
               (set_failed (now_stamp clock)
                  (JString "Operação expirou (timeout)") op))
      by (assumption || lia || (cbn [operations with_operation];
                                 apply lookup_insert_eq)).
    eexists. split; [reflexivity |].
    rewrite operations_notify, operations_with_operation.
    eexists. split; [apply lookup_insert_eq |].
    destruct (progressed_fields now (Num 100) statusData
                (set_failed (now_stamp clock)
                   (JString "Operação expirou (timeout)") op))
      as (Hp & Hstatus & _).
    cbv zeta in Hp, Hstatus. split; [| exact Hp].
    rewrite Hstatus. reflexivity.
  - intros Hno.
    assert (Hnot : state_eqb (status op) IN_PROGRESS
                   && (timeout op <? now_test clock - startedAt op) = false).
    { destruct Hno as [Hst | Hle].
      - destruct (status op); try reflexivity. congruence.
      - replace (timeout op <? now_test clock - startedAt op) with false
          by (symmetry; apply Z.ltb_ge; exact Hle).
        apply andb_false_r. }
    rewrite Hnot. reflexivity.
Qed.

Lemma status_detects_timeout_witness :
  let clock := {| now_test := 200000; now_stamp := 200001; now_report := 200002 |} in
  st_status (getOperationStatus clock (JString "nsec3_0a1b") one_in_progress).1
    = Some FAILED /\
  st_status (getOperationStatus clock (JString "nsec3_0a1b") one_queued).1
    = Some QUEUED.
Proof.
  intros clock.
  assert (Hrun : exists op, operations one_in_progress !! trim "nsec3_0a1b" = Some op
                            /\ status op = IN_PROGRESS
                            /\ timeout op < now_test clock - startedAt op).
  { eexists. split; [vm_compute; reflexivity |]. split; [reflexivity |].
    vm_compute. reflexivity. }
  destruct Hrun as (op & Hop & Hst & Hlate).
  destruct (status_detects_timeout clock "nsec3_0a1b" one_in_progress op)
    as [Hfail _]; [discriminate | exact Hop |].
  destruct (Hfail Hst Hlate) as [Hcall _].
  split; [rewrite Hcall; reflexivity | reflexivity].
Defined.

(** What one call does to the observers stored under [key]. *)
Lemma run_call_observers (c : Call) (key : string) (t : Tracker) :
  progressCallbacks (run_call c t) !! key =
    match registers key c with
    | Some callback =>
        Some (default [] (progressCallbacks t !! key) ++ [callback])%list
    | None => progressCallbacks t !! key
    end.
Proof.
  destruct c as [now generated given type_arg domains_arg | clock operationId
                 | now operationId progress_arg statusData | now operationId message
                 | operationId callback]; cbn [run_call registers].
  - unfold startAsyncOperation.
    destruct (negb (truthy type_arg) || _); [reflexivity |].
    destruct domains_arg as [| | | | | [| first others] | |]; try reflexivity.
    destruct (operations t !! _); reflexivity.
  - unfold getOperationStatus.
    destruct (negb (truthy operationId) || _); [reflexivity |].
    destruct (operations t !! _) as [op |]; [| reflexivity].
    destruct (state_eqb (status op) IN_PROGRESS && _); reflexivity.
  - unfold updateOperationProgress.
    destruct (negb (truthy operationId) || _); [reflexivity |].
    destruct (negb (String.eqb (typeof progress_arg) "number") || _ || _);
      [reflexivity |].
    destruct (operations t !! _) as [op |]; [| reflexivity].
    destruct statusData; cbn [snd]; unfold notify, with_operation;
      cbn [progressCallbacks];
      first [reflexivity
            | destruct (progressCallbacks t !! trim (as_string operationId));
              reflexivity].
  - unfold failOperation.
    destruct (negb (truthy operationId) || _); [reflexivity |].
    destruct (operations t !! _); reflexivity.
  - unfold onOperationProgress.
    destruct operationId as [| | b | n | s | items | fields | name];
      try (cbn; rewrite ?orb_true_r; reflexivity).
    cbn [truthy typeof as_string]. rewrite String.eqb_refl. cbn [negb orb].
    destruct (String.eqb s "") eqn:Hs; [reflexivity |]. cbn [negb andb].
    destruct (String.eqb (typeof callback) "function") eqn:Hf; cbn [negb].
    + destruct (String.eqb_spec (trim s) key) as [-> | Hother]; cbn [andb snd].
      * cbn [progressCallbacks]. apply lookup_insert_eq.
      * cbn [progressCallbacks]. apply lookup_insert_ne. exact Hother.
    + rewrite andb_false_r. reflexivity.
Qed.

(** X25. Observers are registered in the order of the calls, and only
    [onOperationProgress] registers them. After any sequence of
    [startAsyncOperation], [getOperationStatus], [updateOperationProgress],
    [failOperation] and [onOperationProgress] calls, the observers stored
    under an identifier are those stored before, followed by the callbacks
    of the [onOperationProgress] calls made with a function and a non-empty
    string whose trim is that identifier, in the order of the calls. This
    holds whether or not an operation is stored under the identifier, and
    across its start, completion and failure. [onOperationProgress] answers
    [registered: true] for exactly these calls, and never changes an
    operation. *)
Theorem observers_registered_in_order (calls : list Call) (key : string)
    (t : Tracker) :
  progressCallbacks (run_calls calls t) !! key =
    match registrations key calls with
    | [] => progressCallbacks t !! key
    | registered =>
        Some (default [] (progressCallbacks t !! key) ++ registered)%list
    end /\
  (forall operationId callback,
     ((onOperationProgress operationId callback t).1 = true <->
      exists s, operationId = JString s /\ s <> "" /\
                typeof callback = "function" /\
                registers (trim s) (CallOnProgress operationId callback)
                  = Some callback) /\
     operations (onOperationProgress operationId callback t).2 = operations t).
Proof.
  split.
  - revert t. induction calls as [| c rest IH]; intros t; [reflexivity |].
    cbn [run_calls fold_left]. fold (run_calls rest (run_call c t)).
    rewrite IH, (run_call_observers c key t).
    assert (Hcons : registrations key (c :: rest) =
                      match registers key c with
                      | Some callback => callback :: registrations key rest
                      | None => registrations key rest
                      end) by reflexivity.
    rewrite Hcons.
    destruct (registers key c) as [callback |]; [| reflexivity].
    cbn [default]. destruct (registrations key rest) as [| next others].
    + reflexivity.
    + unfold id. rewrite <- app_assoc. reflexivity.
  - intros operationId callback. unfold onOperationProgress. split.
    + destruct (negb (truthy operationId)
                || negb (String.eqb (typeof operationId) "string")) eqn:G.
      * split; [discriminate |]. intros (s & -> & Hs & _).
        apply String.eqb_neq in Hs. cbn in G. rewrite Hs in G. discriminate G.
      * apply id_guard in G. destruct G as (s & -> & Hs).
        destruct (String.eqb_spec (typeof callback) "function") as [Hf | Hf];
          cbn [negb fst].
        -- split; [| reflexivity]. intros _. exists s.
           split; [reflexivity |]. split; [exact Hs |]. split; [exact Hf |].
           cbn [registers]. apply String.eqb_neq in Hs.
           rewrite Hs, String.eqb_refl, Hf. reflexivity.
        -- split; [discriminate |]. intros (s' & _ & _ & Hf' & _). contradiction.
    + destruct (negb (truthy operationId) || _); [reflexivity |].
      destruct (negb (String.eqb (typeof callback) "function")); reflexivity.
Qed.


End Nsec3MoreFacts.

(** ** Error mapper: kinds, codes and patterns *)

Section ErrorMapperMoreFacts.
Import JS ErrorMapper.

Lemma ERROR_TYPES_name (e : ErrorType) : ERROR_TYPES (error_type_name e) = Some e.
Proof. destruct e; reflexivity. Qed.

Lemma ERROR_TYPES_inv (key : string) (e : ErrorType) :
  ERROR_TYPES key = Some e -> error_type_name e = key.
Proof.
  unfold ERROR_TYPES. intros H. apply find_some in H. destruct H as [_ H].
  apply String.eqb_eq in H. exact H.
Qed.

Lemma createMappedError_kind (now : Z) (e : ErrorType) (originalMessage : JsValue) :
  createMappedError now (error_type_name e) originalMessage =
    {| type := e;
       message := cfg_description (RETRY_CONFIG e);
       originalMessage := if truthy originalMessage then originalMessage
                          else JString "";
       retry := {| shouldRetry := cfg_shouldRetry (RETRY_CONFIG e);
                   maxRetries := cfg_maxRetries (RETRY_CONFIG e);
                   backoffMs := default 0 (cfg_backoffMs (RETRY_CONFIG e)) |};
       severity := calculateSeverity e;
       timestamp := now |}.
Proof.
  unfold createMappedError. rewrite ERROR_TYPES_name. destruct e; reflexivity.
Qed.

(** X27. The retry policy of the kinds. For every key [getErrorTypes]
    lists, [createMappedError] keeps that key as the type and takes the
    message, retry settings and severity of that kind; the mapped error is
    recoverable exactly when its base backoff is positive, which is
    exactly for EBUSY, ETIMEDOUT, ECONNREFUSED, RATE_LIMITED,
    INTERNAL_ERROR, SERVICE_UNAVAILABLE and UNKNOWN; then it allows 1 to 5
    retries with a base backoff of 1000 to 5000 ms, and otherwise it
    allows none and its base backoff is 0. *)
Theorem retry_policy_of_kinds (now : Z) (key : string) (originalMessage : JsValue) :
  In key getErrorTypes ->
  let m := createMappedError now key originalMessage in
  error_type_name (type m) = key /\
  message m = cfg_description (RETRY_CONFIG (type m)) /\
  severity m = calculateSeverity (type m) /\
  (isRecoverable (Some m) = true <-> 0 < backoffMs (retry m)) /\
  (isRecoverable (Some m) = true <-> In (type m) retried_kinds) /\
  (isRecoverable (Some m) = true ->
   1 <= maxRetries (retry m) <= 5 /\ 1000 <= backoffMs (retry m) <= 5000) /\
  (isRecoverable (Some m) = false ->
   shouldRetry (retry m) = false /\ maxRetries (retry m) = 0 /\
   backoffMs (retry m) = 0).
Proof.
  unfold getErrorTypes. intros Hin. apply in_map_iff in Hin.
  destruct Hin as (e & <- & _). cbv zeta. rewrite createMappedError_kind.
  cbn [type message severity retry].
  split; [reflexivity |]. split; [reflexivity |]. split; [reflexivity |].
  split; [| split; [| split]].
  - destruct e; cbn; split; intros H; first [reflexivity | lia | discriminate H].
  - destruct e; cbn; split; intros H;
      first [reflexivity | discriminate H | intuition discriminate | auto 10].
  - destruct e; cbn; intros H; first [discriminate H | lia].
  - destruct e; cbn; intros H; first [discriminate H | repeat split].
Qed.

Lemma retry_policy_of_kinds_witness :
  let m := createMappedError 0 "RATE_LIMITED" (JString "slow down") in
  isRecoverable (Some m) = true /\ backoffMs (retry m) = 5000.
Proof.
  intros m.
  destruct (retry_policy_of_kinds 0 "RATE_LIMITED" (JString "slow down"))
    as (_ & _ & _ & _ & Hkinds & _).
  - vm_compute. tauto.
  - split; [| reflexivity]. apply Hkinds. vm_compute. tauto.
Defined.

(** X28. A known code decides the kind. For a plain object whose [code],
    or whose [errno] when [code] is absent or falsy, is one of the keys of
    [ERROR_TYPES], [mapWhmError] returns the error of that kind whatever
    the message is, even when the message matches the pattern of another
    kind or is not a string. For a plain object whose code is absent,
    [null], a boolean or a number (as the [errno] of a system error is) and
    whose message is a non-empty string, the result is the one
    [mapWhmError] gives for that message alone. *)
Theorem code_decides_kind (JSON_text : JsValue -> string) (now : Z)
    (fields : list (string * JsValue)) :
  let whmError := JObject fields in
  let errorCode := or_else (get whmError "code") (get whmError "errno") in
  let errorMessage :=
    or_else (get whmError "message")
            (or_else (get whmError "msg") (JString (JSON_text whmError))) in
  (forall code kind,
     errorCode = JString code -> ERROR_TYPES code = Some kind ->
     mapWhmError JSON_text now whmError =
       Returned (createMappedError now code errorMessage) /\
     type (createMappedError now code errorMessage) = kind) /\
  (forall text,
     errorCode = JNull \/ In (typeof errorCode) ["undefined"; "boolean"; "number"] ->
     get whmError "message" = JString text -> text <> "" ->
     mapWhmError JSON_text now whmError = mapWhmError JSON_text now (JString text)).
Proof.
  cbv zeta. split.
  - intros code kind Hcode Hkind. unfold mapWhmError. cbn [truthy negb fst snd].
    rewrite Hcode. unfold known_code.
    destruct (String.eqb_spec code "") as [-> | _]; [discriminate Hkind |].
    rewrite Hkind, (ERROR_TYPES_inv _ _ Hkind). split; [reflexivity |].
    rewrite <- (ERROR_TYPES_inv _ _ Hkind), createMappedError_kind. reflexivity.
  - intros text Hcode Hmessage Hne. unfold mapWhmError.
    cbn [truthy negb fst snd]. apply String.eqb_neq in Hne. rewrite Hne.
    cbn [negb known_code]. rewrite Hmessage.
    assert (Hor : forall other, or_else (JString text) other = JString text).
    { intros other. unfold or_else. cbn [truthy]. rewrite Hne. reflexivity. }
    rewrite !Hor.
    assert (Hunknown : known_code (or_else (get (JObject fields) "code")
                                           (get (JObject fields) "errno")) = None).
    { destruct (or_else _ _) as [| | | | code | | |] eqn:E; try reflexivity;
        destruct Hcode as [Hnull | Htype]; try discriminate Hnull;
        cbn in Htype; intuition discriminate. }
    rewrite Hunknown. reflexivity.
Qed.

Lemma code_decides_kind_witness :
  exists m,
    mapWhmError (fun _ => "") 0
      (JObject [("code", JString "EBUSY"); ("message", JString "file not found")])
      = Returned m /\
    type m = EBUSY.
Proof.
  destruct (code_decides_kind (fun _ => "") 0
              [("code", JString "EBUSY"); ("message", JString "file not found")])
    as [Hknown _].
  destruct (Hknown "EBUSY" EBUSY eq_refl eq_refl) as [Hcall Hkind].
  eexists. split; [exact Hcall | exact Hkind].
Defined.

Lemma toLowerCase_empty (text : string) : toLowerCase text = "" <-> text = "".
Proof. destruct text; cbn; split; congruence. Qed.

(** X29. Messages are classified without regard to letter case. For every
    string, [mapWhmError] returns, and the kind, the message of the kind,
    the retry settings and the severity it gives are those it gives for
    the lower-cased string; the original message is kept as it was
    given. The empty string is mapped to UNKNOWN with the original message
    'Erro vazio ou nulo'. *)
Theorem classification_ignores_case (JSON_text : JsValue -> string) (now : Z)
    (text : string) :
  exists m m',
    mapWhmError JSON_text now (JString text) = Returned m /\
    mapWhmError JSON_text now (JString (toLowerCase text)) = Returned m' /\
    type m = type m' /\ message m = message m' /\ retry m = retry m' /\
    severity m = severity m' /\
    originalMessage m
      = JString (if String.eqb text "" then "Erro vazio ou nulo" else text).
Proof.
  unfold mapWhmError. cbn [truthy].
  destruct (String.eqb_spec text "") as [-> | Hne].
  - cbn. eexists _, _. repeat split.
  - assert (Hlow : String.eqb (toLowerCase text) "" = false).
    { apply String.eqb_neq. intros H.
      exact (Hne (proj1 (toLowerCase_empty text) H)). }
    rewrite Hlow. cbn [negb fst snd known_code].
    rewrite toLowerCase_idempotent.
    assert (Hkeep : forall e msg,
              msg <> "" ->
              originalMessage (createMappedError now (error_type_name e) (JString msg))
                = JString msg).
    { intros e msg Hmsg. rewrite createMappedError_kind. cbn.
      apply String.eqb_neq in Hmsg. rewrite Hmsg. reflexivity. }
    destruct (first_pattern (toLowerCase text)) as [e |].
    + eexists _, _. split; [reflexivity |]. split; [reflexivity |].
      rewrite !createMappedError_kind. cbn. apply String.eqb_neq in Hne.
      rewrite Hne. repeat split.
    + eexists _, _. split; [reflexivity |]. split; [reflexivity |].
      change "UNKNOWN" with (error_type_name UNKNOWN).
      rewrite !createMappedError_kind. cbn. apply String.eqb_neq in Hne.
      rewrite Hne. repeat split.
Qed.

End ErrorMapperMoreFacts.
